(** * secrets-engine: a shallow embedding of the TypeScript sources

    The development follows the layout of the repository:

    - [Js]            strings, buffers and codecs of the JavaScript runtime
    - [Glob]          src/glob.ts
    - [Errors]        src/errors.ts
    - [Types]         src/types.ts
    - [Platform]      src/platform.ts
    - [Crypto]        src/crypto.ts
    - [SecretStore]   src/store.ts
    - [Integrity]     src/integrity.ts
    - [SecretsEngine] src/engine.ts

    JavaScript strings are sequences of UTF-16 code units and buffers are
    sequences of bytes; both are lists of [Z].  Everything that belongs to
    Node itself (AES-256-GCM, HMAC, SHA-256, scrypt, JSON, path.join, the
    SQLite file image) is an operation of the class [NodeRuntime]. *)

From Stdlib Require Import ZArith List Lia String Ascii Bool.
From stdpp Require Import base option list gmap sorting.

Open Scope Z_scope.

(* ===================================================================== *)
(** * Js: strings, buffers, codecs *)
(* ===================================================================== *)

Module Js.

(** A JavaScript string: its UTF-16 code units. *)
Definition jsstring := list Z.

(** A Buffer: its bytes. *)
Definition bytes := list Z.

(** An ASCII literal as a JavaScript string. *)
Definition u (s : string) : jsstring :=
  map (fun a => Z.of_N (N_of_ascii a)) (list_ascii_of_string s).

(** The double quote, which a literal of this file never contains. *)
Definition dquote : jsstring := [34].

(** The horizontal ellipsis U+2026 used by the error messages. *)
Definition ellipsis : jsstring := [8230].

(** JavaScript truthiness of a string: only the empty string is falsy. *)
Definition truthy (s : jsstring) : bool :=
  match s with [] => false | _ => true end.

(** Truthiness of [string | undefined | null]. *)
Definition truthy_opt (o : option jsstring) : bool :=
  match o with Some s => truthy s | None => false end.

Definition is_unit (c : Z) : bool := (0 <=? c) && (c <=? 65535).
Definition is_byte (b : Z) : bool := (0 <=? b) && (b <=? 255).
Definition is_high (c : Z) : bool := (55296 <=? c) && (c <=? 56319).
Definition is_low (c : Z) : bool := (56320 <=? c) && (c <=? 57343).
Definition is_cont (b : Z) : bool := (128 <=? b) && (b <=? 191).

(** The code point of a surrogate pair. *)
Definition pair_cp (hi lo : Z) : Z := 65536 + (hi - 55296) * 1024 + (lo - 56320).

(** A string is well formed when every unit is a 16-bit value and every
    surrogate is half of a pair: these are the strings that UTF-8 can
    carry ("UTF-8 strings"). *)
Fixpoint well_formed (s : jsstring) : bool :=
  match s with
  | [] => true
  | c :: s' =>
      if is_high c then
        match s' with
        | d :: s'' => is_low d && well_formed s''
        | [] => false
        end
      else is_unit c && negb (is_low c) && well_formed s'
  end.

(** ** UTF-8 *)

(** The UTF-8 bytes of one code point. *)
Definition utf8_of_cp (cp : Z) : bytes :=
  if cp <? 128 then [cp]
  else if cp <? 2048 then [192 + cp / 64; 128 + cp mod 64]
  else if cp <? 65536 then
    [224 + cp / 4096; 128 + (cp / 64) mod 64; 128 + cp mod 64]
  else
    [240 + cp / 262144; 128 + (cp / 4096) mod 64;
     128 + (cp / 64) mod 64; 128 + cp mod 64].

(** U+FFFD in UTF-8, what an unpaired surrogate is encoded as. *)
Definition replacement_bytes : bytes := [239; 191; 189].

(** [Buffer.from(s, "utf-8")], also what [cipher.update(s, "utf-8")] and
    [hmac.update(s)] feed to the primitive. *)
Fixpoint utf8_encode (s : jsstring) : bytes :=
  match s with
  | [] => []
  | c :: s' =>
      if is_high c then
        match s' with
        | d :: s'' =>
            if is_low d then utf8_of_cp (pair_cp c d) ++ utf8_encode s''
            else replacement_bytes ++ utf8_encode s'
        | [] => replacement_bytes
        end
      else if is_low c then replacement_bytes ++ utf8_encode s'
      else utf8_of_cp c ++ utf8_encode s'
  end.

(** The UTF-16 units of one code point. *)
Definition utf16_of_cp (cp : Z) : jsstring :=
  if cp <? 65536 then [cp]
  else [55296 + (cp - 65536) / 1024; 56320 + (cp - 65536) mod 1024].

(** [buf.toString("utf-8")].  It never throws: a byte that cannot start
    or continue a sequence is replaced by U+FFFD and decoding resumes at
    the byte that broke the sequence. *)
Fixpoint utf8_decode (bs : bytes) : jsstring :=
  match bs with
  | [] => []
  | b0 :: r0 =>
      if b0 <? 128 then b0 :: utf8_decode r0
      else if (194 <=? b0) && (b0 <=? 223) then
        match r0 with
        | b1 :: r1 =>
            if is_cont b1
            then ((b0 - 192) * 64 + (b1 - 128)) :: utf8_decode r1
            else 65533 :: utf8_decode r0
        | [] => [65533]
        end
      else if (224 <=? b0) && (b0 <=? 239) then
        match r0 with
        | b1 :: r1 =>
            if ((if b0 =? 224 then 160 else 128) <=? b1)
               && (b1 <=? (if b0 =? 237 then 159 else 191))
            then
              match r1 with
              | b2 :: r2 =>
                  if is_cont b2
                  then ((b0 - 224) * 4096 + (b1 - 128) * 64 + (b2 - 128))
                         :: utf8_decode r2
                  else 65533 :: utf8_decode r1
              | [] => [65533]
              end
            else 65533 :: utf8_decode r0
        | [] => [65533]
        end
      else if (240 <=? b0) && (b0 <=? 244) then
        match r0 with
        | b1 :: r1 =>
            if ((if b0 =? 240 then 144 else 128) <=? b1)
               && (b1 <=? (if b0 =? 244 then 143 else 191))
            then
              match r1 with
              | b2 :: r2 =>
                  if is_cont b2 then
                    match r2 with
                    | b3 :: r3 =>
                        if is_cont b3
                        then utf16_of_cp ((b0 - 240) * 262144 + (b1 - 128) * 4096
                                          + (b2 - 128) * 64 + (b3 - 128))
                               ++ utf8_decode r3
                        else 65533 :: utf8_decode r2
                    | [] => [65533]
                    end
                  else 65533 :: utf8_decode r1
              | [] => [65533]
              end
            else 65533 :: utf8_decode r0
        | [] => [65533]
        end
      else 65533 :: utf8_decode r0
  end.

(** ** Hexadecimal *)

Definition hex_digit (n : Z) : Z := if n <? 10 then 48 + n else 87 + n.

(** [buf.toString("hex")] and [digest("hex")]: two lowercase digits a byte. *)
Definition hex_encode (bs : bytes) : jsstring :=
  flat_map (fun b => [hex_digit (b / 16); hex_digit (b mod 16)]) bs.

Definition hex_value (c : Z) : option Z :=
  if (48 <=? c) && (c <=? 57) then Some (c - 48)
  else if (97 <=? c) && (c <=? 102) then Some (c - 87)
  else if (65 <=? c) && (c <=? 70) then Some (c - 55)
  else None.

(** [Buffer.from(s, "hex")]: pairs of digits, stopping at the first pair
    that is not hexadecimal. *)
Fixpoint hex_decode (s : jsstring) : bytes :=
  match s with
  | c :: d :: s' =>
      match hex_value c, hex_value d with
      | Some h, Some l => (h * 16 + l) :: hex_decode s'
      | _, _ => []
      end
  | _ => []
  end.

(** ** Ordering of strings *)

(** [a < b] on strings, as [Array.prototype.sort] without a comparator
    uses it: lexicographic on UTF-16 code units. *)
Fixpoint u16_leb (a b : jsstring) : bool :=
  match a, b with
  | [], _ => true
  | _ :: _, [] => false
  | x :: a', y :: b' => (x <? y) || ((x =? y) && u16_leb a' b')
  end.

Definition u16_le (a b : jsstring) : Prop := u16_leb a b = true.

#[global] Instance u16_le_dec : RelDecision u16_le.
Proof. intros a b. unfold u16_le. apply _. Defined.

(** The code points of a string (an unpaired surrogate stands for itself). *)
Fixpoint code_points (s : jsstring) : list Z :=
  match s with
  | [] => []
  | c :: s' =>
      if is_high c then
        match s' with
        | d :: s'' =>
            if is_low d then pair_cp c d :: code_points s''
            else c :: code_points s'
        | [] => [c]
        end
      else c :: code_points s'
  end.

(** Lexicographic order on code points. *)
Definition cp_le (a b : jsstring) : Prop :=
  u16_leb (code_points a) (code_points b) = true.

(** The octal digits of a non-negative [n], most significant digit first. *)
Fixpoint octal_digits (fuel : nat) (n : Z) (acc : jsstring) : jsstring :=
  match fuel with
  | O => acc
  | S fuel' =>
      let acc' := (48 + n mod 8) :: acc in
      if n / 8 =? 0 then acc' else octal_digits fuel' (n / 8) acc'
  end.

(** [n.toString(8)] for an integer [n]: the digits of the magnitude,
    after a minus sign when [n] is negative. *)
Definition toString8 (n : Z) : jsstring :=
  if n <? 0 then 45 :: octal_digits (S (Z.to_nat (Z.log2 (- n)))) (- n) []
  else octal_digits (S (Z.to_nat (Z.log2 n))) n [].

(** [s.padStart(n, "0")]. *)
Definition padStart0 (n : nat) (s : jsstring) : jsstring :=
  repeat 48 (n - length s)%nat ++ s.

(** [s.slice(0, n)]. *)
Definition slice0 (n : nat) (s : jsstring) : jsstring := take n s.

End Js.

(* ===================================================================== *)
(** * Glob: src/glob.ts *)
(* ===================================================================== *)

Module Glob.
Import Js.

(** ** The regular expressions that [matchGlob] can build

    [new RegExp(src)] is modelled on the fragment of the regular
    expression syntax that the two [replace] calls can produce: literal
    units, identity escapes, the class [[^.]], the assertions [^] and [$]
    and the quantifiers [*], [+], [?] with their lazy forms.  No flag is
    set, so the matcher works on code units, [^] and [$] only hold at the
    two ends of the input, and [[^.]] also accepts line terminators. *)

Inductive atom :=
| Lit (c : Z)
| NotDot
| Bol
| Eol.

Inductive quantifier := One | Star | Plus | Opt.

Record term := T { t_atom : atom; t_quant : quantifier }.

Definition regex := list term.

Inductive compiled :=
| Compiled (r : regex)
| ThrowsSyntaxError
| NotModelled.

(** The units of [. + ^ $ { } ( ) | [ ] \], the class of the first
    [replace]. *)
Definition escaped_class : list Z :=
  [46; 43; 94; 36; 123; 125; 40; 41; 124; 91; 93; 92].

Definition in_escaped_class (c : Z) : bool := existsb (Z.eqb c) escaped_class.

(** The syntax characters of the pattern grammar: the class above with
    [*], [?] and [/]. *)
Definition is_syntax_char (c : Z) : bool :=
  in_escaped_class c || (c =? 42) || (c =? 63) || (c =? 47).

Inductive lexed :=
| LAtom (a : atom) (rest : jsstring)
| LSyntaxError
| LNotModelled.

(** One atom from the front of the source. *)
Definition lex_atom (s : jsstring) : lexed :=
  match s with
  | [] => LNotModelled
  | c :: r =>
      if c =? 92 then
        match r with
        | d :: r' => if is_syntax_char d then LAtom (Lit d) r' else LNotModelled
        | [] => LSyntaxError
        end
      else if c =? 91 then
        match r with
        | c1 :: c2 :: c3 :: r' =>
            if (c1 =? 94) && (c2 =? 46) && (c3 =? 93) then LAtom NotDot r'
            else LNotModelled
        | _ => LNotModelled
        end
      else if c =? 94 then LAtom Bol r
      else if c =? 36 then LAtom Eol r
      else if (c =? 42) || (c =? 43) || (c =? 63) then LSyntaxError
      else if in_escaped_class c then LNotModelled
      else LAtom (Lit c) r
  end.

(** A lazy mark after a quantifier changes which match is found, not
    whether there is one. *)
Definition skip_lazy (s : jsstring) : jsstring :=
  match s with
  | c :: r => if c =? 63 then r else s
  | [] => s
  end.

(** The quantifier that follows an atom, if any. *)
Definition lex_quant (s : jsstring) : quantifier * jsstring :=
  match s with
  | c :: r =>
      if c =? 42 then (Star, skip_lazy r)
      else if c =? 43 then (Plus, skip_lazy r)
      else if c =? 63 then (Opt, skip_lazy r)
      else (One, s)
  | [] => (One, s)
  end.

Definition is_assertion (a : atom) : bool :=
  match a with Bol | Eol => true | _ => false end.

Definition is_One (q : quantifier) : bool :=
  match q with One => true | _ => false end.

Fixpoint parse (fuel : nat) (s : jsstring) : compiled :=
  match s with
  | [] => Compiled []
  | _ =>
      match fuel with
      | O => NotModelled
      | S fuel' =>
          match lex_atom s with
          | LSyntaxError => ThrowsSyntaxError
          | LNotModelled => NotModelled
          | LAtom a r =>
              let (q, r') := lex_quant r in
              if is_assertion a && negb (is_One q) then ThrowsSyntaxError
              else
                match parse fuel' r' with
                | Compiled ts => Compiled (T a q :: ts)
                | e => e
                end
          end
      end
  end.

(** [new RegExp(src)]. *)
Definition RegExp (src : jsstring) : compiled := parse (length src) src.

Definition atom_ok (a : atom) (c : Z) : bool :=
  match a with
  | Lit x => c =? x
  | NotDot => negb (c =? 46)
  | Bol | Eol => false
  end.

(** Whether the terms match a prefix of [s]; [bol] tells that [s] starts
    the input. *)
Fixpoint matches_from (ts : regex) (bol : bool) (s : jsstring) {struct ts} : bool :=
  match ts with
  | [] => true
  | T a q :: ts' =>
      match a with
      | Bol => bol && matches_from ts' bol s
      | Eol => match s with [] => matches_from ts' bol s | _ :: _ => false end
      | _ =>
          match q with
          | One =>
              match s with
              | c :: s' => atom_ok a c && matches_from ts' false s'
              | [] => false
              end
          | Opt =>
              match s with
              | c :: s' => (atom_ok a c && matches_from ts' false s')
                           || matches_from ts' bol s
              | [] => matches_from ts' bol s
              end
          | Star =>
              (fix star (bol : bool) (s : jsstring) {struct s} : bool :=
                 match s with
                 | c :: s' => (atom_ok a c && star false s') || matches_from ts' bol s
                 | [] => matches_from ts' bol s
                 end) bol s
          | Plus =>
              match s with
              | c :: s' =>
                  atom_ok a c &&
                  (fix star (bol : bool) (s : jsstring) {struct s} : bool :=
                     match s with
                     | c :: s' => (atom_ok a c && star false s') || matches_from ts' bol s
                     | [] => matches_from ts' bol s
                     end) false s'
              | [] => false
              end
          end
      end
  end.

(** [regex.test(key)]: a match may start at any index. *)
Fixpoint search (ts : regex) (bol : bool) (s : jsstring) : bool :=
  matches_from ts bol s
  || match s with [] => false | _ :: s' => search ts false s' end.

Definition test (r : regex) (s : jsstring) : bool := search r true s.

(** ** The source *)

(** [pattern.replace(/[.+^${}()|[\]\\]/g, "\\$&")]. *)
Definition escapeSpecials (pattern : jsstring) : jsstring :=
  flat_map (fun c => if in_escaped_class c then [92; c] else [c]) pattern.

(** [.replace(/\*/g, "[^.]*")]. *)
Definition expandStars (s : jsstring) : jsstring :=
  flat_map (fun c => if c =? 42 then [91; 94; 46; 93; 42] else [c]) s.

Definition regexStr (pattern : jsstring) : jsstring :=
  expandStars (escapeSpecials pattern).

(** The template literal [`^${regexStr}$`]. *)
Definition regexSource (pattern : jsstring) : jsstring :=
  [94] ++ regexStr pattern ++ [36].

(** [matchGlob(pattern, key)]; [None] when [new RegExp] throws. *)
Definition matchGlob (pattern key : jsstring) : option bool :=
  match RegExp (regexSource pattern) with
  | Compiled r => Some (test r key)
  | ThrowsSyntaxError | NotModelled => None
  end.

(** [keys.filter((key) => matchGlob(pattern, key))]: the callback runs
    once per key, in order, and the first throw ends the call. *)
Fixpoint filterKeys (keys : list jsstring) (pattern : jsstring)
  : option (list jsstring) :=
  match keys with
  | [] => Some []
  | key :: keys' =>
      match matchGlob pattern key with
      | None => None
      | Some b =>
          match filterKeys keys' pattern with
          | None => None
          | Some rest => Some (if b then key :: rest else rest)
          end
      end
  end.

(** ** The pattern language of the documentation

    [glob_spec pattern key]: [key] is [pattern] with every [*] replaced by
    a run of units other than [.], every other unit kept as it is. *)
Inductive glob_spec : jsstring -> jsstring -> Prop :=
| glob_nil : glob_spec [] []
| glob_star (run : jsstring) (p k : jsstring) :
    Forall (fun c => c <> 46) run -> glob_spec p k ->
    glob_spec (42 :: p) (run ++ k)
| glob_lit (c : Z) (p k : jsstring) :
    c <> 42 -> glob_spec p k -> glob_spec (c :: p) (c :: k).

End Glob.

(* ===================================================================== *)
(** * Errors: src/errors.ts *)
(* ===================================================================== *)

Module Errors.
Import Js.

(** What a [throw] can carry: the five classes of the SDK, the errors of
    [node:fs] (an [Error] with a [code]) and plain [Error]s. *)
#[warnings="-register-all"]
Inductive error :=
| SecurityError (message expectedPermission actualPermission path : jsstring)
| IntegrityError (message : jsstring)
| KeyNotFoundError (key : jsstring)
| DecryptionError (message : jsstring) (keyHash : option jsstring)
| InitializationError (message : jsstring) (cause : option error)
| ErrnoException (code : jsstring)
| Error (message : jsstring).

(** The default argument of [IntegrityError]'s constructor. *)
Definition integrity_default_message : jsstring :=
  u "Database integrity check failed " ++ [8212] ++ u " possible tampering detected".

(** [err.code] of the SDK's classes. *)
Definition code (e : error) : option jsstring :=
  match e with
  | SecurityError _ _ _ _ => Some (u "SECURITY_ERROR")
  | IntegrityError _ => Some (u "INTEGRITY_ERROR")
  | KeyNotFoundError _ => Some (u "KEY_NOT_FOUND")
  | DecryptionError _ _ => Some (u "DECRYPTION_ERROR")
  | InitializationError _ _ => Some (u "INITIALIZATION_ERROR")
  | ErrnoException c => Some c
  | Error _ => None
  end.

(** The [detail] of [DecryptionError]'s constructor. *)
Definition decryption_detail (keyHash : option jsstring) : jsstring :=
  match keyHash with
  | Some h =>
      if truthy h then u " (entry: " ++ slice0 16 h ++ ellipsis ++ u ")" else []
  | None => []
  end.

(** [err.message], as each constructor passes it to [super]. *)
Definition message (e : error) : jsstring :=
  match e with
  | SecurityError m expected actual path =>
      m ++ u " " ++ [8212] ++ u " expected " ++ expected ++ u ", got " ++ actual
        ++ u " on " ++ dquote ++ path ++ dquote
  | IntegrityError m => m
  | KeyNotFoundError key => u "Key not found: " ++ dquote ++ key ++ dquote
  | DecryptionError m keyHash =>
      u "Decryption failed" ++ decryption_detail keyHash ++ u ": " ++ m
  | InitializationError m _ => u "Initialization failed: " ++ m
  | ErrnoException c => c
  | Error m => m
  end.

(** The outcome of a call: a value or a thrown error. *)
Inductive Res (A : Type) :=
| Ok (a : A)
| Err (e : error).
Arguments Ok {A} a.
Arguments Err {A} e.

Definition is_Ok {A} (r : Res A) : bool :=
  match r with Ok _ => true | Err _ => false end.

End Errors.

(* ===================================================================== *)
(** * Types: src/types.ts *)
(* ===================================================================== *)

Module Types.
Import Js.

Inductive StorageLocation := home | xdg.

Record OpenOptions := {
  path : option jsstring;
  location : option StorageLocation;
}.

(** A row of the [secrets] table without its primary key [key_hash],
    which is the key of the table's map. *)
Record Row := {
  key_enc : bytes;
  iv : bytes;
  cipher : bytes;
  created : Z;
  updated : Z;
}.

Record EncryptedEntry := {
  key_hash : jsstring;
  columns : Row;
}.

Record StoreMeta := {
  version : jsstring;
  salt : jsstring;
  integrity : jsstring;
}.

(** A parsed [meta.json] seen through the casts [as StoreMeta] and
    [as { salt?: string }]: each field is a string or is missing. *)
Record MetaJson := {
  json_version : option jsstring;
  json_salt : option jsstring;
  json_integrity : option jsstring;
}.

Module CONSTANTS.
Definition IV_LENGTH : nat := 12.
Definition AUTH_TAG_LENGTH : nat := 16.
Definition KEY_LENGTH : nat := 32.
Definition SCRYPT_N : Z := 131072.
Definition SCRYPT_R : Z := 8.
Definition SCRYPT_P : Z := 1.
Definition KEYFILE_LENGTH : nat := 32.
Definition SALT_LENGTH : nat := 32.
Definition STORE_VERSION : jsstring := u "1".
Definition DIR_NAME : jsstring := u ".secrets-engine".
Definition KEYFILE_NAME : jsstring := u ".keyfile".
Definition DB_NAME : jsstring := u "store.db".
Definition META_NAME : jsstring := u "meta.json".
End CONSTANTS.

End Types.

(* ===================================================================== *)
(** * Node: the runtime the sources call into *)
(* ===================================================================== *)

Module Node.
Import Js Errors Types.

(** ** Primitives of node:crypto, JSON, node:path and bun:sqlite

    The SDK calls them and does not implement them; they are the
    operations of a class, with the laws that the proofs rely on. *)
Class NodeRuntime := {
  (** [createCipheriv("aes-256-gcm", key, iv)], [update], [final] and
      [getAuthTag]: the encrypted bytes and the tag. *)
  aes256gcm_seal : bytes -> bytes -> bytes -> bytes * bytes;
  (** [createDecipheriv], [setAuthTag], [update] and [final]: the
      plaintext, or the message that the [catch] of [decrypt] takes from
      what one of them throws: its [message] when it is an [Error], and
      [Unknown decryption error] when it is not. *)
  aes256gcm_open : bytes -> bytes -> bytes -> bytes -> jsstring + bytes;
  (** [createHmac("sha256", key).update(data).digest()]. *)
  hmac_sha256 : bytes -> bytes -> bytes;
  (** [createHash("sha256").update(data).digest()]. *)
  sha256_digest : bytes -> bytes;
  (** [scryptSync(password, salt, keylen, { N, r, p, maxmem })]. *)
  scryptSync : bytes -> bytes -> nat -> Z -> Z -> Z -> Z -> bytes;
  (** [JSON.parse] of a meta document; [None] when it throws. *)
  JSON_parse : jsstring -> option MetaJson;
  (** [JSON.stringify(meta, null, 2)]. *)
  JSON_stringify : StoreMeta -> jsstring;
  (** [join(a, b)] of node:path. *)
  path_join : jsstring -> jsstring -> jsstring;
  (** The bytes of a database file that holds the given rows. *)
  sqlite_image : gmap jsstring Row -> bytes;

  seal_tag_length : forall key iv plaintext,
    length (snd (aes256gcm_seal key iv plaintext)) = CONSTANTS.AUTH_TAG_LENGTH;
  open_seal : forall key iv plaintext,
    length key = CONSTANTS.KEY_LENGTH ->
    aes256gcm_open key iv (fst (aes256gcm_seal key iv plaintext))
                          (snd (aes256gcm_seal key iv plaintext))
    = inr plaintext;
  scrypt_length : forall password salt keylen N r p maxmem,
    length (scryptSync password salt keylen N r p maxmem) = keylen;
}.

(** ** The process and the machine *)

Record NetworkInterfaceInfo := {
  internal : bool;
  mac : jsstring;
}.

Record Env := {
  (** [process.platform === "win32"]. *)
  win32 : bool;
  XDG_CONFIG_HOME : option jsstring;
  APPDATA : option jsstring;
  homedir : jsstring;
  hostname : jsstring;
  (** [Object.values(networkInterfaces())]. *)
  networkInterfaces : list (option (list NetworkInterfaceInfo));
  username : jsstring;
  umask : Z;
}.

(** ** The file system

    Directories are flat: a directory holds files by name.  A file path
    is a directory and a name, which is what [join(dirPath, NAME)]
    denotes; the joined string is only needed inside messages. *)

Inductive fspath :=
| DirPath (dir : jsstring)
| FilePath (dir name : jsstring).

(** A database file is kept as the rows of its main file and the rows a
    connection sees, which include what is still in the write-ahead log. *)
Inductive FileData :=
| Raw (data : bytes)
| Sqlite (main view : gmap jsstring Row).

Record File := {
  f_mode : Z;
  f_data : FileData;
}.

Record Dir := {
  d_mode : Z;
  d_files : gmap jsstring File;
}.

Inductive event :=
| EvMkdir (dir : jsstring)
| EvStat (p : fspath)
| EvReadFile (p : fspath)
| EvWriteFile (p : fspath)
| EvChmod (p : fspath)
| EvReaddir (dir : jsstring)
| EvUnlink (p : fspath)
| EvRm (dir : jsstring)
| EvDbOpen (dir : jsstring)
| EvDbRun (dir : jsstring)
| EvCheckpoint (dir : jsstring)
| EvDbClose (dir : jsstring)
| EvWarn (text : jsstring).

Record World := {
  w_env : Env;
  w_fs : gmap jsstring Dir;
  (** The bytes the secure random generator will hand out, and how many
      of them are spent. *)
  w_entropy : nat -> Z;
  w_spent : nat;
  (** [Date.now()]. *)
  w_now : Z;
  (** What has been done to the outside, oldest first. *)
  w_log : list event;
}.

Definition set_fs (fs : gmap jsstring Dir) (w : World) : World :=
  {| w_env := w_env w; w_fs := fs; w_entropy := w_entropy w;
     w_spent := w_spent w; w_now := w_now w; w_log := w_log w |}.

Definition add_log (ev : event) (w : World) : World :=
  {| w_env := w_env w; w_fs := w_fs w; w_entropy := w_entropy w;
     w_spent := w_spent w; w_now := w_now w; w_log := w_log w ++ [ev] |}.

Definition spend (n : nat) (w : World) : World :=
  {| w_env := w_env w; w_fs := w_fs w; w_entropy := w_entropy w;
     w_spent := (w_spent w + n)%nat; w_now := w_now w; w_log := w_log w |}.

(** ** Calls that may throw and that change a state *)

Definition M (S A : Type) : Type := S -> Res A * S.

Definition ret {S A} (a : A) : M S A := fun s => (Ok a, s).

Definition throw {S A} (e : error) : M S A := fun s => (Err e, s).

Definition bind {S A B} (c : M S A) (k : A -> M S B) : M S B :=
  fun s =>
    match c s with
    | (Ok a, s') => k a s'
    | (Err e, s') => (Err e, s')
    end.

(** [try { body } catch (error) { handler }]: what [body] did before it
    threw stays done. *)
Definition tryCatch {S A} (body : M S A) (handler : error -> M S A) : M S A :=
  fun s =>
    match body s with
    | (Ok a, s') => (Ok a, s')
    | (Err e, s') => handler e s'
    end.

Definition gets {S A} (f : S -> A) : M S A := fun s => (Ok (f s), s).

Definition modify {S} (f : S -> S) : M S unit := fun s => (Ok tt, f s).

Definition liftRes {S A} (r : Res A) : M S A := fun s => (r, s).

Notation "'let*' x ':=' c 'in' k" := (bind c (fun x => k))
  (at level 10, x pattern, c at level 100, k at level 200).

Definition when {S} (b : bool) (c : M S unit) : M S unit :=
  if b then c else ret tt.

Definition log (ev : event) : M World unit := modify (add_log ev).

Definition ENOENT : error := ErrnoException (u "ENOENT").

(** ** node:fs/promises *)

Definition lookup_file (fs : gmap jsstring Dir) (dir name : jsstring) : option File :=
  match fs !! dir with
  | Some d => d_files d !! name
  | None => None
  end.

Definition S_IFDIR : Z := 16384.
Definition S_IFREG : Z := 32768.

(** [(await stat(p)).mode]: the type of the file and its permission bits. *)
Definition stat (p : fspath) : M World Z :=
  let* _ := log (EvStat p) in
  let* fs := gets w_fs in
  match p with
  | DirPath dir =>
      match fs !! dir with
      | Some d => ret (Z.lor S_IFDIR (Z.land (d_mode d) 4095))
      | None => throw ENOENT
      end
  | FilePath dir name =>
      match lookup_file fs dir name with
      | Some f => ret (Z.lor S_IFREG (Z.land (f_mode f) 4095))
      | None => throw ENOENT
      end
  end.

(** [mkdir(dir, { recursive: true, mode })]: nothing happens to a
    directory that is there; a new one gets [mode] less the umask. *)
Definition mkdir (dir : jsstring) (mode : Z) : M World unit :=
  let* _ := log (EvMkdir dir) in
  let* fs := gets w_fs in
  let* mask := gets (fun w => umask (w_env w)) in
  match fs !! dir with
  | Some _ => ret tt
  | None =>
      modify (set_fs (<[dir := {| d_mode := Z.ldiff mode mask; d_files := ∅ |}]> fs))
  end.

Section WithRuntime.
Context `{NodeRuntime}.

(** The string of a path, for messages. *)
Definition path_string (p : fspath) : jsstring :=
  match p with
  | DirPath dir => dir
  | FilePath dir name => path_join dir name
  end.

(** What the bytes of a file are. *)
Definition file_bytes (d : FileData) : bytes :=
  match d with
  | Raw data => data
  | Sqlite main _ => sqlite_image main
  end.

(** [readFile(path)]. *)
Definition readFile (dir name : jsstring) : M World bytes :=
  let* _ := log (EvReadFile (FilePath dir name)) in
  let* fs := gets w_fs in
  match lookup_file fs dir name with
  | Some f => ret (file_bytes (f_data f))
  | None => throw ENOENT
  end.

End WithRuntime.

Definition put_file (dir name : jsstring) (f : File) (fs : gmap jsstring Dir)
  : gmap jsstring Dir :=
  match fs !! dir with
  | Some d => <[dir := {| d_mode := d_mode d; d_files := <[name := f]> (d_files d) |}]> fs
  | None => fs
  end.

(** [writeFile(path, data, { mode })]: [mode] only counts when the file
    is created. *)
Definition writeFile (dir name : jsstring) (data : bytes) (mode : Z) : M World unit :=
  let* _ := log (EvWriteFile (FilePath dir name)) in
  let* fs := gets w_fs in
  let* mask := gets (fun w => umask (w_env w)) in
  match fs !! dir with
  | None => throw ENOENT
  | Some d =>
      let m := match d_files d !! name with
               | Some f => f_mode f
               | None => Z.ldiff mode mask
               end in
      modify (set_fs (put_file dir name {| f_mode := m; f_data := Raw data |} fs))
  end.

(** [chmod(path, mode)] of a file. *)
Definition chmod (dir name : jsstring) (mode : Z) : M World unit :=
  let* _ := log (EvChmod (FilePath dir name)) in
  let* fs := gets w_fs in
  match lookup_file fs dir name with
  | None => throw ENOENT
  | Some f =>
      modify (set_fs (put_file dir name {| f_mode := mode; f_data := f_data f |} fs))
  end.

(** [readdir(dir, { withFileTypes: true })]: the names; every entry of a
    flat directory is a file. *)
Definition readdir (dir : jsstring) : M World (list jsstring) :=
  let* _ := log (EvReaddir dir) in
  let* fs := gets w_fs in
  match fs !! dir with
  | Some d => ret (map fst (map_to_list (d_files d)))
  | None => throw ENOENT
  end.

(** [unlink(path)]. *)
Definition unlink (dir name : jsstring) : M World unit :=
  let* _ := log (EvUnlink (FilePath dir name)) in
  let* fs := gets w_fs in
  match fs !! dir with
  | Some d =>
      match d_files d !! name with
      | Some _ =>
          modify (set_fs (<[dir := {| d_mode := d_mode d;
                                      d_files := base.delete name (d_files d) |}]> fs))
      | None => throw ENOENT
      end
  | None => throw ENOENT
  end.

(** [rm(dir, { force: true, recursive: true })]. *)
Definition rm (dir : jsstring) : M World unit :=
  let* _ := log (EvRm dir) in
  modify (fun w => set_fs (base.delete dir (w_fs w)) w).

(** ** node:crypto's [randomBytes] and the clock *)

Definition randomBytes (n : nat) : M World bytes :=
  fun w =>
    (Ok (map (fun i => w_entropy w (w_spent w + i)%nat mod 256) (seq 0 n)),
     spend n w).

(** [Math.floor(Date.now() / 1000)]. *)
Definition now_seconds : M World Z := gets (fun w => w_now w / 1000).

(** ** bun:sqlite

    A connection is the directory of its database file and whether it
    was closed. *)
Record Database := {
  db_dir : jsstring;
  db_closed : bool;
}.

Definition closed_database : error := Error (u "Cannot use a closed database").
Definition not_a_database : error := Error (u "file is not a database").

(** [new Database(path, { create: true })] and the pragmas and table
    definitions that [SecretStore.open] runs on it. *)
Definition Database_open (dir : jsstring) : M World Database :=
  let* _ := log (EvDbOpen dir) in
  let* fs := gets w_fs in
  let* mask := gets (fun w => umask (w_env w)) in
  match fs !! dir with
  | None => throw ENOENT
  | Some d =>
      match d_files d !! CONSTANTS.DB_NAME with
      | None =>
          let* _ := modify (set_fs (put_file dir CONSTANTS.DB_NAME
                      {| f_mode := Z.ldiff 420 mask; f_data := Sqlite ∅ ∅ |} fs)) in
          ret {| db_dir := dir; db_closed := false |}
      | Some f =>
          match f_data f with
          | Sqlite _ _ => ret {| db_dir := dir; db_closed := false |}
          | Raw [] =>
              let* _ := modify (set_fs (put_file dir CONSTANTS.DB_NAME
                          {| f_mode := f_mode f; f_data := Sqlite ∅ ∅ |} fs)) in
              ret {| db_dir := dir; db_closed := false |}
          | Raw (_ :: _) => throw not_a_database
          end
      end
  end.

(** The rows a connection sees. *)
Definition db_rows (db : Database) : M World (gmap jsstring Row) :=
  if db_closed db then throw closed_database
  else
    let* fs := gets w_fs in
    match lookup_file fs (db_dir db) CONSTANTS.DB_NAME with
    | Some {| f_data := Sqlite _ view |} => ret view
    | _ => throw not_a_database
    end.

(** [stmt.run(...)] of a statement that writes: the rows the connection
    sees change, the main file does not.  The result is [changes]. *)
Definition db_run (db : Database)
  (f : gmap jsstring Row -> gmap jsstring Row * Z) : M World Z :=
  if db_closed db then throw closed_database
  else
    let* _ := log (EvDbRun (db_dir db)) in
    let* fs := gets w_fs in
    match lookup_file fs (db_dir db) CONSTANTS.DB_NAME with
    | Some {| f_mode := m; f_data := Sqlite main view |} =>
        let* _ := modify (set_fs (put_file (db_dir db) CONSTANTS.DB_NAME
                    {| f_mode := m; f_data := Sqlite main (fst (f view)) |} fs)) in
        ret (snd (f view))
    | _ => throw not_a_database
    end.

(** [PRAGMA wal_checkpoint(TRUNCATE)]: the main file catches up with
    what the connection sees. *)
Definition db_checkpoint (db : Database) : M World unit :=
  if db_closed db then throw closed_database
  else
    let* _ := log (EvCheckpoint (db_dir db)) in
    let* fs := gets w_fs in
    match lookup_file fs (db_dir db) CONSTANTS.DB_NAME with
    | Some {| f_mode := m; f_data := Sqlite _ view |} =>
        modify (set_fs (put_file (db_dir db) CONSTANTS.DB_NAME
                  {| f_mode := m; f_data := Sqlite view view |} fs))
    | _ => throw not_a_database
    end.

(** [db.close()]; closing twice is allowed. *)
Definition db_close (db : Database) : M World Database :=
  let* _ := log (EvDbClose (db_dir db)) in
  ret {| db_dir := db_dir db; db_closed := true |}.

End Node.

(* ===================================================================== *)
(** * Platform: src/platform.ts *)
(* ===================================================================== *)

Module Platform.
Import Js Errors Types Node.

(** [EXPECTED_MODES]. *)
Module EXPECTED_MODES.
Definition directory : Z := 448.
Definition database : Z := 384.
Definition keyfile : Z := 256.
Definition meta : Z := 384.
End EXPECTED_MODES.

Section WithRuntime.
Context `{NodeRuntime}.

Definition resolveXdgPath (env : Env) : Res jsstring :=
  if win32 env then
    match APPDATA env with
    | Some appData =>
        if truthy appData then Ok (path_join appData (u "secrets-engine"))
        else Err (InitializationError (u "APPDATA environment variable is not set") None)
    | None =>
        Err (InitializationError (u "APPDATA environment variable is not set") None)
    end
  else
    let xdgConfig :=
      match XDG_CONFIG_HOME env with
      | Some x => x
      | None => path_join (homedir env) (u ".config")
      end in
    Ok (path_join xdgConfig (u "secrets-engine")).

Definition resolveStoragePath (env : Env) (options : option OpenOptions)
  : Res jsstring :=
  if truthy_opt (options ≫= path) then
    Ok (default [] (options ≫= path))
  else
    match options ≫= location with
    | Some xdg => resolveXdgPath env
    | _ =>
        if negb (win32 env) && truthy_opt (XDG_CONFIG_HOME env) then
          Ok (path_join (default [] (XDG_CONFIG_HOME env)) (u "secrets-engine"))
        else Ok (path_join (homedir env) CONSTANTS.DIR_NAME)
    end.

Definition formatOctal (mode : Z) : jsstring :=
  u "0o" ++ padStart0 3 (toString8 mode).

Definition verifyPermission (filePath : fspath) (expectedMode : Z) (label : jsstring)
  : M World unit :=
  let* win := gets (fun w => win32 (w_env w)) in
  if win then ret tt
  else
    let* mode := stat filePath in
    let actualMode := Z.land mode 511 in
    if negb (actualMode =? expectedMode) then
      throw (SecurityError (u "Insecure " ++ label ++ u " permissions")
               (formatOctal expectedMode) (formatOctal actualMode)
               (path_string filePath))
    else ret tt.

Definition ensureDirectory (dirPath : jsstring) : M World unit :=
  let* _ :=
    tryCatch (mkdir dirPath EXPECTED_MODES.directory)
      (fun error =>
         throw (InitializationError
                  (u "Cannot create storage directory at " ++ dquote ++ dirPath ++ dquote)
                  (Some error))) in
  let* win := gets (fun w => win32 (w_env w)) in
  if negb win
  then verifyPermission (DirPath dirPath) EXPECTED_MODES.directory (u "directory")
  else ret tt.

Definition getPrimaryMac (env : Env) : jsstring :=
  let usable entry :=
    negb (internal entry) && truthy (mac entry)
    && negb (bool_decide (mac entry = u "00:00:00:00:00:00")) in
  match filter (fun entry => usable entry = true)
               (concat (map (default []) (networkInterfaces env))) with
  | entry :: _ => mac entry
  | [] => u "no-mac-available"
  end.

Definition getMachineIdentity (env : Env) : jsstring :=
  hostname env ++ u ":" ++ getPrimaryMac env ++ u ":" ++ username env.

Definition isFileNotFoundError (error : error) : bool :=
  match error with
  | ErrnoException c => bool_decide (c = u "ENOENT")
  | _ => false
  end.

Definition createKeyfile (dirPath : jsstring) : M World bytes :=
  let* keyfileData := randomBytes CONSTANTS.KEYFILE_LENGTH in
  let* _ := writeFile dirPath CONSTANTS.KEYFILE_NAME keyfileData EXPECTED_MODES.keyfile in
  let* win := gets (fun w => win32 (w_env w)) in
  let* _ := when (negb win) (chmod dirPath CONSTANTS.KEYFILE_NAME EXPECTED_MODES.keyfile) in
  ret keyfileData.

Definition ensureKeyfile (dirPath : jsstring) : M World bytes :=
  tryCatch
    (let* win := gets (fun w => win32 (w_env w)) in
     let* _ := when (negb win)
                 (verifyPermission (FilePath dirPath CONSTANTS.KEYFILE_NAME)
                    EXPECTED_MODES.keyfile (u "keyfile")) in
     readFile dirPath CONSTANTS.KEYFILE_NAME)
    (fun error =>
       if isFileNotFoundError error then createKeyfile dirPath else throw error).

(** [readFile(metaPath, "utf-8")] wrapped as [readMetaFile] does. *)
Definition readMetaFile (dirPath : jsstring) : M World (option jsstring) :=
  tryCatch
    (let* data := readFile dirPath CONSTANTS.META_NAME in
     ret (Some (utf8_decode data)))
    (fun error => if isFileNotFoundError error then ret None else throw error).

Definition writeMetaFile (dirPath : jsstring) (content : jsstring) : M World unit :=
  let* _ := writeFile dirPath CONSTANTS.META_NAME (utf8_encode content) EXPECTED_MODES.meta in
  let* win := gets (fun w => win32 (w_env w)) in
  when (negb win) (chmod dirPath CONSTANTS.META_NAME EXPECTED_MODES.meta).

End WithRuntime.
End Platform.

(* ===================================================================== *)
(** * Crypto: src/crypto.ts *)
(* ===================================================================== *)

Module Crypto.
Import Js Errors Types Node.

Section WithRuntime.
Context `{NodeRuntime}.

Definition deriveMasterKey (machineId : jsstring) (keyfile salt : bytes) : bytes :=
  let password := utf8_encode machineId ++ keyfile in
  scryptSync password salt CONSTANTS.KEY_LENGTH
    CONSTANTS.SCRYPT_N CONSTANTS.SCRYPT_R CONSTANTS.SCRYPT_P
    (256 * CONSTANTS.SCRYPT_N * CONSTANTS.SCRYPT_R).

Record EncryptedPayload := {
  payload_iv : bytes;
  payload_ciphertext : bytes;
}.

Definition encrypt (masterKey : bytes) (plaintext : jsstring) : M World EncryptedPayload :=
  let* iv := randomBytes CONSTANTS.IV_LENGTH in
  let sealed := aes256gcm_seal masterKey iv (utf8_encode plaintext) in
  let encrypted := fst sealed in
  let authTag := snd sealed in
  ret {| payload_iv := iv; payload_ciphertext := encrypted ++ authTag |}.

Definition decrypt (masterKey iv ciphertext : bytes) (keyHash : option jsstring)
  : Res jsstring :=
  if (length ciphertext <? CONSTANTS.AUTH_TAG_LENGTH)%nat then
    Err (DecryptionError (u "Ciphertext too short to contain auth tag") keyHash)
  else
    let authTag := drop (length ciphertext - CONSTANTS.AUTH_TAG_LENGTH) ciphertext in
    let encrypted := take (length ciphertext - CONSTANTS.AUTH_TAG_LENGTH) ciphertext in
    match aes256gcm_open masterKey iv encrypted authTag with
    | inr plain => Ok (utf8_decode plain)
    | inl message => Err (DecryptionError message keyHash)
    end.

(** [hmac(masterKey, data)] for a string: [update] encodes it as UTF-8. *)
Definition hmac (masterKey : bytes) (data : jsstring) : jsstring :=
  hex_encode (hmac_sha256 masterKey (utf8_encode data)).

(** [hmac(masterKey, data)] for a Buffer. *)
Definition hmac_buffer (masterKey : bytes) (data : bytes) : jsstring :=
  hex_encode (hmac_sha256 masterKey data).

Definition sha256 (data : bytes) : bytes := sha256_digest data.

Definition generateSalt : M World bytes := randomBytes CONSTANTS.SALT_LENGTH.

End WithRuntime.
End Crypto.

(* ===================================================================== *)
(** * SecretStore: src/store.ts *)
(* ===================================================================== *)

Module SecretStore.
Import Js Errors Types Node.

Section WithRuntime.
Context `{NodeRuntime}.

(** The object only holds its connection. *)
Definition SecretStore := Database.

Definition open (dirPath : jsstring) : M World SecretStore :=
  tryCatch (Database_open dirPath)
    (fun error =>
       throw (InitializationError
                (u "Cannot open database at " ++ dquote
                   ++ path_join dirPath CONSTANTS.DB_NAME ++ dquote)
                (Some error))).

(** The entry that [upsert] takes: [Pick<EncryptedEntry, ...>]. *)
Record UpsertEntry := {
  up_key_hash : jsstring;
  up_key_enc : bytes;
  up_iv : bytes;
  up_cipher : bytes;
}.

(** [INSERT ... ON CONFLICT(key_hash) DO UPDATE SET ...]: a row that is
    there keeps its [created]. *)
Definition upsert_rows (entry : UpsertEntry) (now : Z) (rows : gmap jsstring Row)
  : gmap jsstring Row :=
  let created_at :=
    match rows !! up_key_hash entry with
    | Some old => created old
    | None => now
    end in
  <[up_key_hash entry :=
      {| key_enc := up_key_enc entry; iv := up_iv entry; cipher := up_cipher entry;
         created := created_at; updated := now |}]> rows.

Definition upsert (this : SecretStore) (entry : UpsertEntry) : M World unit :=
  let* now := now_seconds in
  let* _ := db_run this (fun rows => (upsert_rows entry now rows, 1)) in
  ret tt.

Definition findByHash (this : SecretStore) (keyHash : jsstring)
  : M World (option EncryptedEntry) :=
  let* rows := db_rows this in
  ret ((fun r => {| key_hash := keyHash; columns := r |}) <$> rows !! keyHash).

Definition findAll (this : SecretStore) : M World (list EncryptedEntry) :=
  let* rows := db_rows this in
  ret (map (fun '(h, r) => {| key_hash := h; columns := r |}) (map_to_list rows)).

Definition deleteByHash (this : SecretStore) (keyHash : jsstring) : M World bool :=
  let* changes :=
    db_run this (fun rows =>
      (base.delete keyHash rows,
       match rows !! keyHash with Some _ => 1 | None => 0 end)) in
  ret (0 <? changes).

Definition deleteAll (this : SecretStore) : M World unit :=
  let* _ := db_run this (fun rows => (∅, Z.of_nat (base.size rows))) in
  ret tt.

Definition count (this : SecretStore) : M World Z :=
  let* rows := db_rows this in
  ret (Z.of_nat (base.size rows)).

Definition readRawBytes (this : SecretStore) : M World bytes :=
  readFile (db_dir this) CONSTANTS.DB_NAME.

(** [filePath]: the directory and the name that [db.filename] joins. *)
Definition filePath (this : SecretStore) : jsstring * jsstring :=
  (db_dir this, CONSTANTS.DB_NAME).

Definition checkpoint (this : SecretStore) : M World unit := db_checkpoint this.

Definition close (this : SecretStore) : M World SecretStore := db_close this.

End WithRuntime.
End SecretStore.

(* ===================================================================== *)
(** * Integrity: src/integrity.ts *)
(* ===================================================================== *)

Module Integrity.
Import Js Errors Types Node Platform Crypto.

Section WithRuntime.
Context `{NodeRuntime}.

Definition computeIntegrityHmac (masterKey : bytes) (dbFilePath : jsstring * jsstring)
  (checkpointFn : option (M World unit)) : M World jsstring :=
  let* _ :=
    match checkpointFn with
    | Some fn =>
        tryCatch fn
          (fun err =>
             throw (IntegrityError (u "Integrity checkpoint failed: " ++ message err)))
    | None => ret tt
    end in
  let* dbBytes := readFile (fst dbFilePath) (snd dbFilePath) in
  let dbHash := sha256 dbBytes in
  ret (hmac_buffer masterKey dbHash).

(** [`${meta.version}`]. *)
Definition show_field (o : option jsstring) : jsstring :=
  match o with Some s => s | None => u "undefined" end.

Definition verifyIntegrity (masterKey : bytes) (dbFilePath : jsstring * jsstring)
  (dirPath : jsstring) (checkpointFn : option (M World unit)) : M World MetaJson :=
  let* metaRaw := readMetaFile dirPath in
  if negb (truthy_opt metaRaw) then
    throw (IntegrityError (u "Metadata file (meta.json) is missing"))
  else
    match JSON_parse (default [] metaRaw) with
    | None => throw (IntegrityError (u "Metadata file (meta.json) is corrupted"))
    | Some meta =>
        if negb (bool_decide (json_version meta = Some CONSTANTS.STORE_VERSION)) then
          throw (IntegrityError
                   (u "Unsupported store version: expected " ++ dquote
                      ++ CONSTANTS.STORE_VERSION ++ dquote ++ u ", got " ++ dquote
                      ++ show_field (json_version meta) ++ dquote))
        else
          let* computedHmac := computeIntegrityHmac masterKey dbFilePath checkpointFn in
          if negb (bool_decide (Some computedHmac = json_integrity meta)) then
            throw (IntegrityError integrity_default_message)
          else ret meta
    end.

Definition updateIntegrity (masterKey : bytes) (dbFilePath : jsstring * jsstring)
  (dirPath : jsstring) (salt : jsstring) (checkpointFn : option (M World unit))
  : M World unit :=
  let* integrity := computeIntegrityHmac masterKey dbFilePath checkpointFn in
  let meta := {| version := CONSTANTS.STORE_VERSION; Types.salt := salt;
                 Types.integrity := integrity |} in
  writeMetaFile dirPath (JSON_stringify meta).

End WithRuntime.
End Integrity.

(* ===================================================================== *)
(** * SecretsEngine: src/engine.ts *)
(* ===================================================================== *)

Module SecretsEngine.
Import Js Errors Types Node Platform Crypto Integrity.

(** The fields of an instance. *)
Record Engine := {
  masterKey : bytes;
  store : SecretStore.SecretStore;
  dirPath : jsstring;
  salt : jsstring;
  keyIndex : gmap jsstring jsstring;
  closed : bool;
}.

Definition set_keyIndex (idx : gmap jsstring jsstring) (this : Engine) : Engine :=
  {| masterKey := masterKey this; store := store this; dirPath := dirPath this;
     salt := salt this; keyIndex := idx; closed := closed this |}.

Definition set_store (st : SecretStore.SecretStore) (this : Engine) : Engine :=
  {| masterKey := masterKey this; store := st; dirPath := dirPath this;
     salt := salt this; keyIndex := keyIndex this; closed := closed this |}.

Definition set_closed (b : bool) (this : Engine) : Engine :=
  {| masterKey := masterKey this; store := store this; dirPath := dirPath this;
     salt := salt this; keyIndex := keyIndex this; closed := b |}.

(** A method runs on its instance and on the world. *)
Definition Sys : Type := Engine * World.

Definition liftW {A} (c : M World A) : M Sys A :=
  fun s => let (r, w') := c (snd s) in (r, (fst s, w')).

Definition this_ {A} (f : Engine -> A) : M Sys A := gets (fun s => f (fst s)).

Definition update_this (f : Engine -> Engine) : M Sys unit :=
  modify (fun s => (f (fst s), snd s)).

(** A method called on a given instance, from a function that has none:
    the value and what the instance has become. *)
Definition call {A} (this : Engine) (c : M Sys A) : M World (A * Engine) :=
  fun w =>
    match c (this, w) with
    | (Ok a, (this', w')) => (Ok (a, this'), w')
    | (Err e, (_, w')) => (Err e, w')
    end.

Definition closed_message : jsstring := u "SecretsEngine instance is closed".

(** [setTimeout] behind a promise: time passes and nothing else. *)
Definition sleep {S} (ms : Z) : M S unit := ret tt.

Section WithRuntime.
Context `{NodeRuntime}.

Definition ensureOpen : M Sys unit :=
  let* c := this_ closed in
  if c then throw (Error closed_message) else ret tt.

Definition hashKey (key : jsstring) : M Sys jsstring :=
  let* k := this_ masterKey in
  ret (hmac k key).

(** One turn of the loop of [buildKeyIndex]. *)
Definition indexEntry (entry : EncryptedEntry) : M Sys unit :=
  tryCatch
    (let keyEncBuf := key_enc (columns entry) in
     let keyIv := take 12 keyEncBuf in
     let keyCipher := drop 12 keyEncBuf in
     let* k := this_ masterKey in
     let* keyName := liftRes (decrypt k keyIv keyCipher (Some (key_hash entry))) in
     update_this (fun this => set_keyIndex (<[key_hash entry := keyName]> (keyIndex this)) this))
    (fun error =>
       match error with
       | DecryptionError _ _ =>
           liftW (log (EvWarn (u "[secrets-engine] Skipping corrupted entry: "
                                 ++ slice0 16 (key_hash entry) ++ ellipsis)))
       | _ => throw error
       end).

Fixpoint indexEntries (entries : list EncryptedEntry) : M Sys unit :=
  match entries with
  | [] => ret tt
  | entry :: rest =>
      let* _ := indexEntry entry in
      indexEntries rest
  end.

Definition buildKeyIndex : M Sys unit :=
  let* st := this_ store in
  let* entries := liftW (SecretStore.findAll st) in
  indexEntries entries.

Definition resolveSalt (dirPath : jsstring) : M World (jsstring * bool) :=
  let fresh :=
    let* s := generateSalt in
    ret (hex_encode s, true) in
  let* metaRaw := readMetaFile dirPath in
  if truthy_opt metaRaw then
    match JSON_parse (default [] metaRaw) with
    | Some meta =>
        if truthy_opt (json_salt meta)
        then ret (default [] (json_salt meta), false)
        else fresh
    | None =>
        (* Corrupted meta.json: treat as new store *)
        fresh
    end
  else fresh.

(** [SecretsEngine.open(options)]. *)
Definition open (options : option OpenOptions) : M World Engine :=
  let* env := gets w_env in
  let* dirPath := liftRes (resolveStoragePath env options) in
  let* _ := ensureDirectory dirPath in
  let* keyfile := ensureKeyfile dirPath in
  let* (salt, isNewStore) := resolveSalt dirPath in
  let machineId := getMachineIdentity env in
  let masterKey := deriveMasterKey machineId keyfile (hex_decode salt) in
  let* store := SecretStore.open dirPath in
  tryCatch
    (let* _ :=
       if negb isNewStore then
         let* _ := verifyIntegrity masterKey (SecretStore.filePath store) dirPath
                     (Some (SecretStore.checkpoint store)) in
         ret tt
       else ret tt in
     let engine :=
       {| masterKey := masterKey; store := store; dirPath := dirPath; salt := salt;
          keyIndex := ∅; closed := false |} in
     let* (_, engine) := call engine buildKeyIndex in
     let* _ :=
       when isNewStore
         (updateIntegrity masterKey (SecretStore.filePath store) dirPath salt
            (Some (SecretStore.checkpoint store))) in
     ret engine)
    (fun error =>
       let* _ := SecretStore.close store in
       throw error).

Definition get (key : jsstring) : M Sys (option jsstring) :=
  let* _ := ensureOpen in
  let* keyHash := hashKey key in
  let* st := this_ store in
  let* entry := liftW (SecretStore.findByHash st keyHash) in
  match entry with
  | None => ret None
  | Some entry =>
      let* k := this_ masterKey in
      let* value := liftRes (decrypt k (iv (columns entry)) (cipher (columns entry))
                               (Some keyHash)) in
      ret (Some value)
  end.

Definition getOrThrow (key : jsstring) : M Sys jsstring :=
  let* value := get key in
  match value with
  | None => throw (KeyNotFoundError key)
  | Some value => ret value
  end.

Definition set (key value : jsstring) : M Sys unit :=
  let* _ := ensureOpen in
  let* keyHash := hashKey key in
  let* k := this_ masterKey in
  let* encryptedKey := liftW (encrypt k key) in
  let* encryptedValue := liftW (encrypt k value) in
  let keyEncPacked := payload_iv encryptedKey ++ payload_ciphertext encryptedKey in
  let* st := this_ store in
  let* _ := liftW (SecretStore.upsert st
              {| SecretStore.up_key_hash := keyHash;
                 SecretStore.up_key_enc := keyEncPacked;
                 SecretStore.up_iv := payload_iv encryptedValue;
                 SecretStore.up_cipher := payload_ciphertext encryptedValue |}) in
  let* _ := update_this (fun this => set_keyIndex (<[keyHash := key]> (keyIndex this)) this) in
  let* dir := this_ dirPath in
  let* s := this_ salt in
  liftW (updateIntegrity k (SecretStore.filePath st) dir s None).

Definition has (key : jsstring) : M Sys bool :=
  let* _ := ensureOpen in
  let* keyHash := hashKey key in
  let* idx := this_ keyIndex in
  ret (bool_decide (is_Some (idx !! keyHash))).

Definition delete (key : jsstring) : M Sys bool :=
  let* _ := ensureOpen in
  let* keyHash := hashKey key in
  let* st := this_ store in
  let* deleted := liftW (SecretStore.deleteByHash st keyHash) in
  let* _ :=
    if deleted then
      let* _ := update_this (fun this => set_keyIndex (base.delete keyHash (keyIndex this)) this) in
      let* k := this_ masterKey in
      let* dir := this_ dirPath in
      let* s := this_ salt in
      liftW (updateIntegrity k (SecretStore.filePath st) dir s None)
    else ret tt in
  ret deleted.

(** [array.sort()] without a comparator. *)
Definition sort (l : list jsstring) : list jsstring := merge_sort u16_le l.

(** What [matchGlob] lets out when [new RegExp] throws. *)
Definition regexp_syntax_error : error := Error (u "Invalid regular expression").

Definition keys (pattern : option jsstring) : M Sys (list jsstring) :=
  let* _ := ensureOpen in
  let* idx := this_ keyIndex in
  let allKeys := map snd (map_to_list idx) in
  if negb (truthy_opt pattern) then ret (sort allKeys)
  else
    match Glob.filterKeys allKeys (default [] pattern) with
    | Some filtered => ret (sort filtered)
    | None => throw regexp_syntax_error
    end.

Definition isRetryable (error : error) : bool :=
  match error with
  | ErrnoException c => bool_decide (c = u "EBUSY") || bool_decide (c = u "EPERM")
  | _ => false
  end.

Fixpoint unlinkAll (dirPath : jsstring) (entries : list jsstring) : M World unit :=
  match entries with
  | [] => ret tt
  | name :: rest =>
      let* _ := unlink dirPath name in
      unlinkAll dirPath rest
  end.

(** The loop of [removeDirectoryContents]: [left] turns remain and
    [attempt] is the loop counter. *)
Fixpoint removeAttempts (left attempt : nat) (dirPath : jsstring) : M World unit :=
  match left with
  | O => ret tt
  | S left' =>
      tryCatch
        (let* entries := readdir dirPath in
         let* _ := unlinkAll dirPath entries in
         rm dirPath)
        (fun error =>
           if negb (isRetryable error) || (attempt =? 4)%nat then throw error
           else
             let* _ := sleep (200 * (Z.of_nat attempt + 1)) in
             removeAttempts left' (S attempt) dirPath)
  end.

Definition removeDirectoryContents (dirPath : jsstring) : M World unit :=
  removeAttempts 5 0 dirPath.

Definition destroy : M Sys unit :=
  let* _ := ensureOpen in
  let* st := this_ store in
  let* _ := liftW (SecretStore.checkpoint st) in
  let* st' := liftW (SecretStore.close st) in
  let* _ := update_this (set_store st') in
  let* _ := update_this (set_keyIndex ∅) in
  let* _ := update_this (set_closed true) in
  let* _ := sleep 150 in
  let* dir := this_ dirPath in
  liftW (removeDirectoryContents dir).

Definition close : M Sys unit :=
  let* c := this_ closed in
  if negb c then
    let* st := this_ store in
    let* _ := liftW (SecretStore.checkpoint st) in
    let* k := this_ masterKey in
    let* dir := this_ dirPath in
    let* s := this_ salt in
    let* _ := liftW (updateIntegrity k (SecretStore.filePath st) dir s None) in
    let* st' := liftW (SecretStore.close st) in
    let* _ := update_this (set_store st') in
    let* _ := update_this (set_keyIndex ∅) in
    update_this (set_closed true)
  else ret tt.

Definition size : M Sys nat :=
  let* _ := ensureOpen in
  let* idx := this_ keyIndex in
  ret (base.size idx).

Definition storagePath : M Sys jsstring := this_ dirPath.

End WithRuntime.
End SecretsEngine.

(* ===================================================================== *)
(** * A small runtime

    One instance of [NodeRuntime], simple enough to run inside Rocq: it
    shows that the laws of the class can be met and gives the examples
    something to compute with.  Its ciphers and hashes are checksums,
    not cryptography. *)
(* ===================================================================== *)

Module SmallRuntime.
Import Js Errors Types Node.

Definition sum_bytes (bs : bytes) : Z := foldr Z.add 0 bs.

(** A stream of [n] bytes that depends on a seed. *)
Definition spread (seed : Z) (n : nat) : bytes :=
  map (fun i => (seed * (Z.of_nat i + 1) + Z.of_nat i) mod 256) (seq 0 n).

Definition mask (key iv : bytes) : Z := (sum_bytes key + sum_bytes iv) mod 256.

Definition seal_bytes (key iv plaintext : bytes) : bytes :=
  map (fun b => Z.lxor b (mask key iv)) plaintext.

Definition tag_of (key iv encrypted : bytes) : bytes :=
  spread (sum_bytes key + 3 * sum_bytes iv + 7 * sum_bytes encrypted
          + Z.of_nat (length encrypted)) 16.

Definition seal (key iv plaintext : bytes) : bytes * bytes :=
  (seal_bytes key iv plaintext, tag_of key iv (seal_bytes key iv plaintext)).

Definition unable_to_authenticate : jsstring :=
  u "Unsupported state or unable to authenticate data".

Definition unseal (key iv encrypted authTag : bytes) : jsstring + bytes :=
  if bool_decide (authTag = tag_of key iv encrypted)
  then inr (seal_bytes key iv encrypted)
  else inl unable_to_authenticate.

Definition hmac_sha256 (key data : bytes) : bytes :=
  spread (sum_bytes key + 31 * sum_bytes data + Z.of_nat (length data)) 32.

Definition sha256_digest (data : bytes) : bytes :=
  spread (17 * sum_bytes data + Z.of_nat (length data)) 32.

Definition scryptSync (password salt : bytes) (keylen : nat) (N r p maxmem : Z) : bytes :=
  spread (sum_bytes password + 5 * sum_bytes salt + N + r + p) keylen.

Definition newline : jsstring := [10].

(** [JSON.stringify(meta, null, 2)] for strings that need no escape. *)
Definition JSON_stringify (meta : StoreMeta) : jsstring :=
  u "{" ++ newline
    ++ u "  " ++ dquote ++ u "version" ++ dquote ++ u ": " ++ dquote ++ version meta ++ dquote
    ++ u "," ++ newline
    ++ u "  " ++ dquote ++ u "salt" ++ dquote ++ u ": " ++ dquote ++ salt meta ++ dquote
    ++ u "," ++ newline
    ++ u "  " ++ dquote ++ u "integrity" ++ dquote ++ u ": " ++ dquote ++ integrity meta ++ dquote
    ++ newline ++ u "}".

Fixpoint strip_prefix (prefix s : jsstring) : option jsstring :=
  match prefix, s with
  | [], _ => Some s
  | p :: prefix', c :: s' => if p =? c then strip_prefix prefix' s' else None
  | _ :: _, [] => None
  end.

(** The units before the next double quote, and what follows it. *)
Fixpoint until_quote (s : jsstring) : option (jsstring * jsstring) :=
  match s with
  | [] => None
  | c :: s' =>
      if c =? 34 then Some ([], s')
      else
        match until_quote s' with
        | Some (word, rest) => Some (c :: word, rest)
        | None => None
        end
  end.

(** A parser for the documents that [JSON_stringify] writes; every other
    text is refused. *)
Definition JSON_parse (text : jsstring) : option MetaJson :=
  s ← strip_prefix (u "{" ++ newline ++ u "  " ++ dquote ++ u "version" ++ dquote
                      ++ u ": " ++ dquote) text;
  '(v, s) ← until_quote s;
  s ← strip_prefix (u "," ++ newline ++ u "  " ++ dquote ++ u "salt" ++ dquote
                      ++ u ": " ++ dquote) s;
  '(sl, s) ← until_quote s;
  s ← strip_prefix (u "," ++ newline ++ u "  " ++ dquote ++ u "integrity" ++ dquote
                      ++ u ": " ++ dquote) s;
  '(i, s) ← until_quote s;
  match strip_prefix (newline ++ u "}") s with
  | Some [] =>
      Some {| json_version := Some v; json_salt := Some sl; json_integrity := Some i |}
  | _ => None
  end.

Definition path_join (a b : jsstring) : jsstring := a ++ u "/" ++ b.

Definition sqlite_image (rows : gmap jsstring Row) : bytes :=
  u "SQLite format 3" ++
  flat_map (fun '(h, r) => utf8_encode h ++ key_enc r ++ iv r ++ cipher r
                           ++ [created r mod 256; updated r mod 256])
           (map_to_list rows).

Lemma length_spread seed n : length (spread seed n) = n.
Proof. unfold spread. by rewrite length_map, length_seq. Qed.

Lemma seal_bytes_involutive key iv bs :
  seal_bytes key iv (seal_bytes key iv bs) = bs.
Proof.
  unfold seal_bytes. induction bs as [|b bs IH]; [done|].
  cbn [map]. rewrite IH. f_equal.
  by rewrite Z.lxor_assoc, Z.lxor_nilpotent, Z.lxor_0_r.
Qed.

Definition runtime : NodeRuntime.
Proof.
  refine {| aes256gcm_seal := seal;
            aes256gcm_open := unseal;
            Node.hmac_sha256 := hmac_sha256;
            Node.sha256_digest := sha256_digest;
            Node.scryptSync := scryptSync;
            Node.JSON_parse := JSON_parse;
            Node.JSON_stringify := JSON_stringify;
            Node.path_join := path_join;
            Node.sqlite_image := sqlite_image |}.
  - intros. apply length_spread.
  - intros key iv plaintext _. unfold unseal, seal. cbn [fst snd].
    rewrite bool_decide_eq_true_2 by reflexivity.
    by rewrite seal_bytes_involutive.
  - intros. apply length_spread.
Defined.

End SmallRuntime.

(* ===================================================================== *)
(** * Properties *)
(* ===================================================================== *)

(** ** Tactics *)

Ltac zlia := Z.div_mod_to_equations; lia.

(** Boolean tests over [Z] in the hypotheses, as propositions. *)
Ltac boolp :=
  repeat match goal with
  | H : (_ && _)%bool = true |- _ => apply andb_true_iff in H; destruct H
  | H : (_ && _)%bool = false |- _ => apply andb_false_iff in H
  | H : (_ || _)%bool = true |- _ => apply orb_true_iff in H
  | H : (_ || _)%bool = false |- _ => apply orb_false_iff in H; destruct H
  | H : negb _ = true |- _ => apply negb_true_iff in H
  | H : negb _ = false |- _ => apply negb_false_iff in H
  | H : (_ <=? _) = true |- _ => apply Z.leb_le in H
  | H : (_ <=? _) = false |- _ => apply Z.leb_gt in H
  | H : (_ <? _) = true |- _ => apply Z.ltb_lt in H
  | H : (_ <? _) = false |- _ => apply Z.ltb_ge in H
  | H : (_ =? _) = true |- _ => apply Z.eqb_eq in H
  | H : (_ =? _) = false |- _ => apply Z.eqb_neq in H
  end.

(** A boolean test over [Z] in the goal, settled by arithmetic. *)
Ltac bsolve :=
  repeat rewrite ?andb_true_iff, ?andb_false_iff, ?orb_true_iff, ?orb_false_iff,
    ?negb_true_iff, ?negb_false_iff,
    ?Z.leb_le, ?Z.leb_gt, ?Z.ltb_lt, ?Z.ltb_ge, ?Z.eqb_eq, ?Z.eqb_neq;
  zlia.

(** The conditional at the head of the left-hand side, decided. *)
Ltac head_if :=
  match goal with
  | |- (if ?c then _ else _) = _ =>
      first [ replace c with true by (symmetry; bsolve)
            | replace c with false by (symmetry; bsolve) ];
      cbv iota
  end.

(** ** UTF-8: decoding what was encoded *)

Section Utf8.
Import Js.

Ltac decode_head :=
  match goal with
  | |- utf8_decode (?b :: ?r) = _ =>
      let r0 := fresh "r0" in let E := fresh "E" in
      remember r as r0 eqn:E; cbn [utf8_decode]; repeat head_if;
      subst r0; cbv iota; unfold is_cont; repeat head_if
  end.

Lemma utf8_decode_1 b0 r :
  0 <= b0 < 128 -> utf8_decode (b0 :: r) = b0 :: utf8_decode r.
Proof. intros. decode_head. reflexivity. Qed.

Lemma utf8_decode_2 b0 b1 r :
  194 <= b0 <= 223 -> 128 <= b1 <= 191 ->
  utf8_decode (b0 :: b1 :: r) = ((b0 - 192) * 64 + (b1 - 128)) :: utf8_decode r.
Proof. intros. decode_head. reflexivity. Qed.

Lemma utf8_decode_3 b0 b1 b2 r :
  224 <= b0 <= 239 -> 128 <= b1 <= 191 ->
  (b0 = 224 -> 160 <= b1) -> (b0 = 237 -> b1 <= 159) -> 128 <= b2 <= 191 ->
  utf8_decode (b0 :: b1 :: b2 :: r)
  = ((b0 - 224) * 4096 + (b1 - 128) * 64 + (b2 - 128)) :: utf8_decode r.
Proof.
  intros. destruct (Z.eqb_spec b0 224) as [e|e], (Z.eqb_spec b0 237) as [e'|e'];
    try lia; decode_head; rewrite ?(proj2 (Z.eqb_eq _ _) e),
      ?(proj2 (Z.eqb_neq _ _) e), ?(proj2 (Z.eqb_eq _ _) e'),
      ?(proj2 (Z.eqb_neq _ _) e'); repeat head_if; reflexivity.
Qed.

Lemma utf8_decode_4 b0 b1 b2 b3 r :
  240 <= b0 <= 244 -> 128 <= b1 <= 191 ->
  (b0 = 240 -> 144 <= b1) -> (b0 = 244 -> b1 <= 143) ->
  128 <= b2 <= 191 -> 128 <= b3 <= 191 ->
  utf8_decode (b0 :: b1 :: b2 :: b3 :: r)
  = utf16_of_cp ((b0 - 240) * 262144 + (b1 - 128) * 4096
                 + (b2 - 128) * 64 + (b3 - 128)) ++ utf8_decode r.
Proof.
  intros. destruct (Z.eqb_spec b0 240) as [e|e], (Z.eqb_spec b0 244) as [e'|e'];
    try lia; decode_head; rewrite ?(proj2 (Z.eqb_eq _ _) e),
      ?(proj2 (Z.eqb_neq _ _) e), ?(proj2 (Z.eqb_eq _ _) e'),
      ?(proj2 (Z.eqb_neq _ _) e'); repeat head_if; reflexivity.
Qed.

(** A scalar value survives the trip through its UTF-8 bytes. *)
Lemma utf8_decode_cp (cp : Z) (r : bytes) :
  0 <= cp <= 1114111 -> ~ (55296 <= cp <= 57343) ->
  utf8_decode (utf8_of_cp cp ++ r) = utf16_of_cp cp ++ utf8_decode r.
Proof.
  intros Hr Hs. unfold utf8_of_cp.
  destruct (Z.ltb_spec cp 128); [|destruct (Z.ltb_spec cp 2048);
    [|destruct (Z.ltb_spec cp 65536)]]; cbn [app].
  - rewrite utf8_decode_1 by lia. unfold utf16_of_cp.
    replace (cp <? 65536) with true by (symmetry; bsolve). reflexivity.
  - rewrite utf8_decode_2 by zlia. unfold utf16_of_cp.
    replace (cp <? 65536) with true by (symmetry; bsolve).
    cbn [app]. f_equal. zlia.
  - rewrite utf8_decode_3 by zlia. unfold utf16_of_cp.
    replace (cp <? 65536) with true by (symmetry; bsolve).
    cbn [app]. f_equal. zlia.
  - rewrite utf8_decode_4 by zlia. do 2 f_equal. zlia.
Qed.

Lemma utf8_roundtrip_upto (n : nat) : forall s : jsstring,
  (length s <= n)%nat -> well_formed s = true -> utf8_decode (utf8_encode s) = s.
Proof.
  induction n as [|n IH]; intros [|c s] Hlen Hwf; try reflexivity;
    cbn [length] in Hlen; try lia.
  cbn [well_formed utf8_encode] in *.
  destruct (is_high c) eqn:Hc.
  - destruct s as [|d s]; [discriminate|].
    apply andb_true_iff in Hwf as [Hd Hwf]. rewrite Hd.
    unfold is_high, is_low in *. boolp.
    rewrite utf8_decode_cp by (unfold pair_cp; lia).
    rewrite IH by (cbn [length] in Hlen; lia || assumption).
    unfold utf16_of_cp, pair_cp.
    replace (65536 + (c - 55296) * 1024 + (d - 56320) <? 65536) with false
      by (symmetry; bsolve).
    cbn [app]. f_equal; [zlia | f_equal; zlia].
  - apply andb_true_iff in Hwf as [Hwf Hs]. apply andb_true_iff in Hwf as [Hu Hl].
    apply negb_true_iff in Hl. rewrite Hl.
    unfold is_high, is_low, is_unit in *. boolp.
    rewrite utf8_decode_cp by lia.
    rewrite IH by (lia || assumption).
    unfold utf16_of_cp. replace (c <? 65536) with true by (symmetry; bsolve).
    reflexivity.
Qed.

(** [Buffer.from(s, "utf-8").toString("utf-8")] is [s] for every well
    formed string. *)
Lemma utf8_roundtrip (s : jsstring) :
  well_formed s = true -> utf8_decode (utf8_encode s) = s.
Proof. apply (utf8_roundtrip_upto (length s)). lia. Qed.

End Utf8.

(** ** Running a call *)

Section MonadFacts.
Import Js Errors Types Node.

Lemma bind_Ok {S A B} (c : M S A) (k : A -> M S B) (s s' : S) (b : B) :
  bind c k s = (Ok b, s') ->
  exists a s1, c s = (Ok a, s1) /\ k a s1 = (Ok b, s').
Proof.
  unfold bind. destruct (c s) as [[a|e] s1]; [eauto | discriminate].
Qed.

Lemma bind_eq_Ok {S A B} (c : M S A) (k : A -> M S B) (s s1 : S) (a : A) :
  c s = (Ok a, s1) -> bind c k s = k a s1.
Proof. intros E. unfold bind. by rewrite E. Qed.

Lemma bind_eq_Err {S A B} (c : M S A) (k : A -> M S B) (s s1 : S) (e : error) :
  c s = (Err e, s1) -> bind c k s = (Err e, s1).
Proof. intros E. unfold bind. by rewrite E. Qed.

Lemma lookup_file_put_file_eq fs dir name f :
  is_Some (fs !! dir) -> lookup_file (put_file dir name f fs) dir name = Some f.
Proof.
  intros [d Hd]. unfold lookup_file, put_file. rewrite Hd.
  rewrite lookup_insert_eq. cbn. by rewrite lookup_insert_eq.
Qed.

Lemma lookup_file_put_file_ne fs dir name name' f :
  name <> name' ->
  lookup_file (put_file dir name f fs) dir name' = lookup_file fs dir name'.
Proof.
  intros Hne. unfold lookup_file, put_file.
  destruct (fs !! dir) as [d|] eqn:Hd; [|by rewrite Hd].
  rewrite lookup_insert_eq. cbn. by rewrite lookup_insert_ne.
Qed.

Lemma lookup_file_Some_dir fs dir name f :
  lookup_file fs dir name = Some f -> is_Some (fs !! dir).
Proof. unfold lookup_file. destruct (fs !! dir); [eauto | discriminate]. Qed.

(** The permission bits that [stat] reports are the ones that were stored. *)
Lemma permission_bits (ifmt mode : Z) :
  Z.land ifmt 511 = 0 ->
  Z.land (Z.lor ifmt (Z.land mode 4095)) 511 = Z.land mode 511.
Proof.
  intros Hfmt. rewrite Z.land_lor_distr_l, Hfmt, Z.lor_0_l.
  rewrite <- Z.land_assoc. reflexivity.
Qed.

End MonadFacts.

(** ** Platform *)

Section PlatformProps.
Import Js Errors Types Node Platform.
Context `{NodeRuntime}.

(** The mode a path was given, if the path is there. *)
Definition stored_mode (w : World) (p : fspath) : option Z :=
  match p with
  | DirPath dir => d_mode <$> w_fs w !! dir
  | FilePath dir name => f_mode <$> lookup_file (w_fs w) dir name
  end.

Lemma stat_stored (w : World) (p : fspath) (mode : Z) :
  stored_mode w p = Some mode ->
  exists st, stat p w = (Ok st, add_log (EvStat p) w) /\ Z.land st 511 = Z.land mode 511.
Proof.
  intros Hm. unfold stat, bind, log, modify, gets. cbn.
  destruct p as [dir|dir name]; cbn in Hm |- *.
  - destruct (w_fs w !! dir) as [d|]; [|discriminate]. injection Hm as <-.
    eexists. split; [reflexivity|]. by apply permission_bits.
  - destruct (lookup_file (w_fs w) dir name) as [f|]; [|discriminate].
    injection Hm as <-.
    eexists. split; [reflexivity|]. by apply permission_bits.
Qed.

Lemma verifyPermission_run (w : World) (p : fspath) (expected : Z)
  (label : jsstring) (mode : Z) :
  win32 (w_env w) = false ->
  stored_mode w p = Some mode ->
  verifyPermission p expected label w =
    (if Z.land mode 511 =? expected then Ok tt
     else Err (SecurityError (u "Insecure " ++ label ++ u " permissions")
                 (formatOctal expected) (formatOctal (Z.land mode 511))
                 (path_string p)),
     add_log (EvStat p) w).
Proof.
  intros Hposix Hm. destruct (stat_stored w p mode Hm) as (st & Hst & Hbits).
  unfold verifyPermission.
  rewrite (bind_eq_Ok _ _ w w (win32 (w_env w))) by reflexivity.
  rewrite Hposix. rewrite (bind_eq_Ok _ _ _ _ _ Hst). rewrite Hbits.
  by destruct (Z.land mode 511 =? expected).
Qed.

(** C10.  The location ["home"] is not looked at: with it the storage
    path is the one that no options give, so on a platform other than
    Windows a non-empty [XDG_CONFIG_HOME] wins over the home directory. *)
Theorem location_home_is_not_looked_at (env : Env) (x : jsstring) :
  resolveStoragePath env (Some {| path := None; location := Some home |})
  = resolveStoragePath env None
  /\ (forall p,
       resolveStoragePath env (Some {| path := p; location := Some home |})
       = resolveStoragePath env (Some {| path := p; location := None |}))
  /\ (win32 env = false -> XDG_CONFIG_HOME env = Some x -> truthy x = true ->
      resolveStoragePath env (Some {| path := None; location := Some home |})
      = Ok (path_join x (u "secrets-engine"))).
Proof.
  repeat split.
  intros Hposix Hx Ht. unfold resolveStoragePath. cbn. rewrite Hposix, Hx. cbn.
  by rewrite Ht.
Qed.

End PlatformProps.

(** ** Glob *)

Section GlobProps.
Import Js Glob.

(** What the two [replace] calls make of one unit of the pattern. *)
Definition expand (c : Z) : jsstring :=
  if in_escaped_class c then [92; c]
  else if c =? 42 then [91; 94; 46; 93; 42]
  else [c].

(** The term that a unit other than [?] stands for. *)
Definition term_of (c : Z) : term :=
  if c =? 42 then T NotDot Star else T (Lit c) One.

Definition no_quantifier_ahead (s : jsstring) : Prop :=
  match s with
  | c :: _ => c <> 42 /\ c <> 43 /\ c <> 63
  | [] => True
  end.

Ltac class_cases E :=
  unfold in_escaped_class, escaped_class in E; cbn [existsb] in E; boolp.

Lemma regexStr_cons c p : regexStr (c :: p) = expand c ++ regexStr p.
Proof.
  unfold regexStr, escapeSpecials, expandStars. cbn [flat_map].
  rewrite flat_map_app. f_equal. unfold expand.
  destruct (in_escaped_class c) eqn:E.
  - cbn [flat_map]. replace (92 =? 42) with false by reflexivity.
    destruct (Z.eqb_spec c 42) as [->|]; [discriminate E | reflexivity].
  - cbn [flat_map]. rewrite app_nil_r. reflexivity.
Qed.

Lemma no_quantifier_ahead_regexStr p rest :
  Forall (fun c => c <> 63) p -> no_quantifier_ahead rest ->
  no_quantifier_ahead (regexStr p ++ rest).
Proof.
  intros Hp Hrest. destruct Hp as [|c p Hc Hp]; [exact Hrest|].
  rewrite regexStr_cons. unfold expand.
  destruct (in_escaped_class c) eqn:E; [cbn; lia|].
  destruct (Z.eqb_spec c 42); [cbn; lia|].
  cbn. class_cases E. lia.
Qed.

Lemma lex_quant_none s : no_quantifier_ahead s -> lex_quant s = (One, s).
Proof.
  destruct s as [|c s]; [reflexivity|]. intros (H1 & H2 & H3). cbn.
  apply Z.eqb_neq in H1, H2, H3. by rewrite H1, H2, H3.
Qed.

Lemma skip_lazy_none s : no_quantifier_ahead s -> skip_lazy s = s.
Proof.
  destruct s as [|c s]; [reflexivity|]. intros (H1 & H2 & H3). cbn.
  apply Z.eqb_neq in H3. by rewrite H3.
Qed.

Lemma is_syntax_char_class c : in_escaped_class c = true -> is_syntax_char c = true.
Proof. intros E. unfold is_syntax_char. by rewrite E. Qed.

(** One unit of the pattern is one term of the expression. *)
Lemma parse_expand fuel c rest :
  c <> 63 -> no_quantifier_ahead rest ->
  parse (S fuel) (expand c ++ rest)
  = match parse fuel rest with
    | Compiled ts => Compiled (term_of c :: ts)
    | e => e
    end.
Proof.
  intros Hc Hrest. unfold expand, term_of.
  destruct (in_escaped_class c) eqn:E.
  - assert (c <> 42) as Hs by (intros ->; discriminate E).
    apply Z.eqb_neq in Hs. rewrite Hs.
    cbn [app parse lex_atom]. replace (92 =? 92) with true by reflexivity.
    rewrite (is_syntax_char_class c E), (lex_quant_none rest Hrest). reflexivity.
  - destruct (Z.eqb_spec c 42) as [->|Hs].
    + cbn [app parse lex_atom]. cbn [Z.eqb Pos.eqb andb].
      cbn [lex_quant]. replace (42 =? 42) with true by reflexivity.
      rewrite (skip_lazy_none rest Hrest). reflexivity.
    + class_cases E. cbn [app parse lex_atom].
      repeat match goal with
      | Hne : c <> ?k |- context [c =? ?k] =>
          rewrite (proj2 (Z.eqb_neq c k) Hne)
      end.
      cbn [orb].
      unfold in_escaped_class, escaped_class. cbn [existsb].
      repeat match goal with
      | Hne : c <> ?k |- context [c =? ?k] =>
          rewrite (proj2 (Z.eqb_neq c k) Hne)
      end.
      cbn [orb]. rewrite (lex_quant_none rest Hrest). reflexivity.
Qed.

Lemma parse_nil fuel : parse fuel [] = Compiled [].
Proof. by destruct fuel. Qed.

Lemma parse_pattern p : forall fuel,
  Forall (fun c => c <> 63) p -> (length p < fuel)%nat ->
  parse fuel (regexStr p ++ [36]) = Compiled (map term_of p ++ [T Eol One]).
Proof.
  induction p as [|c p IH]; intros fuel Hp Hfuel.
  - destruct fuel; [cbn in Hfuel; lia|].
    cbn [regexStr escapeSpecials expandStars flat_map app parse lex_atom].
    cbn [Z.eqb Pos.eqb lex_quant is_assertion is_One negb andb].
    by rewrite parse_nil.
  - destruct fuel; [cbn in Hfuel; lia|].
    inversion Hp as [|? ? Hc Hp']; subst.
    rewrite regexStr_cons, <- app_assoc, parse_expand; [| done |].
    + rewrite IH by (done || cbn in Hfuel; lia). reflexivity.
    + apply no_quantifier_ahead_regexStr; [done | cbn; lia].
Qed.

Lemma length_regexStr p : (length p <= length (regexStr p))%nat.
Proof.
  induction p as [|c p IH]; [done|]. rewrite regexStr_cons, length_app.
  assert (1 <= length (expand c))%nat; [|cbn [length]; lia].
  unfold expand. repeat case_match; cbn; lia.
Qed.

Lemma RegExp_pattern p :
  Forall (fun c => c <> 63) p ->
  RegExp (regexSource p) = Compiled (T Bol One :: map term_of p ++ [T Eol One]).
Proof.
  intros Hp. unfold RegExp, regexSource. cbn [app length parse lex_atom].
  cbn [Z.eqb Pos.eqb].
  rewrite lex_quant_none by (apply no_quantifier_ahead_regexStr; [done | cbn; lia]).
  cbn [is_assertion is_One negb andb].
  rewrite parse_pattern; [done | done |].
  pose proof (length_regexStr p). rewrite length_app. cbn. lia.
Qed.

(** An expression that starts with [^] can only match at the start. *)
Lemma search_Bol_later ts s : search (T Bol One :: ts) false s = false.
Proof. induction s as [|c s IH]; cbn; [done | exact IH]. Qed.

Lemma search_Bol ts s : search (T Bol One :: ts) true s = matches_from ts true s.
Proof.
  destruct s as [|c s]; cbn; [by rewrite orb_false_r|].
  rewrite search_Bol_later. by rewrite orb_false_r.
Qed.

Lemma glob_spec_star_inv p key :
  glob_spec (42 :: p) key ->
  exists run k, key = run ++ k /\ Forall (fun c => c <> 46) run /\ glob_spec p k.
Proof.
  intros Hs. remember (42 :: p) as q eqn:Hq.
  destruct Hs as [|run p' k Hrun Hs|c p' k Hc Hs]; [discriminate| |].
  - injection Hq as ->. eauto.
  - injection Hq as -> ->. done.
Qed.

Lemma glob_spec_lit_inv c p key :
  c <> 42 -> glob_spec (c :: p) key ->
  exists k, key = c :: k /\ glob_spec p k.
Proof.
  intros Hc Hs. remember (c :: p) as q eqn:Hq.
  destruct Hs as [|run p' k Hrun Hs|c' p' k Hc' Hs]; [discriminate| |].
  - injection Hq as <- ->. done.
  - injection Hq as -> ->. eauto.
Qed.

(** The terms of a pattern match a whole key exactly when the key is the
    pattern with its stars replaced by runs without a dot. *)
Lemma matches_pattern p : forall bol key,
  matches_from (map term_of p ++ [T Eol One]) bol key = true <-> glob_spec p key.
Proof.
  induction p as [|c p IH]; intros bol key.
  - cbn. destruct key; split; intros Hk; try done; [constructor | inversion Hk].
  - cbn [map app]. unfold term_of at 1. destruct (Z.eqb_spec c 42) as [->|Hc].
    + cbn [matches_from].
      revert bol. induction key as [|k key IHk]; intros bol.
      * rewrite IH. split; intros Hk.
        -- by apply (glob_star [] p []).
        -- apply glob_spec_star_inv in Hk as (run & k' & Hkey & Hrun & Hk').
           symmetry in Hkey. by apply app_eq_nil in Hkey as [-> ->].
      * rewrite orb_true_iff, andb_true_iff, IH. split.
        -- intros [[Hok Hstar]|Hk].
           ++ apply IHk in Hstar.
              apply glob_spec_star_inv in Hstar as (run & k' & -> & Hrun & Hk').
              apply (glob_star (k :: run) p k'); [|done].
              constructor; [|done]. cbn in Hok. apply negb_true_iff in Hok.
              by apply Z.eqb_neq.
           ++ by apply (glob_star [] p (k :: key)).
        -- intros Hk.
           apply glob_spec_star_inv in Hk as (run & k' & Hkey & Hrun & Hk').
           destruct run as [|r run]; [right; cbn in Hkey; by subst|]. left.
           injection Hkey as -> ->. inversion Hrun; subst. split.
           ++ cbn. apply negb_true_iff. by apply Z.eqb_neq.
           ++ apply IHk. by apply glob_star.
    + cbn [matches_from]. destruct key as [|k key].
      * split; [done|]. intros Hk.
        by apply glob_spec_lit_inv in Hk as (k' & Hkey & _).
      * rewrite andb_true_iff, IH. cbn [atom_ok]. rewrite Z.eqb_eq. split.
        -- intros [-> Hk]. by apply glob_lit.
        -- intros Hk. apply glob_spec_lit_inv in Hk as (k' & [= -> ->] & Hk'); done.
Qed.

(** For a pattern without [?], [matchGlob] is the pattern language of the
    documentation: it never throws, and it holds exactly when the key is
    the pattern with every [*] replaced by a run of units other than
    [.], all other units kept, the regular-expression ones too. *)
Theorem matchGlob_without_question_mark (pattern key : jsstring) :
  Forall (fun c => c <> 63) pattern ->
  (exists b, matchGlob pattern key = Some b)
  /\ (matchGlob pattern key = Some true <-> glob_spec pattern key).
Proof.
  intros Hp. unfold matchGlob. rewrite (RegExp_pattern pattern Hp).
  unfold test. rewrite search_Bol. split; [eauto|].
  rewrite <- (matches_pattern pattern true key).
  split; [by intros [= ->] | by intros ->].
Qed.

Lemma glob_spec_question_literal : glob_spec (u "a?") (u "a?").
Proof. repeat (apply glob_lit; [discriminate|]). apply glob_nil. Qed.

Lemma glob_spec_question_not_optional : ~ glob_spec (u "a?") (u "a").
Proof.
  intros Hs. inversion Hs as [| |c p k _ Hs']; subst. inversion Hs'.
Qed.

(** C4, at the input where the code leaves the documented pattern
    language.  [?] is not in the class that the first [replace] escapes,
    so it reaches [new RegExp] as a quantifier: the pattern [a?] does not
    match the key [a?], which the pattern language says it must, and it
    matches the key [a], which is not [a?] with anything replaced.  A
    pattern that starts with [?] makes [new RegExp] throw. *)
Theorem matchGlob_question_mark_is_a_quantifier :
  glob_spec (u "a?") (u "a?") /\ matchGlob (u "a?") (u "a?") = Some false
  /\ ~ glob_spec (u "a?") (u "a") /\ matchGlob (u "a?") (u "a") = Some true
  /\ matchGlob (u "?") (u "?") = None.
Proof.
  split; [apply glob_spec_question_literal|].
  split; [vm_compute; reflexivity|].
  split; [apply glob_spec_question_not_optional|].
  split; vm_compute; reflexivity.
Qed.

End GlobProps.

(** ** Crypto *)

Section CryptoProps.
Import Js Errors Types Node Crypto.
Context `{NodeRuntime}.

(** Bytes that are the UTF-8 form of a string. *)
Definition valid_utf8 (bs : bytes) : Prop :=
  exists s : jsstring, well_formed s = true /\ utf8_encode s = bs.

Lemma utf8_of_cp_head cp b r :
  0 <= cp <= 1114111 -> utf8_of_cp cp = b :: r -> 0 <= b <= 244.
Proof.
  intros Hcp. unfold utf8_of_cp.
  repeat case_match; boolp; intros [= <- _]; zlia.
Qed.

Lemma utf8_encode_head s b r :
  well_formed s = true -> utf8_encode s = b :: r -> 0 <= b <= 244.
Proof.
  destruct s as [|c s]; [discriminate|]. cbn [well_formed utf8_encode].
  destruct (is_high c) eqn:Hc.
  - destruct s as [|d s]; [discriminate|]. intros Hwf.
    apply andb_true_iff in Hwf as [Hd _]. rewrite Hd.
    unfold is_high, is_low in *. boolp.
    destruct (utf8_of_cp (pair_cp c d)) as [|b' r'] eqn:E.
    { unfold utf8_of_cp in E. repeat case_match; discriminate. }
    cbn [app]. intros [= <- _].
    apply (utf8_of_cp_head (pair_cp c d) b' r'); [unfold pair_cp; lia | done].
  - intros Hwf. apply andb_true_iff in Hwf as [Hwf _].
    apply andb_true_iff in Hwf as [Hu Hl]. apply negb_true_iff in Hl. rewrite Hl.
    unfold is_unit in Hu. boolp.
    destruct (utf8_of_cp c) as [|b' r'] eqn:E.
    { unfold utf8_of_cp in E. repeat case_match; discriminate. }
    cbn [app]. intros [= <- _].
    apply (utf8_of_cp_head c b' r'); [lia | done].
Qed.

(** The last [AUTH_TAG_LENGTH] bytes and what comes before them. *)
Definition tag_of_ciphertext (ciphertext : bytes) : bytes :=
  drop (length ciphertext - CONSTANTS.AUTH_TAG_LENGTH) ciphertext.

Definition body_of_ciphertext (ciphertext : bytes) : bytes :=
  take (length ciphertext - CONSTANTS.AUTH_TAG_LENGTH) ciphertext.

(** C7 as the code has it.  [decrypt] throws exactly when the ciphertext
    has fewer than 16 bytes or the decipher throws (the tag does not
    verify).  What it throws is the [DecryptionError] of the cause and
    the key hash, where the cause is the fixed text for a ciphertext that
    is too short, or the message of what the decipher threw: no plaintext
    has been produced then.  Its message is [Decryption failed], then the
    entry with the first 16 units of the key hash when the key hash is
    not empty, then a colon and the cause, and nothing else.  In every
    other case [decrypt] returns the decoded plaintext, and bytes that
    are not UTF-8 are decoded (with U+FFFD), not refused. *)
Theorem decrypt_throws_exactly (masterKey iv ciphertext : bytes)
  (keyHash : option jsstring) :
  (is_Ok (decrypt masterKey iv ciphertext keyHash) = false
   <-> (length ciphertext < CONSTANTS.AUTH_TAG_LENGTH)%nat
       \/ exists m, aes256gcm_open masterKey iv (body_of_ciphertext ciphertext)
                      (tag_of_ciphertext ciphertext) = inl m)
  /\ (forall e, decrypt masterKey iv ciphertext keyHash = Err e ->
      exists cause,
        ((length ciphertext < CONSTANTS.AUTH_TAG_LENGTH)%nat
         /\ cause = u "Ciphertext too short to contain auth tag"
         \/ (CONSTANTS.AUTH_TAG_LENGTH <= length ciphertext)%nat
            /\ aes256gcm_open masterKey iv (body_of_ciphertext ciphertext)
                 (tag_of_ciphertext ciphertext) = inl cause)
        /\ e = DecryptionError cause keyHash
        /\ code e = Some (u "DECRYPTION_ERROR")
        /\ message e
           = u "Decryption failed"
               ++ match keyHash with
                  | Some h =>
                      if truthy h
                      then u " (entry: " ++ take 16 h ++ ellipsis ++ u ")"
                      else []
                  | None => []
                  end
               ++ u ": " ++ cause)
  /\ (forall plain,
      (CONSTANTS.AUTH_TAG_LENGTH <= length ciphertext)%nat ->
      aes256gcm_open masterKey iv (body_of_ciphertext ciphertext)
        (tag_of_ciphertext ciphertext) = inr plain ->
      decrypt masterKey iv ciphertext keyHash = Ok (utf8_decode plain)).
Proof.
  unfold decrypt, body_of_ciphertext, tag_of_ciphertext.
  destruct (Nat.ltb_spec (length ciphertext) CONSTANTS.AUTH_TAG_LENGTH) as [Hs|Hl].
  - split; [|split].
    + split; [by left | done].
    + intros e [= <-]. eexists. split; [left; by split|]. done.
    + intros plain Hle. lia.
  - destruct (aes256gcm_open _ _ _ _) as [m|plain] eqn:Hopen.
    + split; [|split].
      * split; [right; eauto | done].
      * intros e [= <-]. exists m. split; [right; by split|]. done.
      * intros plain _ [=].
    + split; [|split].
      * split; [done|]. intros [Hs|[m [=]]]. lia.
      * intros e [=].
      * by intros plain' _ [= ->].
Qed.

(** What [encrypt] seals, [decrypt] opens. *)
Lemma decrypt_sealed (masterKey iv : bytes) (plaintext : jsstring)
  (keyHash : option jsstring) :
  length masterKey = CONSTANTS.KEY_LENGTH ->
  let sealed := aes256gcm_seal masterKey iv (utf8_encode plaintext) in
  decrypt masterKey iv (fst sealed ++ snd sealed) keyHash
  = Ok (utf8_decode (utf8_encode plaintext)).
Proof.
  intros Hk sealed. unfold decrypt.
  pose proof (seal_tag_length masterKey iv (utf8_encode plaintext)) as Htag.
  fold sealed in Htag.
  rewrite length_app, Htag.
  replace (length (fst sealed) + CONSTANTS.AUTH_TAG_LENGTH
           <? CONSTANTS.AUTH_TAG_LENGTH)%nat with false
    by (symmetry; apply Nat.ltb_ge; lia).
  replace (length (fst sealed) + CONSTANTS.AUTH_TAG_LENGTH
           - CONSTANTS.AUTH_TAG_LENGTH)%nat with (length (fst sealed)) by lia.
  rewrite take_app_length, drop_app_length.
  unfold sealed. by rewrite open_seal.
Qed.

End CryptoProps.

(** ** The row store and the seal *)

Section StoreProps.
Import Js Errors Types Node Platform Crypto Integrity.
Context `{NodeRuntime}.

(** The database file of a directory, when it is a database. *)
Definition db_file (w : World) (dir : jsstring) : option (Z * gmap jsstring Row * gmap jsstring Row) :=
  match lookup_file (w_fs w) dir CONSTANTS.DB_NAME with
  | Some {| f_mode := m; f_data := Sqlite main view |} => Some (m, main, view)
  | _ => None
  end.

(** The rows that a connection sees. *)
Definition rows_of (w : World) (dir : jsstring) : gmap jsstring Row :=
  match db_file w dir with
  | Some (_, _, view) => view
  | None => ∅
  end.

Lemma db_file_lookup w dir m main view :
  db_file w dir = Some (m, main, view) <->
  lookup_file (w_fs w) dir CONSTANTS.DB_NAME
  = Some {| f_mode := m; f_data := Sqlite main view |}.
Proof.
  unfold db_file. destruct (lookup_file _ _ _) as [[m' [d|main' view']]|];
    split; intros [=]; subst; done.
Qed.

Lemma db_rows_run (db : Database) w m main view :
  db_closed db = false -> db_file w (db_dir db) = Some (m, main, view) ->
  db_rows db w = (Ok view, w).
Proof.
  intros Hc Hf. apply db_file_lookup in Hf. unfold db_rows. rewrite Hc.
  unfold bind, gets. by rewrite Hf.
Qed.

Lemma db_run_Ok (db : Database) f w n w' :
  db_run db f w = (Ok n, w') ->
  db_closed db = false /\
  exists m main view,
    db_file w (db_dir db) = Some (m, main, view) /\ n = snd (f view) /\
    w' = set_fs (put_file (db_dir db) CONSTANTS.DB_NAME
                   {| f_mode := m; f_data := Sqlite main (fst (f view)) |} (w_fs w))
           (add_log (EvDbRun (db_dir db)) w).
Proof.
  unfold db_run. destruct (db_closed db); [discriminate|].
  unfold bind, log, modify, gets, ret, throw. cbn [w_fs add_log].
  destruct (lookup_file _ _ _) as [[m [d|main view]]|] eqn:Hf; try discriminate.
  intros [= <- <-]. split; [done|]. exists m, main, view.
  split; [by apply db_file_lookup | done].
Qed.

Lemma db_file_set_fs_put_db w w0 dir m main view :
  is_Some (w_fs w !! dir) ->
  db_file (set_fs (put_file dir CONSTANTS.DB_NAME
                     {| f_mode := m; f_data := Sqlite main view |} (w_fs w)) w0) dir
  = Some (m, main, view).
Proof.
  intros Hd. unfold db_file. cbn [w_fs set_fs].
  by rewrite lookup_file_put_file_eq.
Qed.

Lemma db_file_Some_dir w dir x : db_file w dir = Some x -> is_Some (w_fs w !! dir).
Proof.
  unfold db_file. destruct (lookup_file _ _ _) eqn:E; [|discriminate].
  intros _. by eapply lookup_file_Some_dir.
Qed.

End StoreProps.

Section EngineProps.
Import Js Errors Types Node Platform Crypto Integrity SecretsEngine.
Context `{NodeRuntime}.

Lemma lookup_file_put_file_other fs dir dir' name name' f :
  name <> name' ->
  lookup_file (put_file dir' name' f fs) dir name = lookup_file fs dir name.
Proof.
  intros Hne. destruct (decide (dir = dir')) as [->|Hd].
  - by apply lookup_file_put_file_ne.
  - unfold lookup_file, put_file. destruct (fs !! dir'); [|done].
    by rewrite lookup_insert_ne.
Qed.

Lemma db_file_put_meta w w0 dir d f :
  db_file (set_fs (put_file d CONSTANTS.META_NAME f (w_fs w)) w0) dir = db_file w dir.
Proof.
  unfold db_file. cbn [w_fs set_fs].
  by rewrite lookup_file_put_file_other by discriminate.
Qed.

Lemma db_file_add_log ev w dir : db_file (add_log ev w) dir = db_file w dir.
Proof. reflexivity. Qed.

Lemma db_file_spend n w dir : db_file (spend n w) dir = db_file w dir.
Proof. reflexivity. Qed.

(** Everything of node:fs and bun:sqlite, unfolded. *)
Ltac unfold_world :=
  unfold updateIntegrity, verifyIntegrity, computeIntegrityHmac, writeMetaFile,
    readMetaFile, readFile, writeFile, chmod, when,
    SecretStore.upsert, SecretStore.findByHash, SecretStore.findAll,
    SecretStore.deleteByHash, SecretStore.checkpoint, SecretStore.close,
    SecretStore.filePath, db_run, db_rows, db_checkpoint, db_close, now_seconds,
    encrypt, randomBytes, tryCatch,
    bind, log, modify, gets, ret, throw, liftRes in *.

(** Writing the seal leaves every database file as it is. *)
Lemma updateIntegrity_db_file k dbPath dirPath salt w dir :
  db_file (snd (updateIntegrity k dbPath dirPath salt None w)) dir = db_file w dir.
Proof.
  unfold_world. cbn [w_fs add_log w_env fst snd].
  repeat case_match; simplify_eq; cbn [snd]; unfold db_file;
    cbn [w_fs add_log set_fs];
    rewrite ?lookup_file_put_file_other by discriminate; reflexivity.
Qed.

(** *** Successful steps of a method *)

Lemma this__Ok {A} (f : Engine -> A) (s s1 : Sys) (a : A) :
  this_ f s = (Ok a, s1) -> a = f (fst s) /\ s1 = s.
Proof. by intros [= <- <-]. Qed.

Lemma update_this_Ok (f : Engine -> Engine) (s s1 : Sys) (a : unit) :
  update_this f s = (Ok a, s1) -> s1 = (f (fst s), snd s).
Proof. by intros [= <-]. Qed.

Lemma liftW_Ok {A} (c : M World A) (s s1 : Sys) (a : A) :
  liftW c s = (Ok a, s1) -> c (snd s) = (Ok a, snd s1) /\ fst s1 = fst s.
Proof.
  unfold liftW. destruct (c (snd s)) as [r w1]. by intros [= -> <-].
Qed.

Lemma ensureOpen_Ok (s s1 : Sys) (a : unit) :
  ensureOpen s = (Ok a, s1) -> closed (fst s) = false /\ s1 = s.
Proof.
  unfold ensureOpen, bind, this_, gets. cbn.
  destruct (closed (fst s)); [discriminate|]. by intros [= <-].
Qed.

Lemma ensureOpen_open (e : Engine) (w : World) :
  closed e = false -> ensureOpen (e, w) = (Ok tt, (e, w)).
Proof. intros Hc. unfold ensureOpen, bind, this_, gets. cbn. by rewrite Hc. Qed.

Lemma hashKey_Ok (key : jsstring) (s s1 : Sys) (a : jsstring) :
  hashKey key s = (Ok a, s1) -> a = hmac (masterKey (fst s)) key /\ s1 = s.
Proof. by intros [= <- <-]. Qed.

Lemma encrypt_Ok (k : bytes) (plaintext : jsstring) (w w1 : World) payload :
  encrypt k plaintext w = (Ok payload, w1) ->
  length (payload_iv payload) = CONSTANTS.IV_LENGTH /\
  payload_ciphertext payload
  = fst (aes256gcm_seal k (payload_iv payload) (utf8_encode plaintext))
    ++ snd (aes256gcm_seal k (payload_iv payload) (utf8_encode plaintext)) /\
  w1 = spend CONSTANTS.IV_LENGTH w.
Proof.
  unfold encrypt, randomBytes, bind, ret. intros [= <- <-]. done.
Qed.

Lemma upsert_Ok (st : Database) entry (w w1 : World) (a : unit) :
  SecretStore.upsert st entry w = (Ok a, w1) ->
  db_closed st = false /\
  exists m main view,
    db_file w (db_dir st) = Some (m, main, view) /\
    db_file w1 (db_dir st)
    = Some (m, main, SecretStore.upsert_rows entry (w_now w / 1000) view) /\
    w_log w1 = w_log w ++ [EvDbRun (db_dir st)].
Proof.
  unfold SecretStore.upsert, now_seconds. intros Hb.
  apply bind_Ok in Hb as (now & w0 & [= <- <-] & Hb).
  apply bind_Ok in Hb as (n & w2 & Hrun & Hret).
  apply db_run_Ok in Hrun as (Hc & m & main & view & Hf & _ & Hw).
  injection Hret as _ <-. subst w2.
  split; [done|]. exists m, main, view. split; [done|]. split; [|done].
  cbn [fst]. apply db_file_set_fs_put_db. by eapply db_file_Some_dir.
Qed.

(** One successful step of a method, taken off the front. *)
Ltac step H :=
  let a := fresh "a" in let s := fresh "s" in let Hs := fresh "Hstep" in
  apply bind_Ok in H as (a & s & Hs & H);
  first
    [ apply ensureOpen_Ok in Hs as [? ->]
    | apply hashKey_Ok in Hs as [-> ->]
    | apply this__Ok in Hs as [-> ->]
    | apply update_this_Ok in Hs as ->
    | destruct s as [? ?]; apply liftW_Ok in Hs as [Hs ?] ];
  cbn [fst snd] in *; subst.

Lemma set_Ok (e e' : Engine) (w w' : World) (name value : jsstring) :
  set name value (e, w) = (Ok tt, (e', w')) ->
  closed e = false /\ db_closed (store e) = false /\
  e' = set_keyIndex (<[hmac (masterKey e) name := name]> (keyIndex e)) e /\
  exists m main view now ivk ivv,
    length ivk = CONSTANTS.IV_LENGTH /\
    db_file w (db_dir (store e)) = Some (m, main, view) /\
    db_file w' (db_dir (store e))
    = Some (m, main,
            SecretStore.upsert_rows
              {| SecretStore.up_key_hash := hmac (masterKey e) name;
                 SecretStore.up_key_enc :=
                   ivk ++ (fst (aes256gcm_seal (masterKey e) ivk (utf8_encode name))
                           ++ snd (aes256gcm_seal (masterKey e) ivk (utf8_encode name)));
                 SecretStore.up_iv := ivv;
                 SecretStore.up_cipher :=
                   fst (aes256gcm_seal (masterKey e) ivv (utf8_encode value))
                   ++ snd (aes256gcm_seal (masterKey e) ivv (utf8_encode value)) |}
              now view).
Proof.
  unfold set. intros Hset.
  do 10 step Hset. apply liftW_Ok in Hset as [Hupd He].
  cbn [fst snd] in *. subst e'.
  apply encrypt_Ok in Hstep as (Hivk & Hck & ->).
  apply encrypt_Ok in Hstep0 as (Hivv & Hcv & ->).
  apply upsert_Ok in Hstep1 as (Hopen & m & main & view & Hf & Hf' & _).
  rewrite Hck, Hcv in Hf'.
  repeat split; try done.
  exists m, main, view. eexists _, (payload_iv a0), (payload_iv a1).
  split; [done|]. split; [done|].
  rewrite <- Hf'.
  match type of Hupd with
  | updateIntegrity ?k ?p ?d ?s None ?w0 = _ =>
      pose proof (updateIntegrity_db_file k p d s w0 (db_dir (store e))) as Hfr
  end.
  by rewrite Hupd in Hfr.
Qed.

Lemma findByHash_run (st : Database) (w : World) (keyHash : jsstring) m main view :
  db_closed st = false -> db_file w (db_dir st) = Some (m, main, view) ->
  SecretStore.findByHash st keyHash w
  = (Ok ((fun r => {| key_hash := keyHash; columns := r |}) <$> view !! keyHash), w).
Proof.
  intros Hc Hf. unfold SecretStore.findByHash.
  by rewrite (bind_eq_Ok _ _ _ _ _ (db_rows_run st w m main view Hc Hf)).
Qed.

(** C1.  On one instance, a [set] that has completed is seen by the
    [get] that follows: it returns the value that was set.  The value is
    a well formed string (the UTF-8 encoding of an unpaired surrogate is
    not its own) and the master key has the length that [open] derives. *)
Theorem set_then_get (e e' : Engine) (w w' : World) (name value : jsstring) :
  length (masterKey e) = CONSTANTS.KEY_LENGTH ->
  well_formed value = true ->
  set name value (e, w) = (Ok tt, (e', w')) ->
  get name (e', w') = (Ok (Some value), (e', w')).
Proof.
  intros Hkey Hwf Hset.
  apply set_Ok in Hset as (Hopen & Hdb & -> & m & main & view & now & ivk & ivv
                           & _ & _ & Hf').
  unfold get.
  erewrite bind_eq_Ok by (by apply ensureOpen_open).
  erewrite bind_eq_Ok by reflexivity.
  erewrite bind_eq_Ok by reflexivity.
  erewrite bind_eq_Ok.
  2:{ unfold liftW. cbn [fst snd set_keyIndex store].
      by rewrite (findByHash_run _ _ _ _ _ _ Hdb Hf'). }
  unfold SecretStore.upsert_rows. cbn [SecretStore.up_key_hash].
  rewrite lookup_insert_eq. cbn [fmap option_fmap option_map].
  erewrite bind_eq_Ok by reflexivity.
  cbn [columns iv cipher fst masterKey set_keyIndex SecretStore.up_iv
       SecretStore.up_cipher].
  rewrite decrypt_sealed by done. rewrite utf8_roundtrip by done.
  reflexivity.
Qed.

Lemma ensureOpen_closed (e : Engine) (w : World) :
  closed e = true -> ensureOpen (e, w) = (Err (Error closed_message), (e, w)).
Proof. intros Hc. unfold ensureOpen, bind, this_, gets. cbn. by rewrite Hc. Qed.

Lemma close_closes (e e' : Engine) (w w' : World) (a : unit) :
  close (e, w) = (Ok a, (e', w')) -> closed e' = true.
Proof.
  unfold close. intros Hc. step Hc. destruct (closed e) eqn:Hcl; cbn [negb] in Hc.
  - by injection Hc as <- <-.
  - do 9 step Hc. by injection Hc as <- <-.
Qed.

(** C2 as the code has it.  After [close()] has completed, [get],
    [getOrThrow], [set], [has], [delete], [keys], [size] and also
    [destroy] throw the plain error "SecretsEngine instance is closed"
    and change nothing; a second [close()] does nothing and
    [storagePath] still answers. *)
Theorem closed_instance_guard (e e' : Engine) (w w' : World) :
  close (e, w) = (Ok tt, (e', w')) ->
  closed e' = true /\
  forall (w1 : World) (key value : jsstring) (pattern : option jsstring),
    let thrown {A} : Res A * Sys := (Err (Error closed_message), (e', w1)) in
    get key (e', w1) = thrown
    /\ getOrThrow key (e', w1) = thrown
    /\ set key value (e', w1) = thrown
    /\ has key (e', w1) = thrown
    /\ delete key (e', w1) = thrown
    /\ keys pattern (e', w1) = thrown
    /\ size (e', w1) = thrown
    /\ destroy (e', w1) = thrown
    /\ close (e', w1) = (Ok tt, (e', w1))
    /\ storagePath (e', w1) = (Ok (dirPath e'), (e', w1)).
Proof.
  intros Hclose. apply close_closes in Hclose as Hc. split; [done|].
  intros w1 key value pattern thrown. subst thrown.
  pose proof (ensureOpen_closed e' w1 Hc) as Hg.
  assert (get key (e', w1) = (Err (Error closed_message), (e', w1))) as Hget
    by (unfold get; by erewrite bind_eq_Err).
  repeat split; try exact Hget;
    try (unfold getOrThrow, set, has, delete, keys, size, destroy;
         by erewrite bind_eq_Err).
  unfold close. erewrite bind_eq_Ok by reflexivity. cbn [fst]. by rewrite Hc.
Qed.

(** *** Listing the names *)

Lemma u16_le_total (a b : jsstring) : u16_le a b \/ u16_le b a.
Proof.
  unfold u16_le. revert b. induction a as [|x a IH]; intros [|y b]; cbn; auto.
  destruct (Z.lt_trichotomy x y) as [Hlt|[->|Hgt]].
  - left. apply Z.ltb_lt in Hlt. by rewrite Hlt.
  - rewrite Z.ltb_irrefl, Z.eqb_refl. cbn. apply IH.
  - right. apply Z.ltb_lt in Hgt. by rewrite Hgt.
Qed.

Lemma u16_le_trans (a b c : jsstring) : u16_le a b -> u16_le b c -> u16_le a c.
Proof.
  unfold u16_le. revert b c.
  induction a as [|x a IH]; intros [|y b] [|z c]; cbn; try done.
  rewrite !orb_true_iff, !andb_true_iff, !Z.ltb_lt, !Z.eqb_eq.
  intros [Hxy|[-> Hab]] [Hyz|[-> Hbc]]; try (left; lia).
  right. split; [done|]. by apply (IH b c).
Qed.

#[local] Instance u16_le_Total : Total u16_le.
Proof. intros a b. apply u16_le_total. Qed.

#[local] Instance u16_le_Transitive : Transitive u16_le.
Proof. intros a b c. apply u16_le_trans. Qed.

(** The names that [keys(pattern)] is to list: all of them when the
    pattern is missing or empty, else those that [matchGlob] accepts. *)
Definition selected (pattern : option jsstring) (key : jsstring) : Prop :=
  truthy_opt pattern = true -> Glob.matchGlob (default [] pattern) key = Some true.

#[local] Instance selected_dec pattern key : Decision (selected pattern key).
Proof. unfold selected. apply _. Defined.

Lemma filterKeys_compiled (names : list jsstring) (pattern : jsstring) r :
  Glob.RegExp (Glob.regexSource pattern) = Glob.Compiled r ->
  Glob.filterKeys names pattern
  = Some (filter (fun key => Glob.test r key = true) names).
Proof.
  intros Hr. induction names as [|key names IH]; [done|].
  cbn [Glob.filterKeys]. unfold Glob.matchGlob at 1. rewrite Hr, IH.
  rewrite filter_cons. destruct (Glob.test r key) eqn:Ht.
  - by rewrite decide_True.
  - by rewrite decide_False.
Qed.

Lemma filter_all {A} (P : A -> Prop) `{!forall x, Decision (P x)} (l : list A) :
  (forall x, P x) -> filter P l = l.
Proof.
  intros HP. induction l as [|x l IH]; [done|].
  by rewrite filter_cons, decide_True, IH.
Qed.

(** C8 as the code has it.  [keys(pattern)] lists the names of the
    index, all of them when the pattern is missing or is the empty
    string and otherwise those that [matchGlob] accepts, in ascending
    order of their UTF-16 code units. *)
Theorem keys_sorted_by_code_units (e : Engine) (w : World) (pattern : option jsstring) :
  closed e = false ->
  (truthy_opt pattern = true ->
   exists r, Glob.RegExp (Glob.regexSource (default [] pattern)) = Glob.Compiled r) ->
  exists names,
    keys pattern (e, w) = (Ok names, (e, w))
    /\ StronglySorted u16_le names
    /\ names ≡ₚ filter (selected pattern) (map snd (map_to_list (keyIndex e))).
Proof.
  intros Hopen Hre. unfold keys.
  erewrite bind_eq_Ok by (by apply ensureOpen_open).
  erewrite bind_eq_Ok by reflexivity. cbn [fst].
  destruct (truthy_opt pattern) eqn:Ht; cbn [negb].
  - destruct (Hre eq_refl) as [r Hr].
    rewrite (filterKeys_compiled _ _ r Hr). eexists. split; [reflexivity|].
    split; [apply StronglySorted_merge_sort; apply _|].
    unfold sort. rewrite merge_sort_Permutation.
    erewrite list_filter_iff; [reflexivity|].
    intros key. unfold selected, Glob.matchGlob. rewrite Ht, Hr. cbn.
    split; [by intros -> | intros Hs; by injection (Hs eq_refl)].
  - eexists. split; [reflexivity|].
    split; [apply StronglySorted_merge_sort; apply _|].
    unfold sort. rewrite merge_sort_Permutation.
    rewrite filter_all; [done|]. intros key. unfold selected. by rewrite Ht.
Qed.

(** *** The index and the rows *)

(** The row's name can be decrypted, as [buildKeyIndex] tries it. *)
Definition decrypts (k : bytes) (h : jsstring) (r : Row) : Prop :=
  is_Ok (decrypt k (take 12 (key_enc r)) (drop 12 (key_enc r)) (Some h)) = true.

(** The index has an entry under a key hash exactly when the table has a
    row under it whose name decrypts. *)
Definition index_matches_rows (e : Engine) (w : World) : Prop :=
  forall h : jsstring,
    is_Some (keyIndex e !! h) <->
    exists r, rows_of w (db_dir (store e)) !! h = Some r /\ decrypts (masterKey e) h r.

Lemma decrypt_Err_is_DecryptionError k i c kh er :
  decrypt k i c kh = Err er -> exists m, er = DecryptionError m kh.
Proof.
  unfold decrypt. destruct (_ <? _)%nat; [intros [= <-]; eauto|].
  destruct (aes256gcm_open _ _ _ _) as [m|plain]; intros [= <-]. eauto.
Qed.

Lemma indexEntry_run (entry : EncryptedEntry) (e : Engine) (w : World) :
  let r := decrypt (masterKey e) (take 12 (key_enc (columns entry)))
             (drop 12 (key_enc (columns entry))) (Some (key_hash entry)) in
  indexEntry entry (e, w)
  = match r with
    | Ok keyName =>
        (Ok tt, (set_keyIndex (<[key_hash entry := keyName]> (keyIndex e)) e, w))
    | Err _ =>
        (Ok tt, (e, add_log (EvWarn (u "[secrets-engine] Skipping corrupted entry: "
                                       ++ slice0 16 (key_hash entry) ++ ellipsis)) w))
    end.
Proof.
  intros r. unfold indexEntry, tryCatch.
  erewrite bind_eq_Ok by reflexivity. cbn [fst].
  unfold bind at 1, liftRes. fold r.
  destruct r as [keyName|er] eqn:Hr; [reflexivity|].
  apply decrypt_Err_is_DecryptionError in Hr as [m ->]. reflexivity.
Qed.

Lemma indexEntries_spec (entries : list EncryptedEntry) : forall (e : Engine) (w : World),
  exists idx w',
    indexEntries entries (e, w) = (Ok tt, (set_keyIndex idx e, w'))
    /\ (forall d, db_file w' d = db_file w d)
    /\ (forall h, is_Some (idx !! h) <->
          is_Some (keyIndex e !! h)
          \/ exists r, {| key_hash := h; columns := r |} ∈ entries
                       /\ decrypts (masterKey e) h r).
Proof.
  induction entries as [|entry entries IH]; intros e w.
  - exists (keyIndex e), w. split; [by destruct e|]. split; [done|].
    intros h. split; [auto|]. intros [?|(r & Hin & _)]; [done|].
    by apply elem_of_nil in Hin.
  - cbn [indexEntries]. unfold bind at 1. rewrite indexEntry_run.
    destruct entry as [h0 r0]. cbn [key_hash columns].
    destruct (decrypt _ _ _ _) as [keyName|er] eqn:Hd.
    + destruct (IH (set_keyIndex (<[h0 := keyName]> (keyIndex e)) e) w)
        as (idx & w' & Hrun & Hfr & Hidx).
      exists idx, w'. split; [exact Hrun|]. split; [exact Hfr|].
      intros h. rewrite Hidx. cbn [keyIndex set_keyIndex masterKey].
      split.
      * intros [Hs|(r & Hin & Hdec)].
        -- destruct (decide (h0 = h)) as [<-|Hne].
           ++ right. exists r0. split; [apply list_elem_of_here|].
              unfold decrypts. by rewrite Hd.
           ++ left. by rewrite lookup_insert_ne in Hs.
        -- right. exists r. split; [by apply list_elem_of_further | done].
      * intros [Hs|(r & Hin & Hdec)].
        -- left. destruct (decide (h0 = h)) as [<-|Hne].
           ++ by rewrite lookup_insert_eq.
           ++ by rewrite lookup_insert_ne.
        -- apply elem_of_cons in Hin as [[= <- <-]|Hin].
           ++ left. by rewrite lookup_insert_eq.
           ++ right. eauto.
    + destruct (IH e (add_log (EvWarn (u "[secrets-engine] Skipping corrupted entry: "
                                         ++ slice0 16 h0 ++ ellipsis)) w))
        as (idx & w' & Hrun & Hfr & Hidx).
      exists idx, w'. split; [exact Hrun|]. split; [exact Hfr|].
      intros h. rewrite Hidx. split.
      * intros [Hs|(r & Hin & Hdec)]; [by left|].
        right. exists r. split; [by apply list_elem_of_further | done].
      * intros [Hs|(r & Hin & Hdec)]; [by left|].
        apply elem_of_cons in Hin as [[= <- <-]|Hin].
        -- unfold decrypts in Hdec. by rewrite Hd in Hdec.
        -- right. eauto.
Qed.

Lemma bind_inv {S A B} (c : M S A) (k : A -> M S B) (s s' : S) (r : Res B) :
  bind c k s = (r, s') ->
  (exists a s1, c s = (Ok a, s1) /\ k a s1 = (r, s'))
  \/ (exists er, c s = (Err er, s') /\ r = Err er).
Proof.
  unfold bind. destruct (c s) as [[a|er] s1]; [eauto|].
  intros [= <- <-]. eauto.
Qed.

Lemma liftW_inv {A} (c : M World A) (s s1 : Sys) (r : Res A) :
  liftW c s = (r, s1) -> c (snd s) = (r, snd s1) /\ fst s1 = fst s.
Proof.
  unfold liftW. destruct (c (snd s)) as [r' w1]. by intros [= -> <-].
Qed.

Lemma db_run_Err (db : Database) f w er w' :
  db_run db f w = (Err er, w') -> forall d, db_file w' d = db_file w d.
Proof.
  unfold db_run. destruct (db_closed db); [by intros [= _ <-]|].
  unfold bind, log, modify, gets, ret, throw. cbn [w_fs add_log].
  repeat case_match; intros [=]; by subst.
Qed.

Lemma build_index (e e' : Engine) (w w' : World) :
  keyIndex e = ∅ ->
  buildKeyIndex (e, w) = (Ok tt, (e', w')) ->
  index_matches_rows e' w'.
Proof.
  intros Hempty Hb. unfold buildKeyIndex in Hb.
  step Hb. step Hb. unfold SecretStore.findAll in Hstep.
  apply bind_Ok in Hstep as (rows & w1 & Hrows & [= <- <-]).
  assert (db_closed (store e) = false /\ rows_of w (db_dir (store e)) = rows
          /\ w1 = w) as (Hc & Hr & ->).
  { unfold db_rows in Hrows. destruct (db_closed (store e)); [discriminate|].
    unfold bind, gets, ret, throw in Hrows. unfold rows_of, db_file.
    destruct (lookup_file _ _ _) as [[m [d|main view]]|]; try discriminate.
    by injection Hrows as <- <-. }
  destruct (indexEntries_spec
              (map (fun '(h, r) => {| key_hash := h; columns := r |}) (map_to_list rows))
              e w) as (idx & w2 & Hrun & Hfr & Hidx).
  rewrite Hrun in Hb. injection Hb as <- <-.
  intros h. cbn [keyIndex set_keyIndex store masterKey]. rewrite Hidx.
  unfold rows_of. rewrite Hfr. fold (rows_of w (db_dir (store e))). rewrite Hr.
  rewrite Hempty, lookup_empty. split.
  - intros [[? [=]]|(r & Hin & Hdec)]. exists r. split; [|done].
    apply list_elem_of_fmap in Hin as ([h' r'] & [= -> ->] & Hin).
    by apply elem_of_map_to_list.
  - intros (r & Hl & Hdec). right. exists r. split; [|done].
    apply list_elem_of_fmap. exists (h, r). split; [done|].
    by apply elem_of_map_to_list.
Qed.

Lemma ensureOpen_Err (s s1 : Sys) (er : error) :
  ensureOpen s = (Err er, s1) -> s1 = s.
Proof.
  unfold ensureOpen, bind, this_, gets. cbn.
  destruct (closed (fst s)); by intros [= _ <-].
Qed.

Lemma upsert_Err (st : Database) entry (w w1 : World) (er : error) :
  SecretStore.upsert st entry w = (Err er, w1) -> forall d, db_file w1 d = db_file w d.
Proof.
  unfold SecretStore.upsert, now_seconds. intros Hb.
  apply bind_inv in Hb as [(now & w0 & [= <- <-] & Hb)|(er' & [=] & _)].
  apply bind_inv in Hb as [(n & w2 & _ & [=])|(er' & Hrun & _)].
  intros d. by apply (db_run_Err _ _ _ _ _ Hrun).
Qed.

Lemma bind_this_ {A B} (f : Engine -> A) (k : A -> M Sys B) (s : Sys) :
  bind (this_ f) k s = k (f (fst s)) s.
Proof. reflexivity. Qed.

Lemma bind_hashKey {B} (key : jsstring) (k : jsstring -> M Sys B) (s : Sys) :
  bind (hashKey key) k s = k (hmac (masterKey (fst s)) key) s.
Proof. reflexivity. Qed.

Lemma bind_update_this {B} (f : Engine -> Engine) (k : unit -> M Sys B) (s : Sys) :
  bind (update_this f) k s = k tt (f (fst s), snd s).
Proof. reflexivity. Qed.

(** The steps of a method that cannot throw, run. *)
Ltac pure_steps H :=
  repeat first [ rewrite bind_this_ in H | rewrite bind_hashKey in H
               | rewrite bind_update_this in H ];
  cbn [fst snd] in H.

(** What a [set] has done when it returns or throws: nothing to the
    table and the index, or the row and the entry under one key hash. *)
Lemma set_outcome (e e' : Engine) (w w' : World) (name value : jsstring) (r : Res unit) :
  set name value (e, w) = (r, (e', w')) ->
  (e' = e /\ forall d, db_file w' d = db_file w d)
  \/ (closed e = false /\ db_closed (store e) = false /\
      e' = set_keyIndex (<[hmac (masterKey e) name := name]> (keyIndex e)) e /\
      exists m main view now ivk ivv,
        length ivk = CONSTANTS.IV_LENGTH /\
        db_file w (db_dir (store e)) = Some (m, main, view) /\
        db_file w' (db_dir (store e))
        = Some (m, main,
            SecretStore.upsert_rows
              {| SecretStore.up_key_hash := hmac (masterKey e) name;
                 SecretStore.up_key_enc :=
                   ivk ++ (fst (aes256gcm_seal (masterKey e) ivk (utf8_encode name))
                           ++ snd (aes256gcm_seal (masterKey e) ivk (utf8_encode name)));
                 SecretStore.up_iv := ivv;
                 SecretStore.up_cipher :=
                   fst (aes256gcm_seal (masterKey e) ivv (utf8_encode value))
                   ++ snd (aes256gcm_seal (masterKey e) ivv (utf8_encode value)) |}
              now view)).
Proof.
  unfold set. intros Hset.
  apply bind_inv in Hset as [(a & s & Hs & Hset)|(er & Hs & ->)].
  2:{ apply ensureOpen_Err in Hs as [= -> ->]. by left. }
  apply ensureOpen_Ok in Hs as [Hopen ->]. cbn [fst] in Hopen.
  pure_steps Hset.
  apply bind_inv in Hset as [(p1 & [e1 w1] & Hs & Hset)|(er & Hs & ->)].
  2:{ apply liftW_inv in Hs as [Hs _]. unfold encrypt, randomBytes, bind, ret in Hs.
      discriminate Hs. }
  apply liftW_Ok in Hs as [Hs He]. cbn [fst snd] in Hs, He. subst e1.
  apply encrypt_Ok in Hs as (Hivk & Hck & ->).
  apply bind_inv in Hset as [(p2 & [e2 w2] & Hs & Hset)|(er & Hs & ->)].
  2:{ apply liftW_inv in Hs as [Hs _]. unfold encrypt, randomBytes, bind, ret in Hs.
      discriminate Hs. }
  apply liftW_Ok in Hs as [Hs He]. cbn [fst snd] in Hs, He. subst e2.
  apply encrypt_Ok in Hs as (Hivv & Hcv & ->).
  pure_steps Hset.
  apply bind_inv in Hset as [(a1 & [e3 w3] & Hs & Hset)|(er & Hs & ->)].
  2:{ apply liftW_inv in Hs as [Hs He]. cbn [fst snd] in Hs, He. subst e'.
      apply upsert_Err with (d := db_dir (store e)) in Hs as Hs'. left.
      split; [done|]. intros d. by rewrite (upsert_Err _ _ _ _ _ Hs d). }
  apply liftW_Ok in Hs as [Hs He]. cbn [fst snd] in Hs, He. subst e3.
  apply upsert_Ok in Hs as (Hdb & m & main & view & Hf & Hf' & _).
  pure_steps Hset. apply liftW_inv in Hset as [Hupd He].
  cbn [fst snd] in Hupd, He. subst e'.
  right. repeat split; try done.
  exists m, main, view. eexists _, (payload_iv p1), (payload_iv p2).
  split; [done|]. split; [done|].
  rewrite Hck, Hcv in Hf'. rewrite <- Hf'.
  match type of Hupd with
  | updateIntegrity ?k ?p ?d ?s None ?w0 = _ =>
      pose proof (updateIntegrity_db_file k p d s w0 (db_dir (store e))) as Hfr
  end.
  by rewrite Hupd in Hfr.
Qed.

Lemma deleteByHash_inv (st : Database) (h : jsstring) (w w1 : World) (r : Res bool) :
  SecretStore.deleteByHash st h w = (r, w1) ->
  (exists er, r = Err er /\ forall d, db_file w1 d = db_file w d)
  \/ (exists m main view,
        db_file w (db_dir st) = Some (m, main, view)
        /\ r = Ok (bool_decide (is_Some (view !! h)))
        /\ db_file w1 (db_dir st) = Some (m, main, base.delete h view)).
Proof.
  unfold SecretStore.deleteByHash. intros Hb.
  apply bind_inv in Hb as [(n & w2 & Hrun & [= <- <-])|(er & Hrun & ->)].
  - right. apply db_run_Ok in Hrun as (Hc & m & main & view & Hf & -> & ->).
    exists m, main, view. split; [done|]. cbn [fst snd]. split.
    + f_equal. destruct (view !! h) eqn:Hl.
      * by rewrite bool_decide_eq_true_2.
      * rewrite bool_decide_eq_false_2; [done|]. by intros [? [=]].
    + apply db_file_set_fs_put_db. by eapply db_file_Some_dir.
  - left. exists er. split; [done|]. intros d. by apply (db_run_Err _ _ _ _ _ Hrun).
Qed.

(** What a [delete] has done when it returns or throws: nothing, or the
    row and the entry under one key hash are gone. *)
Lemma delete_outcome (e e' : Engine) (w w' : World) (name : jsstring) (r : Res bool) :
  delete name (e, w) = (r, (e', w')) ->
  (e' = e /\ forall d, db_file w' d = db_file w d)
  \/ (exists m main view,
        db_file w (db_dir (store e)) = Some (m, main, view)
        /\ db_file w' (db_dir (store e))
           = Some (m, main, base.delete (hmac (masterKey e) name) view)
        /\ e' = if bool_decide (is_Some (view !! hmac (masterKey e) name))
                then set_keyIndex (base.delete (hmac (masterKey e) name) (keyIndex e)) e
                else e).
Proof.
  unfold delete. intros Hd.
  apply bind_inv in Hd as [(a & s & Hs & Hd)|(er & Hs & ->)].
  2:{ apply ensureOpen_Err in Hs as [= -> ->]. by left. }
  apply ensureOpen_Ok in Hs as [Hopen ->]. cbn [fst] in Hopen.
  pure_steps Hd.
  apply bind_inv in Hd as [(deleted & [e1 w1] & Hs & Hd)|(er & Hs & ->)].
  2:{ apply liftW_inv in Hs as [Hs He]. cbn [fst snd] in Hs, He. subst e'.
      apply deleteByHash_inv in Hs as [(er' & _ & Hfr)|(? & ? & ? & _ & [=] & _)].
      by left. }
  apply liftW_Ok in Hs as [Hs He]. cbn [fst snd] in Hs, He. subst e1.
  apply deleteByHash_inv in Hs as [(er' & [=] & _)|(m & main & view & Hf & [= ->] & Hf')].
  right. exists m, main, view. split; [done|].
  destruct (bool_decide (is_Some (view !! hmac (masterKey e) name))).
  - apply bind_inv in Hd as [(a1 & [e2 w2] & Hs & [= <- <- <-])|(er & Hs & ->)];
      pure_steps Hs; apply liftW_inv in Hs as [Hupd He]; cbn [fst snd] in Hupd, He;
      subst; (split; [|done]); rewrite <- Hf';
      match type of Hupd with
      | updateIntegrity ?k ?p ?d ?s None ?w0 = _ =>
          pose proof (updateIntegrity_db_file k p d s w0 (db_dir (store e))) as Hfr
      end; by rewrite Hupd in Hfr.
  - by injection Hd as <- <- <-.
Qed.

Lemma rows_of_db_file w dir m main view :
  db_file w dir = Some (m, main, view) -> rows_of w dir = view.
Proof. intros Hf. unfold rows_of. by rewrite Hf. Qed.

Lemma rows_of_frame w w' dir :
  (forall d, db_file w' d = db_file w d) -> rows_of w' dir = rows_of w dir.
Proof. intros Hf. unfold rows_of. by rewrite Hf. Qed.

(** ** What a call does to the outside: the log *)


(** The log has grown by events that all satisfy [φ]. *)
Definition extends_log (φ : event -> Prop) (w w' : World) : Prop :=
  exists t, w_log w' = w_log w ++ t /\ Forall φ t.

Lemma extends_log_refl φ w : extends_log φ w w.
Proof. exists []. by rewrite app_nil_r. Qed.

Lemma extends_log_trans φ w1 w2 w3 :
  extends_log φ w1 w2 -> extends_log φ w2 w3 -> extends_log φ w1 w3.
Proof.
  intros (t1 & E1 & F1) (t2 & E2 & F2). exists (t1 ++ t2).
  split; [by rewrite E2, E1, app_assoc | by apply Forall_app].
Qed.

(** A call on a state that holds a world only logs events that satisfy
    [φ], whatever its outcome. *)
Definition emits_on {S A} (proj : S -> World) (φ : event -> Prop) (c : M S A) : Prop :=
  forall s, extends_log φ (proj s) (proj (snd (c s))).

Lemma emits_ret {S A} (proj : S -> World) φ (a : A) : emits_on proj φ (ret a).
Proof. intros s. apply extends_log_refl. Qed.

Lemma emits_throw {S A} (proj : S -> World) φ (e : error) :
  emits_on proj φ (throw e : M S A).
Proof. intros s. apply extends_log_refl. Qed.

Lemma emits_gets {S A} (proj : S -> World) φ (f : S -> A) : emits_on proj φ (gets f).
Proof. intros s. apply extends_log_refl. Qed.

Lemma emits_liftRes {S A} (proj : S -> World) φ (r : Res A) :
  emits_on proj φ (liftRes r : M S A).
Proof. intros s. apply extends_log_refl. Qed.

Lemma emits_bind {S A B} (proj : S -> World) φ (c : M S A) (k : A -> M S B) :
  emits_on proj φ c -> (forall a, emits_on proj φ (k a)) -> emits_on proj φ (bind c k).
Proof.
  intros Hc Hk s. unfold bind. specialize (Hc s).
  destruct (c s) as [[a|e] s1]; [|exact Hc].
  eapply extends_log_trans; [exact Hc | apply Hk].
Qed.

Lemma emits_tryCatch {S A} (proj : S -> World) φ (body : M S A) handler :
  emits_on proj φ body -> (forall e, emits_on proj φ (handler e)) ->
  emits_on proj φ (tryCatch body handler).
Proof.
  intros Hb Hh s. unfold tryCatch. specialize (Hb s).
  destruct (body s) as [[a|e] s1]; [exact Hb|].
  eapply extends_log_trans; [exact Hb | apply Hh].
Qed.

Lemma emits_modify φ (g : World -> World) :
  (forall w, w_log (g w) = w_log w) -> emits_on id φ (modify g).
Proof. intros Hg w. exists []. cbn. by rewrite Hg, app_nil_r. Qed.

Lemma emits_log φ ev : φ ev -> emits_on id φ (log ev).
Proof. intros Hev w. exists [ev]. split; [done | by constructor]. Qed.

Lemma emits_when {S} (proj : S -> World) φ (b : bool) (c : M S unit) :
  emits_on proj φ c -> emits_on proj φ (when b c).
Proof. intros Hc. destruct b; [exact Hc | apply emits_ret]. Qed.

Lemma emits_liftW {A} φ (c : M World A) :
  emits_on id φ c -> emits_on snd φ (liftW c).
Proof.
  intros Hc s. unfold liftW. specialize (Hc (snd s)).
  by destruct (c (snd s)) as [r w1].
Qed.

Lemma emits_this_ {A} φ (f : Engine -> A) : emits_on snd φ (this_ f).
Proof. intros s. apply extends_log_refl. Qed.

Lemma emits_update_this φ (f : Engine -> Engine) : emits_on snd φ (update_this f).
Proof. intros s. apply extends_log_refl. Qed.

Lemma emits_call {A} φ (e : Engine) (c : M Sys A) :
  emits_on snd φ c -> emits_on id φ (call e c).
Proof.
  intros Hc w. unfold call. specialize (Hc (e, w)).
  by destruct (c (e, w)) as [[a|er] [e1 w1]].
Qed.

Lemma emits_randomBytes φ n : emits_on id φ (randomBytes n).
Proof. intros w. exists []. cbn. by rewrite app_nil_r. Qed.

(** The structure of a call, taken apart down to its primitives. *)
Ltac emits_steps :=
  repeat first
    [ apply emits_ret | apply emits_throw | apply emits_gets | apply emits_liftRes
    | apply emits_this_ | apply emits_update_this | apply emits_randomBytes
    | apply emits_modify; reflexivity
    | apply emits_when
    | apply emits_liftW
    | apply emits_call
    | apply emits_bind; [|intros ?]
    | apply emits_tryCatch; [|intros ?]
    | match goal with
      | |- emits_on _ _ (if ?b then _ else _) => destruct b
      | |- emits_on _ _ (match ?x with _ => _ end) => destruct x
      | |- emits_on _ _ (let (_, _) := ?x in _) => destruct x
      end ].







Lemma emits_db_rows φ db : emits_on id φ (db_rows db).
Proof. unfold db_rows. emits_steps. Qed.




(** The event of reading the database file of a directory. *)
Definition db_read (dir : jsstring) : event :=
  EvReadFile (FilePath dir CONSTANTS.DB_NAME).

Definition meta_path (dir : jsstring) : fspath := FilePath dir CONSTANTS.META_NAME.


Lemma emits_updateIntegrity φ k dir dirPath salt :
  φ (db_read dir) -> φ (EvWriteFile (meta_path dirPath)) ->
  φ (EvChmod (meta_path dirPath)) ->
  emits_on id φ (updateIntegrity k (dir, CONSTANTS.DB_NAME) dirPath salt None).
Proof.
  intros H1 H2 H3.
  unfold updateIntegrity, computeIntegrityHmac, writeMetaFile. cbn [fst snd].
  emits_steps; by apply emits_log.
Qed.



(** *** Successful calls, step by step *)

Lemma readFile_Ok dir name (w w1 : World) (data : bytes) :
  readFile dir name w = (Ok data, w1) ->
  exists f, lookup_file (w_fs w) dir name = Some f
            /\ data = file_bytes (f_data f)
            /\ w1 = add_log (EvReadFile (FilePath dir name)) w.
Proof.
  unfold readFile, bind, log, modify, gets, ret, throw. cbn [w_fs add_log].
  destruct (lookup_file _ _ _) as [f|]; [|discriminate].
  intros [= <- <-]. eauto.
Qed.

Lemma writeMetaFile_Ok dirPath content (w w1 : World) (a : unit) :
  writeMetaFile dirPath content w = (Ok a, w1) ->
  (exists tail,
     w_log w1 = w_log w ++ EvWriteFile (meta_path dirPath) :: tail
     /\ (tail = [] \/ tail = [EvChmod (meta_path dirPath)]))
  /\ (exists m, lookup_file (w_fs w1) dirPath CONSTANTS.META_NAME
                = Some {| f_mode := m; f_data := Raw (utf8_encode content) |})
  /\ (forall d, db_file w1 d = db_file w d).
Proof.
  destruct a.
  unfold writeMetaFile, writeFile, chmod, when, bind, log, modify, gets, ret, throw.
  cbn [w_fs add_log w_env set_fs].
  destruct (w_fs w !! dirPath) as [d|] eqn:Hd; [|discriminate].
  cbn [w_env set_fs add_log w_fs].
  assert (Hput : forall f, lookup_file (put_file dirPath CONSTANTS.META_NAME f (w_fs w))
                             dirPath CONSTANTS.META_NAME = Some f)
    by (intros f; apply lookup_file_put_file_eq; eauto).
  destruct (win32 (w_env w)); cbn [negb].
  - intros [= <-]. split; [exists []; cbn; eauto|].
    split; [eexists; cbn [w_fs set_fs]; apply Hput|].
    intros d0. unfold db_file. cbn [w_fs set_fs].
    by rewrite lookup_file_put_file_other by discriminate.
  - cbn [w_fs set_fs add_log]. rewrite Hput. intros [= <-]. split.
    + exists [EvChmod (meta_path dirPath)]. cbn [w_log set_fs add_log].
      split; [by rewrite <- app_assoc | eauto].
    + split.
      * eexists. cbn [w_fs set_fs]. apply lookup_file_put_file_eq.
        unfold put_file. rewrite Hd, lookup_insert_eq. eauto.
      * intros d0. unfold db_file. cbn [w_fs set_fs].
        by rewrite !lookup_file_put_file_other by discriminate.
Qed.

Lemma db_checkpoint_Ok (db : Database) (w w1 : World) (a : unit) :
  db_checkpoint db w = (Ok a, w1) ->
  db_closed db = false /\
  exists m main view,
    db_file w (db_dir db) = Some (m, main, view)
    /\ db_file w1 (db_dir db) = Some (m, view, view)
    /\ w_log w1 = w_log w ++ [EvCheckpoint (db_dir db)].
Proof.
  destruct a. unfold db_checkpoint. destruct (db_closed db); [discriminate|].
  unfold bind, log, modify, gets, ret, throw. cbn [w_fs add_log].
  destruct (lookup_file _ _ _) as [[m [d|main view]]|] eqn:Hf; try discriminate.
  intros [= <-]. split; [done|]. exists m, main, view.
  split; [by apply db_file_lookup|]. split; [|done].
  unfold db_file. cbn [w_fs set_fs]. rewrite lookup_file_put_file_eq; [done|].
  by eapply lookup_file_Some_dir.
Qed.


(** The seal that is computed behind a checkpoint is the seal of the
    rows that the connection sees, and the checkpoint comes first. *)
Lemma computeIntegrityHmac_checkpoint_Ok k (st : Database) (w w1 : World) (seal : jsstring) :
  computeIntegrityHmac k (SecretStore.filePath st)
    (Some (SecretStore.checkpoint st)) w = (Ok seal, w1) ->
  db_closed st = false /\
  exists m main view,
    db_file w (db_dir st) = Some (m, main, view)
    /\ db_file w1 (db_dir st) = Some (m, view, view)
    /\ seal = hmac_buffer k (sha256 (sqlite_image view))
    /\ w_log w1 = w_log w ++ [EvCheckpoint (db_dir st); db_read (db_dir st)].
Proof.
  unfold computeIntegrityHmac, SecretStore.filePath, SecretStore.checkpoint.
  cbn [fst snd]. intros Hc.
  apply bind_Ok in Hc as (a & w0 & Hcp & Hc).
  assert (db_checkpoint st w = (Ok a, w0)) as Hcp'.
  { unfold tryCatch in Hcp. destruct (db_checkpoint st w) as [[?|?] ?]; [|discriminate].
    by injection Hcp as <- <-. }
  apply db_checkpoint_Ok in Hcp' as (Hopen & m & main & view & Hf & Hf' & Hlog).
  apply bind_Ok in Hc as (data & w2 & Hread & [= <- <-]).
  apply readFile_Ok in Hread as (f & Hl & -> & ->).
  split; [done|]. exists m, main, view. split; [done|].
  apply db_file_lookup in Hf' as Hl'. rewrite Hl' in Hl. injection Hl as <-.
  split; [exact Hf'|]. split; [done|].
  cbn [w_log add_log]. rewrite Hlog, <- app_assoc. done.
Qed.

(** The document that [updateIntegrity] writes for a seal. *)
Definition meta_document (salt seal : jsstring) : bytes :=
  utf8_encode (JSON_stringify {| version := CONSTANTS.STORE_VERSION;
                                 Types.salt := salt; integrity := seal |}).

(** [meta.json] of a directory holds the given bytes. *)
Definition meta_holds (w : World) (dirPath : jsstring) (data : bytes) : Prop :=
  exists m, lookup_file (w_fs w) dirPath CONSTANTS.META_NAME
            = Some {| f_mode := m; f_data := Raw data |}.

(** Whether [chmod] came after the write: it does not on Windows. *)
Definition chmod_or_nothing (dirPath : jsstring) (tail : list event) : Prop :=
  tail = [] \/ tail = [EvChmod (meta_path dirPath)].


Lemma updateIntegrity_checkpoint_Ok k (st : Database) dirPath salt (w w1 : World)
  (a : unit) :
  updateIntegrity k (SecretStore.filePath st) dirPath salt
    (Some (SecretStore.checkpoint st)) w = (Ok a, w1) ->
  exists m main view tail,
    db_file w (db_dir st) = Some (m, main, view)
    /\ db_file w1 (db_dir st) = Some (m, view, view)
    /\ w_log w1 = w_log w ++ EvCheckpoint (db_dir st) :: db_read (db_dir st)
                            :: EvWriteFile (meta_path dirPath) :: tail
    /\ chmod_or_nothing dirPath tail
    /\ meta_holds w1 dirPath
         (meta_document salt (hmac_buffer k (sha256 (sqlite_image view)))).
Proof.
  unfold updateIntegrity. intros Hu.
  apply bind_Ok in Hu as (seal & w0 & Hseal & Hwrite).
  apply computeIntegrityHmac_checkpoint_Ok in Hseal
    as (_ & m & main & view & Hf & Hf' & -> & Hlog0).
  apply writeMetaFile_Ok in Hwrite as ((tail & Hlog & Htail) & Hmeta & Hfr).
  exists m, main, view, tail. split; [done|]. split; [by rewrite Hfr|]. split.
  { rewrite Hlog, Hlog0. by rewrite <- app_assoc. }
  done.
Qed.




(** *** Opening a store *)

Lemma readMetaFile_run dirPath (w : World) :
  readMetaFile dirPath w
  = (Ok ((fun f => utf8_decode (file_bytes (f_data f)))
           <$> lookup_file (w_fs w) dirPath CONSTANTS.META_NAME),
     add_log (EvReadFile (meta_path dirPath)) w).
Proof.
  unfold readMetaFile, tryCatch, readFile, bind, log, modify, gets, ret, throw.
  cbn [w_fs add_log]. by destruct (lookup_file _ _ _).
Qed.

(** A verification that passes has checkpointed, then read the database
    file, and the seal it compared is the seal of the rows that the
    connection sees. *)
Lemma verifyIntegrity_Ok k (st : Database) dirPath (w w1 : World) (meta : MetaJson) :
  verifyIntegrity k (SecretStore.filePath st) dirPath
    (Some (SecretStore.checkpoint st)) w = (Ok meta, w1) ->
  exists m main view,
    db_file w (db_dir st) = Some (m, main, view)
    /\ db_file w1 (db_dir st) = Some (m, view, view)
    /\ w_log w1 = w_log w ++ [EvReadFile (meta_path dirPath);
                              EvCheckpoint (db_dir st); db_read (db_dir st)]
    /\ json_version meta = Some CONSTANTS.STORE_VERSION
    /\ json_integrity meta = Some (hmac_buffer k (sha256 (sqlite_image view))).
Proof.
  unfold verifyIntegrity. rewrite (bind_eq_Ok _ _ _ _ _ (readMetaFile_run dirPath w)).
  destruct (truthy_opt _); cbn [negb]; [|discriminate].
  destruct (JSON_parse _) as [meta'|]; [|discriminate].
  destruct (bool_decide (json_version meta' = _)) eqn:Hv; cbn [negb]; [|discriminate].
  intros Hb. apply bind_Ok in Hb as (seal & w2 & Hseal & Hb).
  destruct (bool_decide (Some seal = _)) eqn:Hi; cbn [negb] in Hb; [|discriminate].
  injection Hb as <- <-.
  apply computeIntegrityHmac_checkpoint_Ok in Hseal
    as (_ & m & main & view & Hf & Hf' & -> & Hlog).
  exists m, main, view. split; [done|]. split; [done|]. split.
  { rewrite Hlog. cbn [w_log add_log]. by rewrite <- app_assoc. }
  apply bool_decide_eq_true in Hv, Hi. done.
Qed.

Lemma SecretStore_open_Ok dirPath (w w1 : World) (st : Database) :
  SecretStore.open dirPath w = (Ok st, w1) ->
  st = {| db_dir := dirPath; db_closed := false |}.
Proof.
  unfold SecretStore.open, tryCatch.
  destruct (Database_open dirPath w) as [[st'|er] w2] eqn:Ho; [|discriminate].
  intros [= <- <-]. revert Ho.
  unfold Database_open, bind, log, modify, gets, ret, throw.
  cbn [w_fs add_log w_env].
  repeat case_match; intros [=]; by subst.
Qed.

Lemma call_Ok {A} (e e' : Engine) (c : M Sys A) (w w' : World) (a : A) :
  call e c w = (Ok (a, e'), w') -> c (e, w) = (Ok a, (e', w')).
Proof.
  unfold call. destruct (c (e, w)) as [[a'|er] [e1 w1]]; [|discriminate].
  by intros [= -> -> ->].
Qed.

Lemma buildKeyIndex_Ok_fields (e e' : Engine) (w w' : World) (a : unit) :
  buildKeyIndex (e, w) = (Ok a, (e', w')) -> exists idx, e' = set_keyIndex idx e.
Proof.
  unfold buildKeyIndex. intros Hb. do 2 step Hb.
  match type of Hb with
  | indexEntries ?l _ = _ => destruct (indexEntries_spec l e w0) as (idx & w2 & Hrun & _)
  end.
  rewrite Hrun in Hb. injection Hb as _ <- <-. eauto.
Qed.









Lemma tryCatch_rethrow_Ok {S A B} (body : M S A) (cleanup : M S B) (s s' : S) (a : A) :
  tryCatch body (fun error => let* _ := cleanup in throw error) s = (Ok a, s') ->
  body s = (Ok a, s').
Proof.
  unfold tryCatch, bind, throw. destruct (body s) as [[a'|er] s1]; [done|].
  by destruct (cleanup s1) as [[b|er'] s2].
Qed.


Lemma extends_log_weaken (φ ψ : event -> Prop) (w w' : World) :
  (forall ev, φ ev -> ψ ev) -> extends_log φ w w' -> extends_log ψ w w'.
Proof.
  intros Himp (t & E & F). exists t. split; [done|].
  eapply Forall_impl; eauto.
Qed.


(** ** What a call can throw, and what it leaves alone *)

(** Every error that a call throws satisfies [ψ]. *)
Definition throws_only {S A} (ψ : error -> Prop) (c : M S A) : Prop :=
  forall s er s', c s = (Err er, s') -> ψ er.

Lemma throws_ret {S A} ψ (a : A) : throws_only ψ (ret a : M S A).
Proof. by intros s er s'. Qed.

Lemma throws_throw {S A} (ψ : error -> Prop) (e : error) :
  ψ e -> throws_only ψ (throw e : M S A).
Proof. intros He s er s' [= <- _]. exact He. Qed.

Lemma throws_gets {S A} ψ (f : S -> A) : throws_only ψ (gets f).
Proof. by intros s er s'. Qed.

Lemma throws_modify {S} ψ (g : S -> S) : throws_only ψ (modify g).
Proof. by intros s er s'. Qed.

Lemma throws_log ψ ev : throws_only ψ (log ev).
Proof. by intros s er s'. Qed.

Lemma throws_randomBytes ψ n : throws_only ψ (randomBytes n).
Proof. by intros s er s'. Qed.

Lemma throws_liftRes {S A} (ψ : error -> Prop) (r : Res A) :
  (forall e, r = Err e -> ψ e) -> throws_only ψ (liftRes r : M S A).
Proof. intros Hr s er s'. unfold liftRes. destruct r; intros [= <- _]. by apply Hr. Qed.

Lemma throws_bind {S A B} ψ (c : M S A) (k : A -> M S B) :
  throws_only ψ c -> (forall a, throws_only ψ (k a)) -> throws_only ψ (bind c k).
Proof.
  intros Hc Hk s er s'. unfold bind. destruct (c s) as [[a|e] s1] eqn:E.
  - apply Hk.
  - intros [= <- _]. by eapply Hc.
Qed.

Lemma throws_tryCatch {S A} (ψ : error -> Prop) (body : M S A) handler :
  throws_only ψ body -> (forall e, ψ e -> throws_only ψ (handler e)) ->
  throws_only ψ (tryCatch body handler).
Proof.
  intros Hb Hh s er s'. unfold tryCatch. destruct (body s) as [[a|e] s1] eqn:E; [done|].
  apply Hh. by eapply Hb.
Qed.

Lemma throws_when {S} ψ (b : bool) (c : M S unit) :
  throws_only ψ c -> throws_only ψ (when b c).
Proof. intros Hc. destruct b; [exact Hc | apply throws_ret]. Qed.

Lemma throws_liftW {A} ψ (c : M World A) : throws_only ψ c -> throws_only ψ (liftW c).
Proof.
  intros Hc [e w] er s'. unfold liftW. cbn [fst snd].
  destruct (c w) as [r w1] eqn:E. intros [= -> _]. by eapply Hc.
Qed.

Lemma throws_this_ {A} ψ (f : Engine -> A) : throws_only ψ (this_ f).
Proof. by intros s er s'. Qed.

Lemma throws_update_this ψ (f : Engine -> Engine) : throws_only ψ (update_this f).
Proof. by intros s er s'. Qed.

Lemma throws_call {A} ψ (e : Engine) (c : M Sys A) :
  throws_only ψ c -> throws_only ψ (call e c).
Proof.
  intros Hc w er w'. unfold call.
  destruct (c (e, w)) as [[a|e1] [e2 w2]] eqn:E; [done|].
  intros [= <- _]. by eapply Hc.
Qed.

Ltac throws_steps :=
  repeat first
    [ apply throws_ret | apply throws_gets | apply throws_modify | apply throws_log
    | apply throws_randomBytes | apply throws_this_ | apply throws_update_this
    | apply throws_when
    | apply throws_liftW
    | apply throws_call
    | apply throws_bind; [|intros ?]
    | apply throws_tryCatch; [|intros ? ?]
    | match goal with
      | |- throws_only _ (if ?b then _ else _) => destruct b
      | |- throws_only _ (match ?x with _ => _ end) => destruct x
      | |- throws_only _ (let (_, _) := ?x in _) => destruct x
      end ].

(** The error that [verifyIntegrity] throws for a [meta.json] that
    does not parse. *)
Definition corrupted_meta : error :=
  IntegrityError (u "Metadata file (meta.json) is corrupted").

(** An error that, if it is an [IntegrityError] at all, is the one of a
    checkpoint that failed. *)
Definition not_corrupted_meta (er : error) : Prop :=
  forall m, er = IntegrityError m ->
    exists detail, m = u "Integrity checkpoint failed: " ++ detail.

Lemma not_corrupted_meta_ne er : not_corrupted_meta er -> er <> corrupted_meta.
Proof. intros Her ->. by destruct (Her _ eq_refl) as [detail [=]]. Qed.

Ltac throws_leaf :=
  first
    [ apply throws_throw;
      first [ assumption
            | by intros ? [=]
            | intros ? [= <-]; eexists; reflexivity ]
    | apply throws_liftRes; intros ? [m ->]%decrypt_Err_is_DecryptionError; done ].

Lemma throws_ensureDirectory dirPath :
  throws_only not_corrupted_meta (ensureDirectory dirPath).
Proof.
  unfold ensureDirectory, verifyPermission, mkdir, stat. throws_steps; throws_leaf.
Qed.

Lemma throws_ensureKeyfile dirPath :
  throws_only not_corrupted_meta (ensureKeyfile dirPath).
Proof.
  unfold ensureKeyfile, createKeyfile, verifyPermission, stat, readFile, writeFile, chmod.
  throws_steps; throws_leaf.
Qed.

Lemma throws_SecretStore_open dirPath :
  throws_only not_corrupted_meta (SecretStore.open dirPath).
Proof. unfold SecretStore.open, Database_open. throws_steps; throws_leaf. Qed.

Lemma throws_indexEntries entries :
  throws_only not_corrupted_meta (indexEntries entries).
Proof.
  induction entries as [|entry entries IH]; cbn [indexEntries]; [apply throws_ret|].
  apply throws_bind; [|intros _; exact IH].
  unfold indexEntry. throws_steps; throws_leaf.
Qed.

Lemma throws_buildKeyIndex : throws_only not_corrupted_meta buildKeyIndex.
Proof.
  unfold buildKeyIndex, SecretStore.findAll, db_rows.
  apply throws_bind; [apply throws_this_|intros st].
  apply throws_bind; [|intros entries; apply throws_indexEntries].
  throws_steps; throws_leaf.
Qed.

Lemma throws_updateIntegrity k st dirPath salt :
  throws_only not_corrupted_meta
    (updateIntegrity k (SecretStore.filePath st) dirPath salt
       (Some (SecretStore.checkpoint st))).
Proof.
  unfold updateIntegrity, computeIntegrityHmac, writeMetaFile, SecretStore.checkpoint,
    db_checkpoint, readFile, writeFile, chmod.
  throws_steps; throws_leaf.
Qed.

(** A call keeps what holds of the world. *)
Definition preserves {A} (I : World -> Prop) (c : M World A) : Prop :=
  forall w, I w -> I (snd (c w)).

Lemma preserves_ret {A} I (a : A) : preserves I (ret a).
Proof. by intros w. Qed.

Lemma preserves_throw {A} I (e : error) : preserves I (throw e : M World A).
Proof. by intros w. Qed.

Lemma preserves_gets {A} I (f : World -> A) : preserves I (gets f).
Proof. by intros w. Qed.

Lemma preserves_bind {A B} I (c : M World A) (k : A -> M World B) :
  preserves I c -> (forall a, preserves I (k a)) -> preserves I (bind c k).
Proof.
  intros Hc Hk w Hw. unfold bind. specialize (Hc w Hw).
  destruct (c w) as [[a|e] w1]; [by apply Hk | done].
Qed.

Lemma preserves_tryCatch {A} I (body : M World A) handler :
  preserves I body -> (forall e, preserves I (handler e)) ->
  preserves I (tryCatch body handler).
Proof.
  intros Hb Hh w Hw. unfold tryCatch. specialize (Hb w Hw).
  destruct (body w) as [[a|e] w1]; [done | by apply Hh].
Qed.

Lemma preserves_when I (b : bool) (c : M World unit) :
  preserves I c -> preserves I (when b c).
Proof. intros Hc. destruct b; [exact Hc | apply preserves_ret]. Qed.

(** [meta.json] of [dir] is the file [f]. *)
Definition meta_is (dir : jsstring) (f : File) (w : World) : Prop :=
  lookup_file (w_fs w) dir CONSTANTS.META_NAME = Some f.

Lemma preserves_log dir f ev : preserves (meta_is dir f) (log ev).
Proof. by intros w. Qed.

Lemma preserves_randomBytes dir f n : preserves (meta_is dir f) (randomBytes n).
Proof. by intros w. Qed.

Lemma preserves_stat dir f p : preserves (meta_is dir f) (stat p).
Proof.
  intros w Hw. unfold stat, bind, log, modify, gets, ret, throw. cbn [w_fs add_log].
  destruct p; repeat case_match; exact Hw.
Qed.

Lemma preserves_readFile dir f d name : preserves (meta_is dir f) (readFile d name).
Proof.
  intros w Hw. unfold readFile, bind, log, modify, gets, ret, throw. cbn [w_fs add_log].
  repeat case_match; exact Hw.
Qed.

Lemma preserves_mkdir dir f d mode : preserves (meta_is dir f) (mkdir d mode).
Proof.
  intros w Hw. unfold mkdir, bind, log, modify, gets, ret, throw. cbn [w_fs add_log w_env].
  destruct (w_fs w !! d) as [x|] eqn:Hd; [exact Hw|].
  unfold meta_is, lookup_file in *. cbn [w_fs set_fs add_log snd modify].
  destruct (decide (dir = d)) as [->|Hne].
  - by rewrite Hd in Hw.
  - by rewrite lookup_insert_ne.
Qed.

Lemma preserves_writeFile dir f d name data mode :
  name <> CONSTANTS.META_NAME -> preserves (meta_is dir f) (writeFile d name data mode).
Proof.
  intros Hne w Hw. unfold writeFile, bind, log, modify, gets, ret, throw.
  cbn [w_fs add_log w_env].
  destruct (w_fs w !! d) as [x|] eqn:Hd; [|exact Hw].
  unfold meta_is. cbn [w_fs set_fs add_log snd].
  by rewrite lookup_file_put_file_other.
Qed.

Lemma preserves_chmod dir f d name mode :
  name <> CONSTANTS.META_NAME -> preserves (meta_is dir f) (chmod d name mode).
Proof.
  intros Hne w Hw. unfold chmod, bind, log, modify, gets, ret, throw.
  cbn [w_fs add_log w_env].
  destruct (lookup_file (w_fs w) d name) as [x|] eqn:Hd; [|exact Hw].
  unfold meta_is. cbn [w_fs set_fs add_log snd].
  by rewrite lookup_file_put_file_other.
Qed.

Ltac preserves_steps :=
  repeat first
    [ apply preserves_ret | apply preserves_throw | apply preserves_gets
    | apply preserves_log | apply preserves_randomBytes | apply preserves_stat
    | apply preserves_readFile | apply preserves_mkdir
    | apply preserves_writeFile; discriminate
    | apply preserves_chmod; discriminate
    | apply preserves_when
    | apply preserves_bind; [|intros ?]
    | apply preserves_tryCatch; [|intros ?]
    | match goal with
      | |- preserves _ (if ?b then _ else _) => destruct b
      | |- preserves _ (match ?x with _ => _ end) => destruct x
      end ].

Lemma preserves_ensureDirectory dir f dirPath :
  preserves (meta_is dir f) (ensureDirectory dirPath).
Proof. unfold ensureDirectory, verifyPermission. preserves_steps. Qed.

Lemma preserves_ensureKeyfile dir f dirPath :
  preserves (meta_is dir f) (ensureKeyfile dirPath).
Proof. unfold ensureKeyfile, createKeyfile, verifyPermission. preserves_steps. Qed.

(** The salt that [generateSalt] draws in a world, as the string that
    [resolveSalt] returns. *)
Definition fresh_salt (w : World) : jsstring :=
  hex_encode (map (fun i => w_entropy w (w_spent w + i)%nat mod 256)
                  (seq 0 CONSTANTS.SALT_LENGTH)).

(** [resolveSalt] on a [meta.json] that does not parse: a fresh salt,
    and the flag of a new store. *)
Lemma resolveSalt_unparseable dir f (w : World) :
  meta_is dir f w ->
  JSON_parse (utf8_decode (file_bytes (f_data f))) = None ->
  resolveSalt dir w
  = (Ok (fresh_salt w, true),
     spend CONSTANTS.SALT_LENGTH (add_log (EvReadFile (meta_path dir)) w)).
Proof.
  intros Hmeta Hparse. unfold resolveSalt.
  rewrite (bind_eq_Ok _ _ _ _ _ (readMetaFile_run dir w)).
  unfold meta_is in Hmeta. rewrite Hmeta. cbn [fmap option_fmap option_map default id].
  rewrite Hparse. by destruct (truthy_opt _).
Qed.

Lemma run_cases {A} ψ (c : M World A) (w : World) :
  throws_only ψ c ->
  (exists a w1, c w = (Ok a, w1)) \/ (exists er w1, c w = (Err er, w1) /\ ψ er).
Proof.
  intros Hc. destruct (c w) as [[a|er] w1] eqn:E; [left; eauto|].
  right. exists er, w1. split; [done|]. by eapply Hc.
Qed.

Lemma SecretStore_close_run (st : Database) (w : World) :
  exists st' w1, SecretStore.close st w = (Ok st', w1).
Proof. unfold SecretStore.close, db_close, bind, log, modify, ret. eauto. Qed.

Lemma tryCatch_rethrow_inv {S A B} (body : M S A) (cleanup : M S B) (s s' : S)
  (r : Res A) :
  (forall s0, exists b s1, cleanup s0 = (Ok b, s1)) ->
  tryCatch body (fun error => let* _ := cleanup in throw error) s = (r, s') ->
  match r with
  | Ok a => body s = (Ok a, s')
  | Err er => exists s1, body s = (Err er, s1)
  end.
Proof.
  intros Hclean. unfold tryCatch, bind, throw.
  destruct (body s) as [[a|er] s1]; [by intros [= <- <-]|].
  destruct (Hclean s1) as (b & s2 & ->). intros [= <- <-]. eauto.
Qed.

(** A warning of [console.warn]. *)
Definition is_warning (ev : event) : Prop := exists text, ev = EvWarn text.

Lemma warns_indexEntries entries : emits_on snd is_warning (indexEntries entries).
Proof.
  induction entries as [|entry entries IH]; cbn [indexEntries]; [apply emits_ret|].
  apply emits_bind; [|intros _; exact IH].
  unfold indexEntry. emits_steps. apply emits_log. unfold is_warning. eauto.
Qed.

Lemma warns_buildKeyIndex : emits_on snd is_warning buildKeyIndex.
Proof.
  unfold buildKeyIndex, SecretStore.findAll.
  apply emits_bind; [apply emits_this_|intros st].
  apply emits_bind; [|intros entries; apply warns_indexEntries].
  emits_steps. apply emits_db_rows.
Qed.

Lemma SecretStore_open_log dirPath (w w1 : World) (st : Database) :
  SecretStore.open dirPath w = (Ok st, w1) ->
  w_log w1 = w_log w ++ [EvDbOpen dirPath].
Proof.
  unfold SecretStore.open, tryCatch.
  destruct (Database_open dirPath w) as [[st'|er] w2] eqn:Ho; [|discriminate].
  intros [= <- <-]. revert Ho.
  unfold Database_open, bind, log, modify, gets, ret, throw.
  cbn [w_fs add_log w_env].
  repeat case_match; intros [=]; by subst.
Qed.

(** [verifyIntegrity] begins with a read of [meta.json]. *)
Lemma verifyIntegrity_reads_meta_first k dbFilePath dirPath (st : Database) (w : World) :
  exists t,
    w_log (snd (verifyIntegrity k dbFilePath dirPath (Some (SecretStore.checkpoint st)) w))
    = w_log w ++ EvReadFile (meta_path dirPath) :: t.
Proof.
  unfold verifyIntegrity.
  rewrite (bind_eq_Ok _ _ _ _ _ (readMetaFile_run dirPath w)).
  match goal with
  | |- context [snd (?c ?w1)] =>
      assert (Hc : emits_on id (fun _ => True) c);
        [|destruct (Hc w1) as (t & Hlog & _)]
  end.
  { unfold computeIntegrityHmac, readFile, SecretStore.checkpoint, db_checkpoint.
    emits_steps; apply emits_log; done. }
  exists t. cbn [id] in Hlog. rewrite Hlog. cbn [w_log add_log].
  by rewrite <- app_assoc.
Qed.

(** C3. A [meta.json] that is there and does not parse is not reported:
    [resolveSalt] discards it and draws a fresh salt for a new store, and
    [open] then skips the verification.  An engine that [open] returns has
    the salt that [resolveSalt] drew in the world that [ensureDirectory]
    and [ensureKeyfile] left, and the key of that salt and keyfile; from
    there [open] has read [meta.json] once, opened the database, warned
    of the rows it could not index, made a checkpoint, read the database
    and written [meta.json] anew, with that salt and a seal over the rows
    of the database, and nothing else: [verifyIntegrity], which begins
    with a read of [meta.json], has not run.  An error that [open] throws
    is not the one that [verifyIntegrity] has for a metadata file that
    does not parse: if it is an [IntegrityError] at all, a checkpoint
    failed. *)
Theorem open_takes_unparseable_meta_for_a_new_store (options : option OpenOptions)
  (w w' : World) (dir : jsstring) (f : File) (r : Res Engine) :
  resolveStoragePath (w_env w) options = Ok dir ->
  meta_is dir f w ->
  JSON_parse (utf8_decode (file_bytes (f_data f))) = None ->
  (exists w1, resolveSalt dir w = (Ok (fresh_salt w, true), w1))
  /\ (forall k st w0, exists t,
        w_log (snd (verifyIntegrity k (SecretStore.filePath st) dir
                      (Some (SecretStore.checkpoint st)) w0))
        = w_log w0 ++ EvReadFile (meta_path dir) :: t)
  /\ (open options w = (r, w') ->
      match r with
      | Ok e =>
          dirPath e = dir
          /\ (exists w1 keyfile w2 warnings tail,
                ensureDirectory dir w = (Ok tt, w1)
                /\ ensureKeyfile dir w1 = (Ok keyfile, w2)
                /\ resolveSalt dir w2
                   = (Ok (fresh_salt w2, true),
                      spend CONSTANTS.SALT_LENGTH
                        (add_log (EvReadFile (meta_path dir)) w2))
                /\ salt e = fresh_salt w2
                /\ masterKey e
                   = deriveMasterKey (getMachineIdentity (w_env w)) keyfile
                       (hex_decode (fresh_salt w2))
                /\ w_log w'
                   = w_log w2 ++ EvReadFile (meta_path dir) :: EvDbOpen dir :: warnings
                       ++ EvCheckpoint dir :: db_read dir
                       :: EvWriteFile (meta_path dir) :: tail
                /\ Forall is_warning warnings
                /\ chmod_or_nothing dir tail)
          /\ meta_holds w' dir
               (meta_document (salt e)
                  (hmac_buffer (masterKey e) (sha256 (sqlite_image (rows_of w' dir)))))
      | Err er => not_corrupted_meta er /\ er <> corrupted_meta
      end).
Proof.
  intros Hpath Hmeta Hparse. split.
  { eexists. by apply (resolveSalt_unparseable dir f). }
  split.
  { intros k st w0. apply verifyIntegrity_reads_meta_first. }
  assert (Hfail : forall er, not_corrupted_meta er ->
                    not_corrupted_meta er /\ er <> corrupted_meta)
    by (intros er Her; split; [done | by apply not_corrupted_meta_ne]).
  unfold open. intros Hrun.
  rewrite (bind_eq_Ok (gets w_env) _ w w (w_env w) eq_refl) in Hrun.
  rewrite Hpath in Hrun.
  rewrite (bind_eq_Ok (liftRes (Ok dir)) _ w w dir eq_refl) in Hrun.
  destruct (run_cases _ (ensureDirectory dir) w (throws_ensureDirectory dir))
    as [(a1 & w1 & E1) | (er & w1 & E1 & Her)].
  2:{ rewrite (bind_eq_Err _ _ _ _ _ E1) in Hrun. injection Hrun as <- <-. auto. }
  rewrite (bind_eq_Ok _ _ _ _ _ E1) in Hrun.
  pose proof (preserves_ensureDirectory dir f dir w Hmeta) as Hmeta1.
  rewrite E1 in Hmeta1. cbn [snd] in Hmeta1. destruct a1.
  destruct (run_cases _ (ensureKeyfile dir) w1 (throws_ensureKeyfile dir))
    as [(keyfile & w2 & E2) | (er & w2 & E2 & Her)].
  2:{ rewrite (bind_eq_Err _ _ _ _ _ E2) in Hrun. injection Hrun as <- <-. auto. }
  rewrite (bind_eq_Ok _ _ _ _ _ E2) in Hrun.
  pose proof (preserves_ensureKeyfile dir f dir w1 Hmeta1) as Hmeta2.
  rewrite E2 in Hmeta2. cbn [snd] in Hmeta2.
  pose proof (resolveSalt_unparseable dir f w2 Hmeta2 Hparse) as E3.
  rewrite (bind_eq_Ok _ _ _ _ _ E3) in Hrun.
  cbv beta iota in Hrun.
  match type of Hrun with
  | bind (SecretStore.open dir) _ ?w3 = _ =>
      destruct (run_cases _ (SecretStore.open dir) w3 (throws_SecretStore_open dir))
        as [(st & w4 & E4) | (er & w4 & E4 & Her)]
  end.
  2:{ rewrite (bind_eq_Err _ _ _ _ _ E4) in Hrun. injection Hrun as <- <-. auto. }
  rewrite (bind_eq_Ok _ _ _ _ _ E4) in Hrun.
  pose proof (SecretStore_open_log _ _ _ _ E4) as Hlog4.
  apply SecretStore_open_Ok in E4 as ->.
  apply tryCatch_rethrow_inv in Hrun; [|apply SecretStore_close_run].
  cbn [negb] in Hrun. destruct r as [e|er].
  - apply bind_Ok in Hrun as (a2 & w5 & Hret & Hrun).
    injection Hret as _ <-.
    apply bind_Ok in Hrun as ([a3 e1] & w6 & Hbuild & Hrun).
    apply bind_Ok in Hrun as (a4 & w7 & Hupdate & Hrun).
    injection Hrun as <- <-.
    apply call_Ok in Hbuild.
    match type of Hbuild with
    | buildKeyIndex ?s0 = _ =>
        pose proof (warns_buildKeyIndex s0) as (warnings & Hlog6 & Hwarn)
    end.
    rewrite Hbuild in Hlog6. cbn [fst snd] in Hlog6.
    apply buildKeyIndex_Ok_fields in Hbuild as [idx ->].
    cbn [dirPath salt masterKey set_keyIndex when] in *.
    apply updateIntegrity_checkpoint_Ok in Hupdate
      as (m & main & view & tail & _ & Hfile & Hlog7 & Htail & Hdoc).
    cbn [db_dir] in Hfile, Hlog7. unfold rows_of. rewrite Hfile.
    split; [done|]. split; [|done].
    exists w1, keyfile, w2, warnings, tail.
    split; [exact E1|]. split; [exact E2|]. split; [exact E3|].
    split; [done|]. split; [done|]. split; [|by split].
    rewrite Hlog7, Hlog6, Hlog4. cbn [w_log spend add_log].
    by rewrite <- !app_assoc.
  - destruct Hrun as [w5 Hrun]. apply Hfail.
    match type of Hrun with
    | ?c _ = _ => assert (Hthrows : throws_only not_corrupted_meta c)
    end.
    { apply throws_bind; [apply throws_ret | intros _].
      apply throws_bind; [apply throws_call, throws_buildKeyIndex | intros [_ e1]].
      apply throws_bind; [apply throws_updateIntegrity | intros _; apply throws_ret]. }
    eapply Hthrows, Hrun.
Qed.


(** ** An instance on a database that is there *)

(** [open] leaves an instance that is open, whose connection is the one
    to its own directory, and a database file in that directory. *)
Definition healthy (e : Engine) (w : World) : Prop :=
  closed e = false
  /\ store e = {| db_dir := dirPath e; db_closed := false |}
  /\ exists m main view, db_file w (dirPath e) = Some (m, main, view).

Lemma liftW_run {A} (c : M World A) (e : Engine) (w w' : World) (r : Res A) :
  c w = (r, w') -> liftW c (e, w) = (r, (e, w')).
Proof. intros Hc. unfold liftW. cbn [fst snd]. by rewrite Hc. Qed.

Lemma encrypt_run (k : bytes) (plaintext : jsstring) (w : World) :
  exists payload, encrypt k plaintext w = (Ok payload, spend CONSTANTS.IV_LENGTH w).
Proof. unfold encrypt, randomBytes, bind, ret. eauto. Qed.

Lemma db_run_run (db : Database) f w m main view :
  db_closed db = false -> db_file w (db_dir db) = Some (m, main, view) ->
  db_run db f w
  = (Ok (snd (f view)),
     set_fs (put_file (db_dir db) CONSTANTS.DB_NAME
               {| f_mode := m; f_data := Sqlite main (fst (f view)) |} (w_fs w))
       (add_log (EvDbRun (db_dir db)) w)).
Proof.
  intros Hopen Hf. apply db_file_lookup in Hf.
  unfold db_run, bind, log, modify, gets, ret. rewrite Hopen.
  cbn [w_fs add_log]. by rewrite Hf.
Qed.

Lemma db_file_after_run w dir m main view view' :
  db_file w dir = Some (m, main, view) ->
  db_file (set_fs (put_file dir CONSTANTS.DB_NAME
                     {| f_mode := m; f_data := Sqlite main view' |} (w_fs w))
             (add_log (EvDbRun dir) w)) dir
  = Some (m, main, view').
Proof. intros Hf. apply db_file_set_fs_put_db. by eapply db_file_Some_dir. Qed.

Lemma upsert_run (st : Database) entry w m main view :
  db_closed st = false -> db_file w (db_dir st) = Some (m, main, view) ->
  SecretStore.upsert st entry w
  = (Ok tt,
     set_fs (put_file (db_dir st) CONSTANTS.DB_NAME
               {| f_mode := m;
                  f_data := Sqlite main (SecretStore.upsert_rows entry (w_now w / 1000) view) |}
               (w_fs w))
       (add_log (EvDbRun (db_dir st)) w)).
Proof.
  intros Hopen Hf. unfold SecretStore.upsert, now_seconds.
  rewrite (bind_eq_Ok (gets _) _ w w (w_now w / 1000) eq_refl).
  erewrite bind_eq_Ok by (by apply db_run_run). done.
Qed.

(** With no checkpoint to make, the seal of a database file that is
    there is always written. *)
Lemma updateIntegrity_plain_runs k dir salt w m main view :
  db_file w dir = Some (m, main, view) ->
  fst (updateIntegrity k (dir, CONSTANTS.DB_NAME) dir salt None w) = Ok tt.
Proof.
  intros Hf. apply db_file_lookup in Hf as Hl.
  pose proof (lookup_file_Some_dir _ _ _ _ Hl) as [d Hd].
  unfold updateIntegrity, computeIntegrityHmac, writeMetaFile, readFile, writeFile,
    chmod, when, bind, log, modify, gets, ret, throw.
  cbn [fst snd w_fs add_log w_env set_fs]. rewrite Hl. cbn [w_fs add_log]. rewrite Hd.
  cbn [w_fs add_log w_env set_fs fst snd].
  destruct (win32 (w_env w)); cbn [negb]; [done|].
  cbn [w_fs add_log w_env set_fs fst snd].
  rewrite lookup_file_put_file_eq by eauto. done.
Qed.

Lemma updateIntegrity_plain_run k dir salt w m main view :
  db_file w dir = Some (m, main, view) ->
  exists w', updateIntegrity k (dir, CONSTANTS.DB_NAME) dir salt None w = (Ok tt, w')
             /\ forall d, db_file w' d = db_file w d.
Proof.
  intros Hf. pose proof (updateIntegrity_plain_runs k dir salt w m main view Hf) as Hok.
  pose proof (updateIntegrity_db_file k (dir, CONSTANTS.DB_NAME) dir salt w) as Hfr.
  destruct (updateIntegrity k (dir, CONSTANTS.DB_NAME) dir salt None w) as [r w'].
  cbn [fst snd] in *. subst r. eauto.
Qed.

Lemma healthy_frame (e : Engine) (w w' : World) (idx : gmap jsstring jsstring) :
  healthy e w -> is_Some (db_file w' (dirPath e)) -> healthy (set_keyIndex idx e) w'.
Proof.
  intros (Hopen & Hstore & _) [[[m main] view] Hf].
  split; [done|]. split; [done|]. cbn [dirPath set_keyIndex]. eauto.
Qed.

(** [set] on such an instance, step by step. *)
Lemma set_run (e : Engine) (w : World) (name value : jsstring) :
  healthy e w ->
  exists w',
    set name value (e, w)
    = (Ok tt, (set_keyIndex (<[hmac (masterKey e) name := name]> (keyIndex e)) e, w'))
    /\ healthy (set_keyIndex (<[hmac (masterKey e) name := name]> (keyIndex e)) e) w'.
Proof.
  intros Hh. pose proof Hh as (Hopen & Hstore & m & main & view & Hf).
  unfold set. erewrite bind_eq_Ok by (by apply ensureOpen_open).
  rewrite bind_hashKey, bind_this_. cbn [fst snd].
  destruct (encrypt_run (masterKey e) name w) as [pk Hpk].
  erewrite bind_eq_Ok by (apply liftW_run, Hpk).
  destruct (encrypt_run (masterKey e) value (spend CONSTANTS.IV_LENGTH w)) as [pv Hpv].
  erewrite bind_eq_Ok by (apply liftW_run, Hpv).
  rewrite bind_this_. cbn [fst snd]. rewrite Hstore.
  set (w2 := spend CONSTANTS.IV_LENGTH (spend CONSTANTS.IV_LENGTH w)).
  assert (Hf2 : db_file w2 (dirPath e) = Some (m, main, view))
    by (unfold w2; by rewrite !db_file_spend).
  match goal with
  | |- context [SecretStore.upsert ?st ?entry] =>
      pose proof (upsert_run st entry w2 m main view eq_refl Hf2) as Hrun
  end.
  cbn [db_dir] in Hrun.
  match type of Hrun with
  | _ = (_, ?w3) =>
      assert (Hf3 : exists view', db_file w3 (dirPath e) = Some (m, main, view'))
        by (eexists; apply (db_file_after_run w2 (dirPath e) m main view); exact Hf2);
      set (w3' := w3) in *
  end.
  erewrite (bind_eq_Ok (liftW _)) by (apply liftW_run, Hrun).
  rewrite bind_update_this, !bind_this_. cbn [fst snd masterKey dirPath salt set_keyIndex].
  destruct Hf3 as [view' Hf3].
  destruct (updateIntegrity_plain_run (masterKey e) (dirPath e) (salt e) w3' m main view' Hf3)
    as (w4 & Hupd & Hfr).
  unfold SecretStore.filePath. cbn [db_dir].
  exists w4. split; [by apply liftW_run|].
  apply (healthy_frame e w); [done|]. rewrite Hfr, Hf3. eauto.
Qed.



(** What [get] makes of the row under the hash of a name. *)
Definition read_row (k : bytes) (h : jsstring) (row : option Row) : Res (option jsstring) :=
  match row with
  | None => Ok None
  | Some r =>
      match decrypt k (iv r) (cipher r) (Some h) with
      | Ok value => Ok (Some value)
      | Err er => Err er
      end
  end.

Lemma get_run (e : Engine) (w : World) (name : jsstring) :
  healthy e w ->
  get name (e, w)
  = (read_row (masterKey e) (hmac (masterKey e) name)
       (rows_of w (dirPath e) !! hmac (masterKey e) name), (e, w)).
Proof.
  intros (Hopen & Hstore & m & main & view & Hf).
  unfold get. erewrite bind_eq_Ok by (by apply ensureOpen_open).
  rewrite bind_hashKey, bind_this_. cbn [fst snd]. rewrite Hstore.
  erewrite bind_eq_Ok
    by (apply liftW_run; by apply (findByHash_run _ w _ m main view)).
  rewrite (rows_of_db_file _ _ _ _ _ Hf).
  destruct (view !! _) as [r|]; cbn [fmap option_fmap option_map read_row]; [|done].
  rewrite bind_this_. cbn [fst snd columns]. unfold liftRes, bind, ret, throw.
  by destruct (decrypt _ _ _ _).
Qed.

(** [get] never changes the instance or the world.  It returns [null]
    exactly when the table has no row under the hash of the name, and then
    [getOrThrow] throws [KeyNotFoundError] with the name in its message;
    for a row that is there it returns what [decrypt] makes of the row, or
    throws the [DecryptionError] of [decrypt]. *)
Theorem get_reads_the_row (e : Engine) (w : World) (name : jsstring) :
  healthy e w ->
  let h := hmac (masterKey e) name in
  snd (get name (e, w)) = (e, w)
  /\ snd (getOrThrow name (e, w)) = (e, w)
  /\ (fst (get name (e, w)) = Ok None <-> rows_of w (dirPath e) !! h = None)
  /\ (rows_of w (dirPath e) !! h = None ->
      fst (getOrThrow name (e, w)) = Err (KeyNotFoundError name)
      /\ message (KeyNotFoundError name) = u "Key not found: " ++ dquote ++ name ++ dquote)
  /\ (forall r value,
        rows_of w (dirPath e) !! h = Some r ->
        decrypt (masterKey e) (iv r) (cipher r) (Some h) = Ok value ->
        fst (get name (e, w)) = Ok (Some value)
        /\ fst (getOrThrow name (e, w)) = Ok value)
  /\ (forall r er,
        rows_of w (dirPath e) !! h = Some r ->
        decrypt (masterKey e) (iv r) (cipher r) (Some h) = Err er ->
        fst (get name (e, w)) = Err er
        /\ exists m, er = DecryptionError m (Some h)).
Proof.
  intros Hh h. pose proof (get_run e w name Hh) as Hget. fold h in Hget.
  unfold getOrThrow, bind. rewrite Hget. cbn [fst snd].
  split; [done|]. split.
  { by destruct (read_row _ _ _) as [[v|]|er]. }
  split.
  { destruct (rows_of w (dirPath e) !! h) as [r|]; cbn [read_row]; [|done].
    by destruct (decrypt _ _ _ _). }
  split.
  { intros ->. cbn [read_row]. done. }
  split.
  - intros r value -> Hdec. cbn [read_row]. by rewrite Hdec.
  - intros r er -> Hdec. cbn [read_row]. rewrite Hdec. split; [done|].
    by apply decrypt_Err_is_DecryptionError in Hdec.
Qed.

Lemma put_file_id fs dir name f :
  lookup_file fs dir name = Some f -> put_file dir name f fs = fs.
Proof.
  unfold lookup_file, put_file. destruct (fs !! dir) as [d|] eqn:Hd; [|done].
  intros Hf. rewrite (insert_id (d_files d)) by done.
  destruct d. by apply insert_id.
Qed.

Lemma deleteByHash_run (st : Database) (h : jsstring) w m main view :
  db_closed st = false -> db_file w (db_dir st) = Some (m, main, view) ->
  SecretStore.deleteByHash st h w
  = (Ok (bool_decide (is_Some (view !! h))),
     set_fs (put_file (db_dir st) CONSTANTS.DB_NAME
               {| f_mode := m; f_data := Sqlite main (base.delete h view) |} (w_fs w))
       (add_log (EvDbRun (db_dir st)) w)).
Proof.
  intros Hopen Hf. unfold SecretStore.deleteByHash.
  erewrite bind_eq_Ok by (by apply db_run_run). cbn [fst snd]. unfold ret.
  by destruct (view !! h).
Qed.

Lemma has_run (e : Engine) (w : World) (name : jsstring) :
  closed e = false ->
  has name (e, w)
  = (Ok (bool_decide (is_Some (keyIndex e !! hmac (masterKey e) name))), (e, w)).
Proof.
  intros Hopen. unfold has. erewrite bind_eq_Ok by (by apply ensureOpen_open).
  by rewrite bind_hashKey, bind_this_.
Qed.


Lemma delete_stored_run (e : Engine) (w : World) (name : jsstring) (r : Row) :
  healthy e w ->
  rows_of w (dirPath e) !! hmac (masterKey e) name = Some r ->
  exists w',
    delete name (e, w)
    = (Ok true, (set_keyIndex (base.delete (hmac (masterKey e) name) (keyIndex e)) e, w'))
    /\ healthy (set_keyIndex (base.delete (hmac (masterKey e) name) (keyIndex e)) e) w'
    /\ rows_of w' (dirPath e)
       = base.delete (hmac (masterKey e) name) (rows_of w (dirPath e)).
Proof.
  intros Hh Hrow. pose proof Hh as (Hopen & Hstore & m & main & view & Hf).
  rewrite (rows_of_db_file _ _ _ _ _ Hf) in *.
  set (h := hmac (masterKey e) name) in *.
  set (w1 := set_fs (put_file (dirPath e) CONSTANTS.DB_NAME
                       {| f_mode := m; f_data := Sqlite main (base.delete h view) |}
                       (w_fs w)) (add_log (EvDbRun (dirPath e)) w)).
  assert (Hf1 : db_file w1 (dirPath e) = Some (m, main, base.delete h view))
    by (by apply (db_file_after_run w _ m main view)).
  destruct (updateIntegrity_plain_run (masterKey e) (dirPath e) (salt e) w1 _ _ _ Hf1)
    as (w' & Hupd & Hfr).
  assert (Hf' : db_file w' (dirPath e) = Some (m, main, base.delete h view))
    by (by rewrite Hfr).
  exists w'. split.
  { unfold delete. erewrite bind_eq_Ok by (by apply ensureOpen_open).
    rewrite bind_hashKey, bind_this_. cbn [fst snd]. rewrite Hstore. fold h.
    erewrite bind_eq_Ok
      by (apply liftW_run; by apply (deleteByHash_run _ h w m main view)).
    cbn [db_dir]. fold w1. rewrite Hrow.
    rewrite bool_decide_eq_true_2 by eauto.
    erewrite (bind_eq_Ok _ _ (e, w1) (set_keyIndex (base.delete h (keyIndex e)) e, w') tt);
      [done|].
    rewrite bind_update_this, !bind_this_. cbn [fst snd masterKey dirPath salt set_keyIndex].
    unfold SecretStore.filePath. cbn [db_dir]. by apply liftW_run. }
  split; [|by rewrite (rows_of_db_file _ _ _ _ _ Hf')].
  apply (healthy_frame e w); [done|]. rewrite Hf'. eauto.
Qed.

Lemma delete_missing_run (e : Engine) (w : World) (name : jsstring) :
  healthy e w ->
  rows_of w (dirPath e) !! hmac (masterKey e) name = None ->
  delete name (e, w) = (Ok false, (e, add_log (EvDbRun (dirPath e)) w)).
Proof.
  intros (Hopen & Hstore & m & main & view & Hf) Hrow.
  rewrite (rows_of_db_file _ _ _ _ _ Hf) in Hrow.
  unfold delete. erewrite bind_eq_Ok by (by apply ensureOpen_open).
  rewrite bind_hashKey, bind_this_. cbn [fst snd]. rewrite Hstore.
  erewrite bind_eq_Ok
    by (apply liftW_run; by apply (deleteByHash_run _ _ w m main view)).
  cbn [db_dir]. rewrite Hrow, delete_id by done.
  rewrite bool_decide_eq_false_2 by (by intros [? [=]]).
  unfold bind, ret. do 3 f_equal.
  rewrite put_file_id by (by apply db_file_lookup).
  by destruct w.
Qed.


(** [delete] of a name that has no row returns [false] and writes
    nothing: the instance is as it was, and the world is as it was but
    for the statement that ran; the seal is not touched. *)
Theorem delete_of_a_name_that_is_not_stored (e : Engine) (w : World) (name : jsstring) :
  healthy e w ->
  rows_of w (dirPath e) !! hmac (masterKey e) name = None ->
  delete name (e, w) = (Ok false, (e, add_log (EvDbRun (dirPath e)) w))
  /\ w_fs (add_log (EvDbRun (dirPath e)) w) = w_fs w.
Proof. intros Hh Hrow. split; [by apply delete_missing_run | done]. Qed.

(** A name with another hash is out of the reach of [set] and [delete]:
    [get] and [has] answer for it as they did before. *)
Theorem other_names_are_left_alone (e : Engine) (w : World) (name other : jsstring) :
  healthy e w ->
  hmac (masterKey e) other <> hmac (masterKey e) name ->
  (forall value e' w',
     set name value (e, w) = (Ok tt, (e', w')) ->
     fst (get other (e', w')) = fst (get other (e, w))
     /\ fst (has other (e', w')) = fst (has other (e, w)))
  /\ (forall b e' w',
        delete name (e, w) = (Ok b, (e', w')) ->
        fst (get other (e', w')) = fst (get other (e, w))
        /\ fst (has other (e', w')) = fst (has other (e, w))).
Proof.
  intros Hh Hne. pose proof Hh as (Hopen & Hstore & m & main & view & Hf).
  split.
  - intros value e' w' Hset.
    destruct (set_run e w name value Hh) as (w1 & Hset1 & Hh').
    rewrite Hset in Hset1. injection Hset1 as -> <-.
    apply set_Ok in Hset
      as (_ & _ & _ & m' & main' & view' & now & ivk & ivv & _ & Hf0 & Hf').
    rewrite Hstore in Hf0, Hf'. cbn [db_dir] in Hf0, Hf'.
    rewrite Hf in Hf0. injection Hf0 as <- <- <-.
    rewrite (get_run _ w' other Hh'), (get_run e w other Hh), !has_run by done.
    cbn [fst masterKey dirPath keyIndex set_keyIndex].
    rewrite (rows_of_db_file _ _ _ _ _ Hf'), (rows_of_db_file _ _ _ _ _ Hf).
    unfold SecretStore.upsert_rows. cbn [SecretStore.up_key_hash].
    by rewrite !lookup_insert_ne.
  - intros b e' w' Hdel.
    destruct (rows_of w (dirPath e) !! hmac (masterKey e) name) as [r|] eqn:Hrow.
    + destruct (delete_stored_run e w name r Hh Hrow)
        as (w1 & Hdel1 & Hh' & Hrows).
      rewrite Hdel in Hdel1. injection Hdel1 as -> -> <-.
      rewrite (get_run _ w' other Hh'), (get_run e w other Hh), !has_run by done.
      cbn [fst masterKey dirPath keyIndex set_keyIndex].
      by rewrite Hrows, !lookup_delete_ne.
    + rewrite (delete_missing_run e w name Hh Hrow) in Hdel.
      injection Hdel as _ <- <-.
      assert (Hh' : healthy e (add_log (EvDbRun (dirPath e)) w)).
      { split; [done|]. split; [done|]. rewrite db_file_add_log. eauto. }
      rewrite (get_run e _ other Hh'), (get_run e w other Hh).
      unfold rows_of. by rewrite db_file_add_log, !has_run.
Qed.

(** ** Encryption there and back *)

(** The bytes that [randomBytes(n)] returns in a world. *)
Definition entropy_bytes (n : nat) (w : World) : bytes :=
  map (fun i => w_entropy w (w_spent w + i)%nat mod 256) (seq 0 n).

(** [encrypt] never throws and takes its IV from the next twelve bytes
    of [randomBytes], so that two calls in a row draw two IVs one after
    the other; [decrypt] of what it returns, under the same key, is the
    plaintext after a trip through UTF-8, which is the plaintext itself
    when it is well formed, whatever [keyHash] is. *)
Theorem decrypt_of_encrypt (k : bytes) (plaintext : jsstring) (keyHash : option jsstring)
  (w : World) :
  length k = CONSTANTS.KEY_LENGTH ->
  exists payload,
    encrypt k plaintext w = (Ok payload, spend CONSTANTS.IV_LENGTH w)
    /\ payload_iv payload = entropy_bytes CONSTANTS.IV_LENGTH w
    /\ length (payload_iv payload) = CONSTANTS.IV_LENGTH
    /\ (CONSTANTS.AUTH_TAG_LENGTH <= length (payload_ciphertext payload))%nat
    /\ decrypt k (payload_iv payload) (payload_ciphertext payload) keyHash
       = Ok (utf8_decode (utf8_encode plaintext))
    /\ (well_formed plaintext = true ->
        decrypt k (payload_iv payload) (payload_ciphertext payload) keyHash = Ok plaintext).
Proof.
  intros Hk. eexists. split; [reflexivity|]. cbn [payload_iv payload_ciphertext].
  split; [reflexivity|].
  split; [by rewrite length_map, length_seq|].
  split; [rewrite length_app, seal_tag_length; lia|].
  pose proof (decrypt_sealed k (entropy_bytes CONSTANTS.IV_LENGTH w) plaintext keyHash Hk)
    as Hdec.
  cbn zeta in Hdec. split; [exact Hdec|].
  intros Hwf. rewrite (utf8_roundtrip plaintext Hwf) in Hdec. exact Hdec.
Qed.

(** ** Hexadecimal there and back *)

Lemma hex_value_hex_digit (n : Z) : 0 <= n < 16 -> hex_value (hex_digit n) = Some n.
Proof.
  intros Hn. unfold hex_value, hex_digit.
  destruct (Z.ltb_spec n 10).
  - replace ((48 <=? 48 + n) && (48 + n <=? 57)) with true
      by (symmetry; apply andb_true_iff; split; apply Z.leb_le; lia).
    f_equal. lia.
  - replace ((48 <=? 87 + n) && (87 + n <=? 57)) with false
      by (symmetry; apply andb_false_iff; right; apply Z.leb_gt; lia).
    replace ((97 <=? 87 + n) && (87 + n <=? 102)) with true
      by (symmetry; apply andb_true_iff; split; apply Z.leb_le; lia).
    f_equal. lia.
Qed.

(** [Buffer.from(buf.toString("hex"), "hex")] is [buf]: two lower case
    digits a byte, and the bytes come back.  So the salt that a new store
    gets is the hexadecimal of the 32 bytes that [generateSalt] drew, and
    the bytes that [open] hands to scrypt are those 32 bytes. *)
Theorem hex_decode_of_hex_encode (bs : bytes) (w : World) :
  Forall (fun b => 0 <= b < 256) bs ->
  hex_decode (hex_encode bs) = bs
  /\ length (hex_encode bs) = (2 * length bs)%nat
  /\ Forall (fun c => 48 <= c <= 57 \/ 97 <= c <= 102) (hex_encode bs)
  /\ hex_decode (fresh_salt w) = entropy_bytes CONSTANTS.SALT_LENGTH w
  /\ length (hex_decode (fresh_salt w)) = CONSTANTS.SALT_LENGTH.
Proof.
  intros Hbs.
  assert (Hround : forall l, Forall (fun b => 0 <= b < 256) l ->
                     hex_decode (hex_encode l) = l).
  { induction 1 as [|b l Hb _ IH]; [done|].
    cbn [hex_encode flat_map app hex_decode]. fold (hex_encode l).
    rewrite !hex_value_hex_digit by zlia. rewrite IH. f_equal. zlia. }
  assert (Hrandom : forall n, Forall (fun b => 0 <= b < 256) (entropy_bytes n w)).
  { intros n. apply Forall_forall. intros b Hb. unfold entropy_bytes in Hb.
    apply list_elem_of_fmap in Hb as (i & -> & _). zlia. }
  split; [by apply Hround|]. split.
  { induction bs as [|b l IH]; [done|].
    cbn [hex_encode flat_map app length]. fold (hex_encode l).
    apply Forall_cons in Hbs as [_ Hl]. rewrite (IH Hl). lia. }
  split.
  { induction Hbs as [|b l Hb _ IH]; [constructor|].
    cbn [hex_encode flat_map app]. fold (hex_encode l).
    assert (Hdigit : forall n, 0 <= n < 16 ->
                       48 <= hex_digit n <= 57 \/ 97 <= hex_digit n <= 102).
    { intros n Hn. unfold hex_digit. destruct (Z.ltb_spec n 10); lia. }
    constructor; [apply Hdigit; zlia|]. constructor; [apply Hdigit; zlia | exact IH]. }
  split; [by apply Hround|].
  unfold fresh_salt. fold (entropy_bytes CONSTANTS.SALT_LENGTH w).
  rewrite (Hround _ (Hrandom _)). unfold entropy_bytes. by rewrite length_map, length_seq.
Qed.

(** ** The verdict of [verifyIntegrity] *)




(** ** The keyfile and the directory *)

Lemma lookup_file_put_file_dir fs dir name f (d : Dir) :
  fs !! dir = Some d ->
  put_file dir name f fs !! dir
  = Some {| d_mode := d_mode d; d_files := <[name := f]> (d_files d) |}.
Proof. intros Hd. unfold put_file. rewrite Hd. by rewrite lookup_insert_eq. Qed.

Lemma ensureKeyfile_create_run (dir : jsstring) (w : World) :
  is_Some (w_fs w !! dir) ->
  lookup_file (w_fs w) dir CONSTANTS.KEYFILE_NAME = None ->
  let keyfileData := entropy_bytes CONSTANTS.KEYFILE_LENGTH w in
  exists w' mode,
    ensureKeyfile dir w = (Ok keyfileData, w')
    /\ length keyfileData = 32%nat
    /\ lookup_file (w_fs w') dir CONSTANTS.KEYFILE_NAME
       = Some {| f_mode := mode; f_data := Raw keyfileData |}
    /\ (win32 (w_env w) = false -> mode = 256)
    /\ w_spent w' = (w_spent w + 32)%nat
    /\ w_env w' = w_env w
    /\ d_mode <$> w_fs w' !! dir = d_mode <$> w_fs w !! dir.
Proof.
  intros [d Hd] Hnone keyfileData.
  assert (Hlen : length keyfileData = 32%nat)
    by (unfold keyfileData, entropy_bytes; by rewrite length_map, length_seq).
  destruct (win32 (w_env w)) eqn:Hwin.
  - (* Windows: no check, no chmod *)
    set (f := {| f_mode := Z.ldiff EXPECTED_MODES.keyfile (umask (w_env w));
                 f_data := Raw keyfileData |}).
    set (w' := set_fs (put_file dir CONSTANTS.KEYFILE_NAME f (w_fs w))
                 (add_log (EvWriteFile (FilePath dir CONSTANTS.KEYFILE_NAME))
                    (spend CONSTANTS.KEYFILE_LENGTH
                       (add_log (EvReadFile (FilePath dir CONSTANTS.KEYFILE_NAME)) w)))).
    assert (Hf' : lookup_file (w_fs w') dir CONSTANTS.KEYFILE_NAME = Some f)
      by (apply lookup_file_put_file_eq; eauto).
    exists w', (f_mode f). split.
    { unfold ensureKeyfile, tryCatch, when, readFile, createKeyfile, writeFile, chmod,
        randomBytes, bind, log, modify, gets, ret, throw.
      cbn [w_env w_fs add_log spend set_fs]. rewrite Hwin. cbn [negb].
      cbn [w_env w_fs add_log spend set_fs]. rewrite Hnone.
      cbn [isFileNotFoundError ENOENT]. rewrite bool_decide_eq_true_2 by done.
      cbn [w_env w_fs add_log spend set_fs w_spent w_entropy]. rewrite Hd.
      unfold lookup_file in Hnone. rewrite Hd in Hnone. rewrite Hnone.
      cbn [w_env w_fs add_log spend set_fs]. rewrite Hwin. done. }
    split; [done|]. split; [exact Hf'|]. split; [done|]. split; [done|].
    split; [done|]. unfold w'. cbn [w_fs set_fs].
    by rewrite (lookup_file_put_file_dir _ _ _ _ d Hd), Hd.
  - (* POSIX: the check finds no file, chmod follows the write *)
    set (f := {| f_mode := EXPECTED_MODES.keyfile; f_data := Raw keyfileData |}).
    set (w1 := add_log (EvStat (FilePath dir CONSTANTS.KEYFILE_NAME)) w).
    set (fs1 := put_file dir CONSTANTS.KEYFILE_NAME
                  {| f_mode := Z.ldiff EXPECTED_MODES.keyfile (umask (w_env w));
                     f_data := Raw keyfileData |} (w_fs w)).
    set (w' := set_fs (put_file dir CONSTANTS.KEYFILE_NAME f fs1)
                 (add_log (EvChmod (FilePath dir CONSTANTS.KEYFILE_NAME))
                    (set_fs fs1
                       (add_log (EvWriteFile (FilePath dir CONSTANTS.KEYFILE_NAME))
                          (spend CONSTANTS.KEYFILE_LENGTH w1))))).
    assert (Hdir1 : fs1 !! dir
                    = Some {| d_mode := d_mode d;
                              d_files := <[CONSTANTS.KEYFILE_NAME :=
                                 {| f_mode := Z.ldiff EXPECTED_MODES.keyfile (umask (w_env w));
                                    f_data := Raw keyfileData |}]> (d_files d) |})
      by (unfold fs1; by apply lookup_file_put_file_dir).
    assert (Hf' : lookup_file (w_fs w') dir CONSTANTS.KEYFILE_NAME = Some f)
      by (apply lookup_file_put_file_eq; eauto).
    exists w', 256. split.
    { unfold ensureKeyfile, tryCatch, when, verifyPermission, stat, readFile,
        createKeyfile, writeFile, chmod, randomBytes, bind, log, modify, gets, ret, throw.
      cbn [w_env w_fs add_log spend set_fs]. rewrite Hwin. cbn [negb].
      cbn [w_env w_fs add_log spend set_fs]. rewrite Hwin.
      cbn [w_env w_fs add_log spend set_fs]. rewrite Hnone.
      cbn [isFileNotFoundError ENOENT]. rewrite bool_decide_eq_true_2 by done.
      cbn [w_env w_fs add_log spend set_fs w_spent w_entropy]. rewrite Hd.
      unfold lookup_file in Hnone. rewrite Hd in Hnone. rewrite Hnone.
      cbn [w_env w_fs add_log spend set_fs]. rewrite Hwin. cbn [negb]. unfold when.
      cbn [w_env w_fs add_log spend set_fs]. fold keyfileData. fold fs1.
      rewrite lookup_file_put_file_eq by eauto. reflexivity. }
    split; [done|]. split; [exact Hf'|]. split; [done|]. split; [done|].
    split; [done|]. unfold w'. cbn [w_fs set_fs].
    by rewrite (lookup_file_put_file_dir _ _ _ _ _ Hdir1), Hd.
Qed.



(** ** [destroy] *)



(** ** Filtering names *)

Lemma test_pattern (pattern key : jsstring) :
  Glob.test (Glob.T Glob.Bol Glob.One :: map term_of pattern
             ++ [Glob.T Glob.Eol Glob.One]) key = true
  <-> Glob.glob_spec pattern key.
Proof. unfold Glob.test. rewrite search_Bol. apply matches_pattern. Qed.

(** For a pattern without [?], [filterKeys] returns the names that the
    pattern language of the documentation selects, in the order they came
    in; and for no name at all it returns the empty list whatever the
    pattern is, since [matchGlob] is not called. *)
Theorem filterKeys_selects_by_the_pattern (names : list jsstring) (pattern : jsstring) :
  Glob.filterKeys [] pattern = Some []
  /\ (Forall (fun c => c <> 63) pattern ->
      exists selected,
        Glob.filterKeys names pattern = Some selected
        /\ selected `sublist_of` names
        /\ forall key, key ∈ selected <-> key ∈ names /\ Glob.glob_spec pattern key).
Proof.
  split; [done|]. intros Hplain.
  rewrite (filterKeys_compiled names pattern _ (RegExp_pattern pattern Hplain)).
  eexists. split; [reflexivity|]. split; [apply sublist_filter|].
  intros key. rewrite list_elem_of_filter, test_pattern. tauto.
Qed.

(** On an open instance, [keys] with a non-empty pattern that has no
    [?] returns, sorted, the names of the index that the pattern language
    selects, and changes nothing; with an empty index it returns the empty
    list. *)
Theorem keys_lists_the_names_that_match (e : Engine) (w : World) (pattern : jsstring) :
  closed e = false ->
  pattern <> [] ->
  Forall (fun c => c <> 63) pattern ->
  exists names,
    keys (Some pattern) (e, w) = (Ok names, (e, w))
    /\ StronglySorted u16_le names
    /\ (forall key,
          key ∈ names
          <-> (exists h, keyIndex e !! h = Some key) /\ Glob.glob_spec pattern key)
    /\ (keyIndex e = ∅ -> names = []).
Proof.
  intros Hopen Hne Hplain.
  unfold keys. erewrite bind_eq_Ok by (by apply ensureOpen_open).
  rewrite bind_this_. cbn [fst snd].
  assert (Htruthy : truthy_opt (Some pattern) = true) by (by destruct pattern).
  rewrite Htruthy. cbn [negb default].
  rewrite (filterKeys_compiled _ pattern _ (RegExp_pattern pattern Hplain)).
  eexists. split; [reflexivity|]. split; [apply StronglySorted_merge_sort; apply _|].
  split.
  - intros key. unfold sort. rewrite merge_sort_Permutation.
    rewrite list_elem_of_filter, test_pattern, list_elem_of_fmap. split.
    + intros [Hspec ([h name] & -> & Hin)]. apply elem_of_map_to_list in Hin. eauto.
    + intros [[h Hin] Hspec]. split; [done|]. exists (h, key). split; [done|].
      by apply elem_of_map_to_list.
  - intros ->. by rewrite map_to_list_empty.
Qed.

(** ** What no call takes away

    [keeps proj c]: whatever its outcome, [c] keeps a property [I] of the
    world, for every [I] that outlives a log entry, a draw of random bytes
    and a write to [store.db] or [meta.json]. *)

Section Keeps.
Variable I : World -> Prop.
Hypothesis I_log : forall ev w, I w -> I (add_log ev w).
Hypothesis I_spend : forall n w, I w -> I (spend n w).
Hypothesis I_put : forall dir name f w,
  name = CONSTANTS.DB_NAME \/ name = CONSTANTS.META_NAME ->
  I w -> I (set_fs (put_file dir name f (w_fs w)) w).

Definition keeps {S A} (proj : S -> World) (c : M S A) : Prop :=
  forall s, I (proj s) -> I (proj (snd (c s))).

Lemma keeps_ret {S A} (proj : S -> World) (a : A) : keeps proj (ret a).
Proof. by intros s. Qed.

Lemma keeps_throw {S A} (proj : S -> World) (e : error) : keeps proj (throw e : M S A).
Proof. by intros s. Qed.

Lemma keeps_gets {S A} (proj : S -> World) (f : S -> A) : keeps proj (gets f).
Proof. by intros s. Qed.

Lemma keeps_liftRes {S A} (proj : S -> World) (r : Res A) : keeps proj (liftRes r : M S A).
Proof. intros s. unfold liftRes. by destruct r. Qed.

Lemma keeps_bind {S A B} (proj : S -> World) (c : M S A) (k : A -> M S B) :
  keeps proj c -> (forall a, keeps proj (k a)) -> keeps proj (bind c k).
Proof.
  intros Hc Hk s Hs. unfold bind. specialize (Hc s Hs).
  destruct (c s) as [[a|e] s1]; [by apply Hk | done].
Qed.

Lemma keeps_tryCatch {S A} (proj : S -> World) (body : M S A) handler :
  keeps proj body -> (forall e, keeps proj (handler e)) ->
  keeps proj (tryCatch body handler).
Proof.
  intros Hb Hh s Hs. unfold tryCatch. specialize (Hb s Hs).
  destruct (body s) as [[a|e] s1]; [done | by apply Hh].
Qed.

Lemma keeps_when {S} (proj : S -> World) (b : bool) (c : M S unit) :
  keeps proj c -> keeps proj (when b c).
Proof. intros Hc. destruct b; [exact Hc | apply keeps_ret]. Qed.

Lemma keeps_liftW {A} (c : M World A) : keeps id c -> keeps snd (liftW c).
Proof.
  intros Hc [e w] Hs. unfold liftW. cbn [fst snd] in *. specialize (Hc w Hs).
  by destruct (c w) as [r w1].
Qed.

Lemma keeps_this_ {A} (f : Engine -> A) : keeps snd (this_ f).
Proof. by intros s. Qed.

Lemma keeps_update_this (f : Engine -> Engine) : keeps snd (update_this f).
Proof. by intros s. Qed.

Lemma keeps_call {A} (e : Engine) (c : M Sys A) : keeps snd c -> keeps id (call e c).
Proof.
  intros Hc w Hw. unfold call. specialize (Hc (e, w) Hw).
  by destruct (c (e, w)) as [[a|er] [e1 w1]].
Qed.

Lemma keeps_log ev : keeps id (log ev).
Proof. intros w Hw. by apply I_log. Qed.

Lemma keeps_randomBytes n : keeps id (randomBytes n).
Proof. intros w Hw. by apply I_spend. Qed.

Lemma keeps_stat p : keeps id (stat p).
Proof.
  intros w Hw. unfold stat, bind, log, modify, gets, ret, throw. cbn [w_fs add_log].
  destruct p; repeat case_match; by apply I_log.
Qed.

Lemma keeps_readFile dir name : keeps id (readFile dir name).
Proof.
  intros w Hw. unfold readFile, bind, log, modify, gets, ret, throw. cbn [w_fs add_log].
  repeat case_match; by apply I_log.
Qed.

Lemma keeps_writeFile dir name data mode :
  name = CONSTANTS.DB_NAME \/ name = CONSTANTS.META_NAME ->
  keeps id (writeFile dir name data mode).
Proof.
  intros Hname w Hw. unfold writeFile, bind, log, modify, gets, ret, throw.
  cbn [w_fs w_env add_log].
  destruct (w_fs w !! dir); cbn [snd id]; [|by apply I_log].
  apply (I_put dir name _ (add_log _ w) Hname). by apply I_log.
Qed.

Lemma keeps_chmod dir name mode :
  name = CONSTANTS.DB_NAME \/ name = CONSTANTS.META_NAME ->
  keeps id (chmod dir name mode).
Proof.
  intros Hname w Hw. unfold chmod, bind, log, modify, gets, ret, throw.
  cbn [w_fs w_env add_log].
  destruct (lookup_file (w_fs w) dir name); cbn [snd id]; [|by apply I_log].
  apply (I_put dir name _ (add_log _ w) Hname). by apply I_log.
Qed.

Lemma keeps_Database_open dir : keeps id (Database_open dir).
Proof.
  intros w Hw. unfold Database_open, bind, log, modify, gets, ret, throw.
  cbn [w_fs w_env add_log].
  repeat case_match; cbn [snd id]; try (by apply I_log);
    (apply (I_put dir CONSTANTS.DB_NAME _ (add_log _ w)); [by left | by apply I_log]).
Qed.

Lemma keeps_db_rows db : keeps id (db_rows db).
Proof.
  intros w Hw. unfold db_rows, bind, log, modify, gets, ret, throw.
  by repeat case_match.
Qed.

Lemma keeps_db_run db f : keeps id (db_run db f).
Proof.
  intros w Hw. unfold db_run, bind, log, modify, gets, ret, throw. cbn [w_fs add_log].
  repeat case_match; cbn [snd id]; try done; try (by apply I_log);
    (apply (I_put (db_dir db) CONSTANTS.DB_NAME _ (add_log _ w));
     [by left | by apply I_log]).
Qed.

Lemma keeps_db_checkpoint db : keeps id (db_checkpoint db).
Proof.
  intros w Hw. unfold db_checkpoint, bind, log, modify, gets, ret, throw.
  cbn [w_fs add_log].
  repeat case_match; cbn [snd id]; try done; try (by apply I_log);
    (apply (I_put (db_dir db) CONSTANTS.DB_NAME _ (add_log _ w));
     [by left | by apply I_log]).
Qed.

Lemma keeps_db_close db : keeps id (db_close db).
Proof. intros w Hw. by apply I_log. Qed.

End Keeps.

Ltac keeps_steps :=
  repeat first
    [ assumption
    | apply keeps_ret | apply keeps_throw | apply keeps_gets | apply keeps_liftRes
    | apply keeps_this_ | apply keeps_update_this
    | apply keeps_log; assumption
    | apply keeps_randomBytes; assumption
    | apply keeps_stat; assumption
    | apply keeps_readFile; assumption
    | apply keeps_writeFile; [assumption | assumption | by eauto]
    | apply keeps_chmod; [assumption | assumption | by eauto]
    | apply keeps_Database_open; assumption
    | apply keeps_db_rows
    | apply keeps_db_run; assumption
    | apply keeps_db_checkpoint; assumption
    | apply keeps_db_close; assumption
    | apply keeps_when
    | apply keeps_liftW
    | apply keeps_call
    | apply keeps_bind; [|intros ?]
    | apply keeps_tryCatch; [|intros ?]
    | match goal with
      | |- keeps _ _ (if ?b then _ else _) => destruct b
      | |- keeps _ _ (match ?x with _ => _ end) => destruct x
      | |- keeps _ _ (let (_, _) := ?x in _) => destruct x
      end ].

Section KeepsMore.
Variable I : World -> Prop.
Hypothesis I_log : forall ev w, I w -> I (add_log ev w).
Hypothesis I_spend : forall n w, I w -> I (spend n w).
Hypothesis I_put : forall dir name f w,
  name = CONSTANTS.DB_NAME \/ name = CONSTANTS.META_NAME ->
  I w -> I (set_fs (put_file dir name f (w_fs w)) w).

Lemma keeps_updateIntegrity k st dirPath salt checkpointFn :
  (forall fn, checkpointFn = Some fn -> keeps I id fn) ->
  keeps I id (updateIntegrity k (SecretStore.filePath st) dirPath salt checkpointFn).
Proof.
  intros Hfn. unfold updateIntegrity, computeIntegrityHmac, writeMetaFile.
  destruct checkpointFn as [fn|]; [specialize (Hfn fn eq_refl)|]; keeps_steps.
Qed.

Lemma keeps_verifyIntegrity k st dirPath :
  keeps I id (verifyIntegrity k (SecretStore.filePath st) dirPath
                (Some (SecretStore.checkpoint st))).
Proof.
  unfold verifyIntegrity, readMetaFile, computeIntegrityHmac, SecretStore.checkpoint.
  keeps_steps.
Qed.

Lemma keeps_resolveSalt dirPath : keeps I id (resolveSalt dirPath).
Proof. unfold resolveSalt, readMetaFile, generateSalt. keeps_steps. Qed.

Lemma keeps_SecretStore_open dirPath : keeps I id (SecretStore.open dirPath).
Proof. unfold SecretStore.open. keeps_steps. Qed.

Lemma keeps_indexEntries entries : keeps I snd (indexEntries entries).
Proof.
  induction entries as [|entry entries IH]; cbn [indexEntries]; [apply keeps_ret|].
  apply keeps_bind; [|intros _; exact IH]. unfold indexEntry. keeps_steps.
Qed.

Lemma keeps_buildKeyIndex : keeps I snd buildKeyIndex.
Proof.
  unfold buildKeyIndex, SecretStore.findAll.
  apply keeps_bind; [apply keeps_this_|intros st].
  apply keeps_bind; [|intros entries; apply keeps_indexEntries]. keeps_steps.
Qed.

Lemma keeps_set name value : keeps I snd (set name value).
Proof.
  unfold set, ensureOpen, hashKey, encrypt, SecretStore.upsert, now_seconds.
  keeps_steps.
Qed.

Lemma keeps_delete name : keeps I snd (delete name).
Proof.
  unfold delete, ensureOpen, hashKey, SecretStore.deleteByHash.
  keeps_steps.
Qed.

Lemma keeps_close : keeps I snd close.
Proof.
  unfold close, SecretStore.checkpoint, SecretStore.close.
  keeps_steps.
Qed.

End KeepsMore.

(** ** The key of an instance and the files it came from *)

(** The environment is [env], the directory [dir] has mode [dm] and its
    keyfile is [f]. *)
Definition guarded (dir : jsstring) (env : Env) (dm : Z) (f : File) (w : World) : Prop :=
  w_env w = env
  /\ exists d, w_fs w !! dir = Some d /\ d_mode d = dm
               /\ d_files d !! CONSTANTS.KEYFILE_NAME = Some f.

Lemma guarded_log dir env dm f ev w : guarded dir env dm f w -> guarded dir env dm f (add_log ev w).
Proof. done. Qed.

Lemma guarded_spend dir env dm f n w : guarded dir env dm f w -> guarded dir env dm f (spend n w).
Proof. done. Qed.

Lemma guarded_put dir env dm f dir' name f' w :
  name = CONSTANTS.DB_NAME \/ name = CONSTANTS.META_NAME ->
  guarded dir env dm f w ->
  guarded dir env dm f (set_fs (put_file dir' name f' (w_fs w)) w).
Proof.
  intros Hname (Henv & d & Hd & Hm & Hk). split; [done|]. cbn [w_fs set_fs].
  unfold put_file. destruct (w_fs w !! dir') as [d'|] eqn:Hd'; [|eauto].
  destruct (decide (dir = dir')) as [<-|Hne].
  - rewrite Hd in Hd'. injection Hd' as <-. rewrite lookup_insert_eq.
    eexists. split; [done|]. split; [done|]. cbn [d_files].
    rewrite lookup_insert_ne; [done|]. by destruct Hname as [-> | ->].
  - rewrite lookup_insert_ne by done. eauto.
Qed.

(** The master key of the instance is the one that scrypt derives from
    the machine, the keyfile of its directory and its salt; on POSIX the
    directory and the keyfile have the modes that [open] asks for. *)
Definition bound (e : Engine) (w : World) : Prop :=
  truthy (salt e) = true
  /\ exists dm f,
       guarded (dirPath e) (w_env w) dm f w
       /\ masterKey e
          = deriveMasterKey (getMachineIdentity (w_env w)) (file_bytes (f_data f))
              (hex_decode (salt e))
       /\ (win32 (w_env w) = false ->
           Z.land dm 511 = EXPECTED_MODES.directory
           /\ Z.land (f_mode f) 511 = EXPECTED_MODES.keyfile).

Lemma ensureDirectory_Ok dir (w w' : World) (a : unit) :
  ensureDirectory dir w = (Ok a, w') ->
  w_env w' = w_env w
  /\ exists d, w_fs w' !! dir = Some d
               /\ (win32 (w_env w) = false ->
                   Z.land (d_mode d) 511 = EXPECTED_MODES.directory).
Proof.
  unfold ensureDirectory, tryCatch. intros Hrun.
  apply bind_Ok in Hrun as (a1 & w1 & Hmk & Hrun).
  assert (Hmk' : w_env w1 = w_env w /\ is_Some (w_fs w1 !! dir)).
  { revert Hmk. unfold mkdir, bind, log, modify, gets, ret, throw.
    cbn [w_fs w_env add_log].
    destruct (w_fs w !! dir) as [d|] eqn:Hd; intros [= _ <-]; cbn [w_fs w_env add_log set_fs].
    - by rewrite Hd.
    - by rewrite lookup_insert_eq. }
  destruct Hmk' as [Henv [d Hd]].
  apply bind_Ok in Hrun as (win & w2 & [= <- <-] & Hrun). rewrite Henv in Hrun.
  destruct (win32 (w_env w)) eqn:Hwin; cbn [negb] in Hrun.
  - injection Hrun as _ <-. split; [done|]. exists d. by split.
  - rewrite (verifyPermission_run w1 _ _ _ (d_mode d)) in Hrun;
      [| by rewrite Henv | by cbn [stored_mode]; rewrite Hd].
    destruct (Z.eqb_spec (Z.land (d_mode d) 511) EXPECTED_MODES.directory) as [Hm|];
      [|discriminate].
    injection Hrun as _ <-. split; [done|]. exists d. by split.
Qed.

Lemma ensureKeyfile_existing dir (w : World) (f : File) :
  lookup_file (w_fs w) dir CONSTANTS.KEYFILE_NAME = Some f ->
  exists r w',
    ensureKeyfile dir w = (r, w') /\ w_fs w' = w_fs w /\ w_env w' = w_env w
    /\ w_spent w' = w_spent w
    /\ ((win32 (w_env w) = true \/ Z.land (f_mode f) 511 = EXPECTED_MODES.keyfile)
        -> r = Ok (file_bytes (f_data f)))
    /\ (forall kf, r = Ok kf ->
          kf = file_bytes (f_data f)
          /\ (win32 (w_env w) = false ->
              Z.land (f_mode f) 511 = EXPECTED_MODES.keyfile)).
Proof.
  intros Hf. unfold ensureKeyfile, tryCatch, when.
  rewrite (bind_eq_Ok (gets _) _ w w (win32 (w_env w)) eq_refl).
  destruct (win32 (w_env w)) eqn:Hwin; cbn [negb].
  - rewrite (bind_eq_Ok (ret tt) _ w w tt eq_refl).
    unfold readFile, bind, log, modify, gets, ret, throw. cbn [w_fs add_log]. rewrite Hf.
    eexists _, _. split; [reflexivity|].
    split; [done|]. split; [done|]. split; [done|]. split; [done|].
    intros kf [= <-]. split; [done|discriminate].
  - unfold bind at 1.
    rewrite (verifyPermission_run w _ _ _ (f_mode f));
      [| done | by cbn [stored_mode]; rewrite Hf].
    destruct (Z.eqb_spec (Z.land (f_mode f) 511) EXPECTED_MODES.keyfile) as [Hm|Hm].
    + unfold readFile, bind, log, modify, gets, ret, throw. cbn [w_fs add_log]. rewrite Hf.
      eexists _, _. split; [reflexivity|].
      split; [done|]. split; [done|]. split; [done|]. split; [done|].
      intros kf [= <-]. done.
    + cbn [isFileNotFoundError]. unfold throw.
      eexists _, _. split; [reflexivity|].
      split; [done|]. split; [done|]. split; [done|]. split; [by intros [|]|].
      intros kf [=].
Qed.

(** With no keyfile in a directory that is there, [ensureKeyfile] draws
    32 bytes from [randomBytes], writes them and returns them; on POSIX
    the file ends with mode [0o400] whatever the umask is.  The next call
    returns the same bytes, draws nothing and writes nothing. *)
Theorem ensureKeyfile_creates_once (dir : jsstring) (w : World) :
  is_Some (w_fs w !! dir) ->
  lookup_file (w_fs w) dir CONSTANTS.KEYFILE_NAME = None ->
  let keyfileData := entropy_bytes CONSTANTS.KEYFILE_LENGTH w in
  exists w' mode,
    ensureKeyfile dir w = (Ok keyfileData, w')
    /\ length keyfileData = 32%nat
    /\ lookup_file (w_fs w') dir CONSTANTS.KEYFILE_NAME
       = Some {| f_mode := mode; f_data := Raw keyfileData |}
    /\ (win32 (w_env w) = false -> mode = 256)
    /\ w_spent w' = (w_spent w + 32)%nat
    /\ exists w'',
         ensureKeyfile dir w' = (Ok keyfileData, w'')
         /\ w_fs w'' = w_fs w' /\ w_spent w'' = w_spent w'.
Proof.
  intros Hdir Hnone keyfileData.
  destruct (ensureKeyfile_create_run dir w Hdir Hnone)
    as (w' & mode & Hrun & Hlen & Hf & Hmode & Hspent & Henv & _).
  exists w', mode. split; [exact Hrun|]. split; [exact Hlen|]. split; [exact Hf|].
  split; [exact Hmode|]. split; [exact Hspent|].
  destruct (ensureKeyfile_existing dir w' _ Hf)
    as (r & w'' & Hagain & Hfs & _ & Hsp & Hok & _).
  exists w''. rewrite Hagain.
  rewrite Hok; [done|]. cbn [f_mode]. rewrite Henv.
  destruct (win32 (w_env w)); [by left|right]. by rewrite Hmode.
Qed.


Lemma keeps_run {A} (I : World -> Prop) (c : M World A) (w w' : World) (r : Res A) :
  keeps I id c -> c w = (r, w') -> I w -> I w'.
Proof. intros Hc Hrun Hw. specialize (Hc w Hw). by rewrite Hrun in Hc. Qed.

Lemma keeps_run_sys {A} (I : World -> Prop) (c : M Sys A) (e e' : Engine) (w w' : World)
  (r : Res A) :
  keeps I snd c -> c (e, w) = (r, (e', w')) -> I w -> I w'.
Proof. intros Hc Hrun Hw. specialize (Hc (e, w) Hw). by rewrite Hrun in Hc. Qed.

Lemma resolveSalt_Ok dir (w w' : World) (s : jsstring) (isNew : bool) :
  resolveSalt dir w = (Ok (s, isNew), w') -> truthy s = true.
Proof.
  unfold resolveSalt. rewrite (bind_eq_Ok _ _ _ _ _ (readMetaFile_run dir w)).
  assert (Hfresh : forall w0 s0 b w1,
            (let* s := generateSalt in ret (hex_encode s, true)) w0 = (Ok (s0, b), w1) ->
            truthy s0 = true).
  { intros w0 s0 b w1. unfold generateSalt, randomBytes, bind, ret. by intros [= <- _ _]. }
  destruct (truthy_opt _); [|by apply Hfresh].
  destruct (JSON_parse _) as [meta|]; [|by apply Hfresh].
  destruct (truthy_opt (json_salt meta)) eqn:Ht; [|by apply Hfresh].
  intros [= <- _ _]. by destruct (json_salt meta).
Qed.

Lemma ensureKeyfile_Ok dir (w w' : World) (kf : bytes) (d : Dir) :
  w_fs w !! dir = Some d ->
  ensureKeyfile dir w = (Ok kf, w') ->
  w_env w' = w_env w
  /\ exists f, guarded dir (w_env w) (d_mode d) f w'
               /\ file_bytes (f_data f) = kf
               /\ (win32 (w_env w) = false ->
                   Z.land (f_mode f) 511 = EXPECTED_MODES.keyfile).
Proof.
  intros Hd Hrun.
  destruct (lookup_file (w_fs w) dir CONSTANTS.KEYFILE_NAME) as [f|] eqn:Hf.
  - destruct (ensureKeyfile_existing dir w f Hf)
      as (r & w1 & Hrun1 & Hfs & Henv & _ & _ & Hok).
    rewrite Hrun in Hrun1. injection Hrun1 as <- <-.
    destruct (Hok kf eq_refl) as [-> Hmode].
    split; [done|]. exists f. split; [|done].
    split; [done|]. exists d. rewrite Hfs. split; [done|]. split; [done|].
    unfold lookup_file in Hf. by rewrite Hd in Hf.
  - destruct (ensureKeyfile_create_run dir w (ex_intro _ d Hd) Hf)
      as (w1 & mode & Hrun1 & _ & Hf1 & Hmode & _ & Henv & Hdm).
    rewrite Hrun in Hrun1. injection Hrun1 as -> <-.
    split; [done|].
    exists {| f_mode := mode; f_data := Raw (entropy_bytes CONSTANTS.KEYFILE_LENGTH w) |}.
    split; [|split; [reflexivity|]].
    + split; [done|]. unfold lookup_file in Hf1.
      destruct (w_fs w' !! dir) as [d'|] eqn:Hd'; [|discriminate].
      exists d'. split; [done|]. split; [|exact Hf1].
      rewrite Hd in Hdm. cbn in Hdm. by injection Hdm.
    + intros Hposix. cbn [f_mode]. by rewrite (Hmode Hposix).
Qed.

Lemma buildKeyIndex_frame (e e' : Engine) (w w' : World) (a : unit) :
  buildKeyIndex (e, w) = (Ok a, (e', w')) -> forall d, db_file w' d = db_file w d.
Proof.
  unfold buildKeyIndex. intros Hb. do 2 step Hb.
  match type of Hb with
  | indexEntries ?l _ = _ => destruct (indexEntries_spec l e w0) as (idx & w2 & Hrun & Hfr & _)
  end.
  rewrite Hrun in Hb. injection Hb as _ _ <-.
  intros d. rewrite Hfr.
  revert Hstep. unfold SecretStore.findAll, db_rows, bind, gets, ret, throw.
  destruct (db_closed (store e)); [by intros [=]|].
  destruct (lookup_file _ _ _) as [[m [data|main view]]|]; by intros [= _ <-].
Qed.

(** What [open] returns. *)
(** ** The index and the rows, with the names *)

(** The name that [buildKeyIndex] reads from a row. *)
Definition name_of (k : bytes) (h : jsstring) (r : Row) : Res jsstring :=
  decrypt k (take 12 (key_enc r)) (drop 12 (key_enc r)) (Some h).

Lemma decrypts_name_of k h r : decrypts k h r <-> exists name, name_of k h r = Ok name.
Proof.
  unfold decrypts, name_of. destruct (decrypt _ _ _ _) as [name|er]; cbn [is_Ok].
  - split; eauto.
  - split; [discriminate | by intros [? [=]]].
Qed.

Lemma indexEntries_names (entries : list EncryptedEntry) :
  NoDup (map key_hash entries) ->
  forall (e : Engine) (w : World),
  exists idx w',
    indexEntries entries (e, w) = (Ok tt, (set_keyIndex idx e, w'))
    /\ (forall d, db_file w' d = db_file w d)
    /\ (forall h name,
          idx !! h = Some name <->
          (exists r, {| key_hash := h; columns := r |} ∈ entries
                     /\ name_of (masterKey e) h r = Ok name)
          \/ (keyIndex e !! h = Some name
              /\ forall r, {| key_hash := h; columns := r |} ∈ entries ->
                           name_of (masterKey e) h r = Ok name \/ ~ decrypts (masterKey e) h r)).
Proof.
  induction entries as [|entry entries IH]; intros Hnodup e w.
  - exists (keyIndex e), w. split; [by destruct e|]. split; [done|].
    intros h name. split.
    + intros Hl. right. split; [done|]. intros r Hin. by apply elem_of_nil in Hin.
    + intros [(r & Hin & _)|[Hl _]]; [by apply elem_of_nil in Hin | done].
  - cbn [map] in Hnodup. apply NoDup_cons in Hnodup as [Hfresh Hnodup].
    cbn [indexEntries]. unfold bind at 1. rewrite indexEntry_run.
    destruct entry as [h0 r0]. cbn [key_hash columns] in *.
    fold (name_of (masterKey e) h0 r0).
    assert (Hrest : forall r, {| key_hash := h0; columns := r |} ∈ entries -> False).
    { intros r Hin. apply Hfresh. apply list_elem_of_fmap. by eexists; split; [|exact Hin]. }
    destruct (name_of (masterKey e) h0 r0) as [keyName|er] eqn:Hd.
    + destruct (IH Hnodup (set_keyIndex (<[h0 := keyName]> (keyIndex e)) e) w)
        as (idx & w' & Hrun & Hfr & Hidx).
      exists idx, w'. split; [exact Hrun|]. split; [exact Hfr|].
      intros h name. rewrite Hidx. cbn [keyIndex set_keyIndex masterKey].
      destruct (decide (h0 = h)) as [<-|Hne].
      * rewrite lookup_insert_eq. split.
        -- intros [(r & Hin & _)|[[= ->] _]]; [by destruct (Hrest r)|].
           left. exists r0. split; [apply list_elem_of_here | done].
        -- intros [(r & Hin & Hname)|[Hl Hall]].
           ++ apply elem_of_cons in Hin as [[= <-]|Hin]; [|by destruct (Hrest r)].
              right. split; [congruence|]. intros r' Hin'. by destruct (Hrest r').
           ++ destruct (Hall r0 (list_elem_of_here _ _)) as [Hname|Hno].
              ** right. split; [congruence|]. intros r' Hin'. by destruct (Hrest r').
              ** exfalso. apply Hno. apply decrypts_name_of. eauto.
      * rewrite lookup_insert_ne by done. split.
        -- intros [(r & Hin & Hname)|[Hl Hall]].
           ++ left. exists r. split; [by apply list_elem_of_further | done].
           ++ right. split; [done|]. intros r Hin.
              apply elem_of_cons in Hin as [[= ? ?]|Hin]; [done | by apply Hall].
        -- intros [(r & Hin & Hname)|[Hl Hall]].
           ++ apply elem_of_cons in Hin as [[= ? ?]|Hin]; [done|]. left. eauto.
           ++ right. split; [done|]. intros r Hin. apply Hall.
              by apply list_elem_of_further.
    + destruct (IH Hnodup e
                  (add_log (EvWarn (u "[secrets-engine] Skipping corrupted entry: "
                                      ++ slice0 16 h0 ++ ellipsis)) w))
        as (idx & w' & Hrun & Hfr & Hidx).
      exists idx, w'. split; [exact Hrun|]. split; [by intros d; rewrite Hfr|].
      intros h name. rewrite Hidx. split.
      * intros [(r & Hin & Hname)|[Hl Hall]].
        -- left. exists r. split; [by apply list_elem_of_further | done].
        -- right. split; [done|]. intros r Hin.
           apply elem_of_cons in Hin as [[= <- <-]|Hin]; [|by apply Hall].
           right. intros Hdec. apply decrypts_name_of in Hdec as [? Hdec]. congruence.
      * intros [(r & Hin & Hname)|[Hl Hall]].
        -- apply elem_of_cons in Hin as [[= <- <-]|Hin]; [congruence|]. left. eauto.
        -- right. split; [done|]. intros r Hin. apply Hall.
           by apply list_elem_of_further.
Qed.

(** [buildKeyIndex] on a connection that is open on a database, step by
    step: it never throws, and from the empty index it leaves exactly
    the hashes of the rows whose name decrypts, each with that name. *)
Lemma buildKeyIndex_complete (e : Engine) (w : World) m main view :
  db_closed (store e) = false ->
  db_file w (db_dir (store e)) = Some (m, main, view) ->
  exists idx w',
    buildKeyIndex (e, w) = (Ok tt, (set_keyIndex idx e, w'))
    /\ (forall d, db_file w' d = db_file w d)
    /\ (keyIndex e = ∅ ->
        forall h name,
          idx !! h = Some name
          <-> exists r, view !! h = Some r /\ name_of (masterKey e) h r = Ok name).
Proof.
  intros Hopen Hf. unfold buildKeyIndex. rewrite bind_this_. cbn [fst snd].
  unfold SecretStore.findAll.
  erewrite (bind_eq_Ok (liftW _))
    by (apply liftW_run; erewrite bind_eq_Ok by (by eapply db_rows_run); reflexivity).
  match goal with
  | |- context [indexEntries ?l _] =>
      destruct (indexEntries_names l) with (e := e) (w := w)
        as (idx & w' & Hrun & Hfr & Hidx)
  end.
  { rewrite map_map. erewrite map_ext; [apply NoDup_fst_map_to_list|]. by intros [h r]. }
  exists idx, w'. split; [exact Hrun|]. split; [exact Hfr|].
  intros Hempty h name. rewrite Hidx, Hempty, lookup_empty. split.
  - intros [(r & Hin & Hname)|[[=] _]]. exists r. split; [|done].
    apply list_elem_of_fmap in Hin as ([h' r'] & [= -> ->] & Hin).
    by apply elem_of_map_to_list.
  - intros (r & Hl & Hname). left. exists r. split; [|done].
    apply list_elem_of_fmap. exists (h, r). split; [done|].
    by apply elem_of_map_to_list.
Qed.

(** The index holds, under each hash, the name that the row under the
    hash decrypts to, and nothing else. *)
Definition index_names (e : Engine) (w : World) : Prop :=
  forall h name,
    keyIndex e !! h = Some name
    <-> exists r, rows_of w (db_dir (store e)) !! h = Some r
                  /\ name_of (masterKey e) h r = Ok name.

Lemma index_names_matches (e : Engine) (w : World) :
  index_names e w -> index_matches_rows e w.
Proof.
  intros Hn h. split.
  - intros [name Hl]. apply Hn in Hl as (r & Hr & Hname). exists r. split; [done|].
    apply decrypts_name_of. eauto.
  - intros (r & Hr & [name Hname]%decrypts_name_of). exists name. apply Hn. eauto.
Qed.

Lemma build_index_names (e e' : Engine) (w w' : World) :
  keyIndex e = ∅ ->
  buildKeyIndex (e, w) = (Ok tt, (e', w')) ->
  forall h name,
    keyIndex e' !! h = Some name
    <-> exists r, rows_of w (db_dir (store e)) !! h = Some r
                  /\ name_of (masterKey e) h r = Ok name.
Proof.
  intros Hempty Hb.
  assert (Hfile : db_closed (store e) = false
                  /\ exists m main view, db_file w (db_dir (store e)) = Some (m, main, view)).
  { unfold buildKeyIndex in Hb. step Hb. step Hb. unfold SecretStore.findAll in Hstep.
    apply bind_Ok in Hstep as (rows & w1 & Hrows & _).
    unfold db_rows in Hrows. destruct (db_closed (store e)); [discriminate|].
    split; [done|]. unfold bind, gets, ret, throw in Hrows. unfold db_file.
    destruct (lookup_file _ _ _) as [[m [d|main view]]|]; try discriminate. eauto. }
  destruct Hfile as (Hopen & m & main & view & Hf).
  destruct (buildKeyIndex_complete e w m main view Hopen Hf)
    as (idx & w2 & Hrun & _ & Hidx).
  rewrite Hrun in Hb. injection Hb as <- <-.
  cbn [keyIndex set_keyIndex]. rewrite (rows_of_db_file _ _ _ _ _ Hf). by apply Hidx.
Qed.

(** [set] of a name that UTF-8 carries, and [delete], keep the names of
    the index those of the rows. *)
Lemma set_keeps_index_names (e e' : Engine) (w w' : World) (name value : jsstring)
  (r : Res unit) :
  length (masterKey e) = CONSTANTS.KEY_LENGTH ->
  well_formed name = true ->
  index_names e w ->
  set name value (e, w) = (r, (e', w')) -> index_names e' w'.
Proof.
  intros Hkey Hwf Hinv Hset.
  apply set_outcome in Hset
    as [[-> Hfr]|(_ & _ & -> & m & main & view & now & ivk & ivv & Hivk & Hf & Hf')].
  - intros h n. rewrite (rows_of_frame w w' _ Hfr). apply Hinv.
  - intros h n. cbn [keyIndex set_keyIndex store masterKey].
    rewrite (rows_of_db_file _ _ _ _ _ Hf'). unfold SecretStore.upsert_rows.
    cbn [SecretStore.up_key_hash].
    destruct (decide (hmac (masterKey e) name = h)) as [<-|Hne].
    + rewrite !lookup_insert_eq. unfold name_of.
      split.
      * intros [= <-]. eexists. split; [reflexivity|].
        cbn [key_enc SecretStore.up_key_enc].
        rewrite take_app_length' by done. rewrite drop_app_length' by done.
        by rewrite decrypt_sealed, utf8_roundtrip.
      * intros (r0 & [= <-] & Hname). revert Hname.
        cbn [key_enc SecretStore.up_key_enc].
        rewrite take_app_length' by done. rewrite drop_app_length' by done.
        rewrite decrypt_sealed, utf8_roundtrip by done. congruence.
    + rewrite !lookup_insert_ne by done.
      rewrite <- (rows_of_db_file _ _ _ _ _ Hf). apply Hinv.
Qed.

Lemma delete_keeps_index_names (e e' : Engine) (w w' : World) (name : jsstring)
  (r : Res bool) :
  index_names e w ->
  delete name (e, w) = (r, (e', w')) -> index_names e' w'.
Proof.
  intros Hinv Hdel.
  apply delete_outcome in Hdel as [[-> Hfr]|(m & main & view & Hf & Hf' & ->)].
  - intros h n. rewrite (rows_of_frame w w' _ Hfr). apply Hinv.
  - pose proof (rows_of_db_file _ _ _ _ _ Hf) as Hrows.
    destruct (bool_decide (is_Some (view !! hmac (masterKey e) name))) eqn:Hex.
    + intros h n. cbn [keyIndex set_keyIndex store masterKey].
      rewrite (rows_of_db_file _ _ _ _ _ Hf').
      destruct (decide (hmac (masterKey e) name = h)) as [<-|Hne].
      * rewrite !lookup_delete_eq. split; [by intros [=]|]. by intros (? & [=] & _).
      * rewrite !lookup_delete_ne by done. rewrite <- Hrows. apply Hinv.
    + apply bool_decide_eq_false in Hex.
      intros h n. rewrite (rows_of_db_file _ _ _ _ _ Hf').
      rewrite delete_id; [rewrite <- Hrows; apply Hinv|].
      destruct (view !! hmac (masterKey e) name) eqn:Hl; [|done].
      exfalso. apply Hex. eauto.
Qed.

Lemma open_inv (options : option OpenOptions) (w w' : World) (e : Engine) :
  open options w = (Ok e, w') ->
  resolveStoragePath (w_env w) options = Ok (dirPath e)
  /\ w_env w' = w_env w
  /\ healthy e w' /\ bound e w'
  /\ length (masterKey e) = CONSTANTS.KEY_LENGTH
  /\ (exists m view, db_file w' (dirPath e) = Some (m, view, view))
  /\ index_matches_rows e w'
  /\ index_names e w'.
Proof.
  unfold open. intros Ho.
  apply bind_Ok in Ho as (env & w0 & Henv & Ho). injection Henv as <- <-.
  apply bind_Ok in Ho as (dir & w1 & Hdir & Ho).
  unfold liftRes in Hdir.
  destruct (resolveStoragePath (w_env w) options) as [dir'|] eqn:Hpath; [|discriminate].
  injection Hdir as -> <-.
  apply bind_Ok in Ho as (a1 & w2 & Hed & Ho).
  apply ensureDirectory_Ok in Hed as (Henv2 & d2 & Hd2 & Hdm).
  apply bind_Ok in Ho as (keyfile & w3 & Hek & Ho).
  apply (ensureKeyfile_Ok _ _ _ _ d2 Hd2) in Hek as (Henv3 & f & Hg3 & Hkf & Hfm).
  rewrite Henv2 in Hg3, Hfm.
  set (I := guarded dir (w_env w) (d_mode d2) f) in *.
  assert (I_log : forall ev w, I w -> I (add_log ev w)) by (intros; by apply guarded_log).
  assert (I_spend : forall n w, I w -> I (spend n w)) by (intros; by apply guarded_spend).
  assert (I_put : forall dir name f w,
            name = CONSTANTS.DB_NAME \/ name = CONSTANTS.META_NAME ->
            I w -> I (set_fs (put_file dir name f (w_fs w)) w))
    by (intros; by apply guarded_put).
  apply bind_Ok in Ho as ([salt0 isNew] & w4 & Hrs & Ho).
  pose proof (resolveSalt_Ok _ _ _ _ _ Hrs) as Htruthy.
  assert (Hg4 : I w4)
    by (eapply (keeps_run I), Hg3; [apply keeps_resolveSalt; assumption | exact Hrs]).
  apply bind_Ok in Ho as (st & w5 & Hso & Ho).
  pose proof (SecretStore_open_Ok _ _ _ _ Hso) as ->.
  assert (Hg5 : I w5)
    by (eapply (keeps_run I), Hg4; [apply keeps_SecretStore_open; assumption | exact Hso]).
  apply tryCatch_rethrow_Ok in Ho.
  apply bind_Ok in Ho as (a2 & w6 & Hverify & Ho).
  apply bind_Ok in Ho as ([a3 e1] & w7 & Hbuild & Ho).
  apply bind_Ok in Ho as (a4 & w8 & Hupdate & Ho).
  injection Ho as <- <-.
  apply call_Ok in Hbuild.
  pose proof (buildKeyIndex_frame _ _ _ _ _ Hbuild) as Hframe.
  assert (Hkeep7 : I w6 -> I w7)
    by (eapply (keeps_run_sys I), Hbuild; apply keeps_buildKeyIndex; assumption).
  destruct a3.
  pose proof (fun He => build_index _ _ _ _ He Hbuild) as Hindex.
  specialize (Hindex eq_refl).
  pose proof (fun He => build_index_names _ _ _ _ He Hbuild) as Hnames.
  specialize (Hnames eq_refl).
  apply buildKeyIndex_Ok_fields in Hbuild as [idx ->].
  cbn [store dirPath closed masterKey salt set_keyIndex db_dir] in *.
  assert (Hfinal : I w8 /\ (exists m view, db_file w8 dir = Some (m, view, view))
                   /\ rows_of w8 dir = rows_of w7 dir).
  { destruct isNew; cbn [negb when] in Hverify, Hupdate.
    - injection Hverify as _ <-.
      pose proof Hupdate as Hupd.
      apply updateIntegrity_checkpoint_Ok in Hupd
        as (m & main & view & tail & Hf7 & Hf8 & _).
      cbn [db_dir] in Hf7, Hf8. split; [|split; [eauto|]].
      + eapply (keeps_run I), Hkeep7, Hg5; [|exact Hupdate].
        apply keeps_updateIntegrity; try assumption.
        intros fn [= <-]. unfold SecretStore.checkpoint.
        by apply keeps_db_checkpoint.
      + by rewrite (rows_of_db_file _ _ _ _ _ Hf7), (rows_of_db_file _ _ _ _ _ Hf8).
    - injection Hupdate as _ <-.
      apply bind_Ok in Hverify as (meta & w9 & Hverify & Hret). injection Hret as _ <-.
      pose proof Hverify as Hv.
      apply verifyIntegrity_Ok in Hv as (m & main & view & _ & Hf6 & _).
      cbn [db_dir] in Hf6. split; [|split; [|done]].
      + apply Hkeep7.
        eapply (keeps_run I), Hg5; [|exact Hverify].
        apply keeps_verifyIntegrity; assumption.
      + exists m, view. by rewrite Hframe. }
  destruct Hfinal as (Hg8 & (m & view & Hf8) & Hrows).
  pose proof Hg8 as [Henv8 _].
  split; [done|]. split; [done|]. split.
  { split; [done|]. split; [done|]. cbn [dirPath]. eauto. }
  split.
  { split; [done|]. exists (d_mode d2), f. cbn [dirPath masterKey salt].
    rewrite Henv8. split; [exact Hg8|]. split; [by rewrite Hkf|].
    intros Hposix. split; [by apply Hdm | by apply Hfm]. }
  split; [apply scrypt_length|]. split; [eauto|].
  assert (Hrows6 : rows_of w8 dir = rows_of w6 dir).
  { rewrite Hrows. unfold rows_of. by rewrite Hframe. }
  split.
  - intros h. specialize (Hindex h). unfold index_matches_rows in *.
    cbn [store dirPath closed masterKey salt set_keyIndex db_dir keyIndex] in *.
    by rewrite Hrows.
  - intros h name. specialize (Hnames h name).
    cbn [store dirPath closed masterKey salt set_keyIndex db_dir keyIndex] in *.
    by rewrite Hrows6.
Qed.

(** ** Closing and opening again *)
















(** An instance that [open] returns is open on the database file of the
    directory that the options resolve to, its key has 32 bytes and is the
    scrypt key of this machine, the keyfile of the directory and the salt,
    the directory and the keyfile have the modes 0o700 and 0o400 on POSIX,
    the rows are checkpointed, and the index has the hashes of the rows
    whose name decrypts, each with that name. *)
Theorem open_gives_a_working_instance (options : option OpenOptions) (w w' : World)
    (e : Engine) :
  open options w = (Ok e, w') ->
  resolveStoragePath (w_env w) options = Ok (dirPath e)
  /\ w_env w' = w_env w
  /\ healthy e w' /\ bound e w'
  /\ length (masterKey e) = CONSTANTS.KEY_LENGTH
  /\ (exists m view, db_file w' (dirPath e) = Some (m, view, view))
  /\ index_matches_rows e w'
  /\ index_names e w'.
Proof. apply open_inv. Qed.

(** The names of the index stay those of the rows: [set] of a name
    that UTF-8 carries and [delete] keep, whether they return or throw,
    that the index holds under each hash the name that the row under the
    hash decrypts to, and nothing else. *)
Theorem index_names_are_kept (e : Engine) (w : World) :
  length (masterKey e) = CONSTANTS.KEY_LENGTH ->
  index_names e w ->
  (forall name value r e' w',
     well_formed name = true ->
     set name value (e, w) = (r, (e', w')) -> index_names e' w')
  /\ (forall name r e' w',
        delete name (e, w) = (r, (e', w')) -> index_names e' w').
Proof.
  intros Hkey Hinv. split.
  - intros name value r e' w' Hwf Hset.
    by apply (set_keeps_index_names e e' w w' name value r).
  - intros name r e' w' Hdel. by apply (delete_keeps_index_names e e' w w' name r).
Qed.

(** [set], [delete] and [close] never touch the keyfile, the mode of the
    directory or the environment, whether they complete or throw: what
    [guarded] says of a directory before the call, it says after it. *)
Theorem keyfile_is_never_rewritten (e : Engine) (w : World) (name value : jsstring)
    dir env dm f :
  guarded dir env dm f w ->
  guarded dir env dm f (snd (snd (set name value (e, w))))
  /\ guarded dir env dm f (snd (snd (delete name (e, w))))
  /\ guarded dir env dm f (snd (snd (close (e, w)))).
Proof.
  intros Hg.
  assert (Hlog : forall ev w0, guarded dir env dm f w0 -> guarded dir env dm f (add_log ev w0))
    by (intros; by apply guarded_log).
  assert (Hspend : forall n w0, guarded dir env dm f w0 -> guarded dir env dm f (spend n w0))
    by (intros; by apply guarded_spend).
  assert (Hput : forall dir' name' f' w0,
             name' = CONSTANTS.DB_NAME \/ name' = CONSTANTS.META_NAME ->
             guarded dir env dm f w0 ->
             guarded dir env dm f (set_fs (put_file dir' name' f' (w_fs w0)) w0))
    by (intros; by apply guarded_put).
  assert (Kset : keeps (guarded dir env dm f) snd (set name value))
    by (apply keeps_set; assumption).
  assert (Kdelete : keeps (guarded dir env dm f) snd (delete name))
    by (apply keeps_delete; assumption).
  assert (Kclose : keeps (guarded dir env dm f) snd close)
    by (apply keeps_close; assumption).
  split; [|split].
  - by apply (Kset (e, w)).
  - by apply (Kdelete (e, w)).
  - by apply (Kclose (e, w)).
Qed.

(** ** What [set] and [delete] do to the index and the rows *)



(** ** The mode of [meta.json] *)











End EngineProps.

(** * A store on a small runtime

    The statements above hold for every runtime.  Here they are run: a
    POSIX machine with an empty file system, the runtime of
    [SmallRuntime], and a store under [/t] that is opened, written to,
    closed and opened again. *)

Module Examples.
Import Js Errors Types Node Platform Crypto Integrity SecretsEngine.
#[local] Existing Instance SmallRuntime.runtime.
#[local] Existing Instance selected_dec.

Definition env0 : Env :=
  {| win32 := false; XDG_CONFIG_HOME := None; APPDATA := None;
     homedir := u "/home/u"; hostname := u "host";
     networkInterfaces :=
       [Some [ {| internal := true; mac := u "00:00:00:00:00:00" |};
               {| internal := false; mac := u "aa:bb:cc:dd:ee:ff" |} ]];
     username := u "user"; umask := 18 |}.

Definition w0 : World :=
  {| w_env := env0; w_fs := ∅;
     w_entropy := fun i => Z.of_nat (i * i * 7 + i * 37 + 11);
     w_spent := 0; w_now := 1700000000000; w_log := [] |}.

Definition opts : option OpenOptions :=
  Some {| path := Some (u "/t"); location := None |}.

Definition no_engine : Engine :=
  {| masterKey := []; store := {| db_dir := []; db_closed := true |};
     dirPath := []; salt := []; keyIndex := ∅; closed := true |}.

Definition engine_of (r : Res Engine * World) : Engine :=
  match fst r with Ok e => e | Err _ => no_engine end.

(** [open] on the empty file system. *)
Definition e1 : Engine := Eval vm_compute in engine_of (open opts w0).
Definition w1 : World := Eval vm_compute in snd (open opts w0).

Lemma open_w0 : open opts w0 = (Ok e1, w1).
Proof. vm_cast_no_check (eq_refl (Ok e1, w1)). Qed.


(** One secret. *)
Definition name1 : jsstring := u "openai.apiKey".
Definition value1 : jsstring := u "sk-abc123".

Definition e2 : Engine := Eval vm_compute in fst (snd (set name1 value1 (e1, w1))).
Definition w2 : World := Eval vm_compute in snd (snd (set name1 value1 (e1, w1))).

Lemma set_e1 : set name1 value1 (e1, w1) = (Ok tt, (e2, w2)).
Proof. vm_cast_no_check (eq_refl (Ok tt, (e2, w2))). Qed.

(** [close], and [open] again. *)
Definition e3 : Engine := Eval vm_compute in fst (snd (close (e2, w2))).
Definition w3 : World := Eval vm_compute in snd (snd (close (e2, w2))).

Lemma close_e2 : close (e2, w2) = (Ok tt, (e3, w3)).
Proof. vm_cast_no_check (eq_refl (Ok tt, (e3, w3))). Qed.

Definition e4 : Engine := Eval vm_compute in engine_of (open opts w3).
Definition w4 : World := Eval vm_compute in snd (open opts w3).

Lemma open_w3 : open opts w3 = (Ok e4, w4).
Proof. vm_cast_no_check (eq_refl (Ok e4, w4)). Qed.

Definition w5 : World := Eval vm_compute in snd (snd (close (e4, w4))).


(** ** C1 *)

Lemma set_then_get_witness : get name1 (e2, w2) = (Ok (Some value1), (e2, w2)).
Proof.
  exact (set_then_get e1 e2 w1 w2 name1 value1 eq_refl eq_refl set_e1).
Defined.

(** ** C2 *)

Lemma closed_instance_guard_witness :
  closed e3 = true
  /\ get name1 (e3, w3) = (Err (Error closed_message), (e3, w3))
  /\ close (e3, w3) = (Ok tt, (e3, w3))
  /\ storagePath (e3, w3) = (Ok (u "/t"), (e3, w3)).
Proof.
  destruct (closed_instance_guard e2 e3 w2 w3 close_e2) as [Hclosed Hcalls].
  destruct (Hcalls w3 name1 value1 None)
    as (Hget & _ & _ & _ & _ & _ & _ & _ & Hclose & Hpath).
  split; [exact Hclosed|]. split; [exact Hget|]. split; [exact Hclose | exact Hpath].
Defined.

(** [destroy] on the instance that was closed: the error of
    [ensureOpen], and the directory is still there. *)
Lemma destroy_after_close_is_refused :
  close (e2, w2) = (Ok tt, (e3, w3))
  /\ destroy (e3, w3) = (Err (Error closed_message), (e3, w3))
  /\ message (Error closed_message) = u "SecretsEngine instance is closed".
Proof.
  split; [exact close_e2|]. split; [|reflexivity].
  vm_cast_no_check (eq_refl (@Err unit (Error closed_message), (e3, w3))).
Qed.

(** ** C3 *)

(** The store that was closed, with a [meta.json] that is no JSON. *)
Definition garbage : File :=
  {| f_mode := 384; f_data := Raw (utf8_encode (u "{ not json")) |}.

Definition w_garbage : World :=
  Eval vm_compute in
    set_fs (put_file (u "/t") CONSTANTS.META_NAME garbage (w_fs w3)) w3.

Definition e_garbage : Engine := Eval vm_compute in engine_of (open opts w_garbage).
Definition w_garbage' : World := Eval vm_compute in snd (open opts w_garbage).

Lemma open_w_garbage : open opts w_garbage = (Ok e_garbage, w_garbage').
Proof. vm_cast_no_check (eq_refl (Ok e_garbage, w_garbage')). Qed.

Lemma meta_is_garbage : meta_is (u "/t") garbage w_garbage.
Proof. vm_cast_no_check (eq_refl (Some garbage)). Qed.

Lemma garbage_does_not_parse :
  JSON_parse (utf8_decode (file_bytes (f_data garbage))) = None.
Proof. vm_cast_no_check (eq_refl (@None MetaJson)). Qed.

Lemma open_takes_unparseable_meta_for_a_new_store_witness :
  (exists w, resolveSalt (u "/t") w_garbage = (Ok (fresh_salt w_garbage, true), w))
  /\ dirPath e_garbage = u "/t"
  /\ (exists w1 keyfile w2 warnings tail,
        ensureDirectory (u "/t") w_garbage = (Ok tt, w1)
        /\ ensureKeyfile (u "/t") w1 = (Ok keyfile, w2)
        /\ resolveSalt (u "/t") w2
           = (Ok (fresh_salt w2, true),
              spend CONSTANTS.SALT_LENGTH
                (add_log (EvReadFile (meta_path (u "/t"))) w2))
        /\ salt e_garbage = fresh_salt w2
        /\ masterKey e_garbage
           = deriveMasterKey (getMachineIdentity (w_env w_garbage)) keyfile
               (hex_decode (fresh_salt w2))
        /\ w_log w_garbage'
           = w_log w2 ++ EvReadFile (meta_path (u "/t")) :: EvDbOpen (u "/t") :: warnings
               ++ EvCheckpoint (u "/t") :: db_read (u "/t")
               :: EvWriteFile (meta_path (u "/t")) :: tail
        /\ Forall is_warning warnings
        /\ chmod_or_nothing (u "/t") tail)
  /\ meta_holds w_garbage' (u "/t")
       (meta_document (salt e_garbage)
          (hmac_buffer (masterKey e_garbage)
             (sha256 (sqlite_image (rows_of w_garbage' (u "/t")))))).
Proof.
  destruct (open_takes_unparseable_meta_for_a_new_store opts w_garbage w_garbage'
              (u "/t") garbage (Ok e_garbage) eq_refl meta_is_garbage
              garbage_does_not_parse) as (Hsalt & _ & Hopen).
  split; [exact Hsalt | exact (Hopen open_w_garbage)].
Defined.

(** [open] on that store returns an engine, with another salt than the
    one the store was written with: no [IntegrityError]. *)
Lemma open_returns_an_engine_for_unparseable_meta :
  meta_is (u "/t") garbage w_garbage
  /\ JSON_parse (utf8_decode (file_bytes (f_data garbage))) = None
  /\ open opts w_garbage = (Ok e_garbage, w_garbage')
  /\ fst (open opts w_garbage) <> Err corrupted_meta
  /\ salt e_garbage <> salt e4.
Proof.
  split; [exact meta_is_garbage|]. split; [exact garbage_does_not_parse|].
  split; [exact open_w_garbage|]. split; [by rewrite open_w_garbage | discriminate].
Qed.

(** ** C5 *)


(** ** C6 *)





Definition hash1 : jsstring := Eval vm_compute in hmac (masterKey e2) name1.

Lemma hash1_eq : hmac (masterKey e2) name1 = hash1.
Proof. vm_cast_no_check (eq_refl hash1). Qed.







Lemma key_length_e2 : length (masterKey e2) = CONSTANTS.KEY_LENGTH.
Proof. vm_cast_no_check (eq_refl 32%nat). Qed.

(** [delete] of the name that was set. *)
Definition e_del : Engine := Eval vm_compute in fst (snd (delete name1 (e2, w2))).
Definition w_del : World := Eval vm_compute in snd (snd (delete name1 (e2, w2))).

Lemma delete_e2 : delete name1 (e2, w2) = (Ok true, (e_del, w_del)).
Proof. vm_cast_no_check (eq_refl (Ok true, (e_del, w_del))). Qed.


(** ** C7 *)

Definition iv0 : bytes := [1; 2; 3; 4; 5; 6; 7; 8; 9; 10; 11; 12].

Definition sealed (plaintext : bytes) : bytes :=
  fst (aes256gcm_seal (masterKey e1) iv0 plaintext)
  ++ snd (aes256gcm_seal (masterKey e1) iv0 plaintext).

Definition hash0 : jsstring := u "0123456789abcdef0123".

Lemma decrypt_throws_exactly_witness :
  is_Ok (decrypt (masterKey e1) iv0 [1; 2; 3] None) = false
  /\ decrypt (masterKey e1) iv0 (sealed (utf8_encode value1)) None = Ok value1
  /\ (exists e,
        decrypt (masterKey e1) iv0 [1; 2; 3] (Some hash0) = Err e
        /\ message e
           = u "Decryption failed (entry: 0123456789abcdef" ++ ellipsis
               ++ u "): Ciphertext too short to contain auth tag").
Proof.
  destruct (decrypt_throws_exactly (masterKey e1) iv0 [1; 2; 3] None)
    as ((_ & Hshort) & _).
  destruct (decrypt_throws_exactly (masterKey e1) iv0 (sealed (utf8_encode value1)) None)
    as (_ & _ & Hreturns).
  destruct (decrypt_throws_exactly (masterKey e1) iv0 [1; 2; 3] (Some hash0))
    as (_ & Hthrows & _).
  split; [apply Hshort; left; vm_compute; lia|].
  split.
  { apply (Hreturns (utf8_encode value1)); [vm_compute; lia|].
    vm_cast_no_check (eq_refl (@inr jsstring bytes (utf8_encode value1))). }
  eexists. split; [reflexivity|].
  destruct (Hthrows _ eq_refl) as (cause & [[_ ->]|[Hlong _]] & _ & _ & Hmessage).
  - exact Hmessage.
  - exfalso. vm_compute in Hlong. lia.
Defined.

(** The byte [255] is no UTF-8; sealed and handed to [decrypt] it comes
    back as U+FFFD, and nothing is thrown. *)
Lemma decrypt_returns_for_bytes_that_are_no_utf8 :
  ~ valid_utf8 [255]
  /\ aes256gcm_open (masterKey e1) iv0 (body_of_ciphertext (sealed [255]))
       (tag_of_ciphertext (sealed [255])) = inr [255]
  /\ decrypt (masterKey e1) iv0 (sealed [255]) (Some (u "0123456789abcdef0123"))
     = Ok [65533].
Proof.
  split; [|split].
  - intros (s & Hwf & Henc).
    apply (utf8_encode_head s 255 []) in Hwf; [lia | exact Henc].
  - vm_cast_no_check (eq_refl (@inr jsstring bytes [255])).
  - vm_cast_no_check (eq_refl (@Ok jsstring [65533])).
Qed.

(** ** C8 *)

Definition pattern1 : jsstring := u "openai.*".

Lemma pattern1_compiles :
  exists r, Glob.RegExp (Glob.regexSource pattern1) = Glob.Compiled r.
Proof. vm_compute. eexists. reflexivity. Qed.

Lemma keys_sorted_by_code_units_witness :
  exists names,
    keys (Some pattern1) (e4, w4) = (Ok names, (e4, w4))
    /\ StronglySorted u16_le names
    /\ names ≡ₚ filter (selected (Some pattern1)) (map snd (map_to_list (keyIndex e4))).
Proof.
  exact (keys_sorted_by_code_units e4 w4 (Some pattern1) eq_refl
           (fun _ => pattern1_compiles)).
Defined.

(** Two names: U+FF5E, one code unit, and U+1F600, a surrogate pair. *)
Definition tilde : jsstring := [65374].
Definition smiley : jsstring := [55357; 56832].

Definition e_names : Engine :=
  Eval vm_compute in
    fst (snd (set smiley (u "y") (snd (set tilde (u "x") (e1, w1))))).
Definition w_names : World :=
  Eval vm_compute in
    snd (snd (set smiley (u "y") (snd (set tilde (u "x") (e1, w1))))).

(** [keys] puts the surrogate pair first, which is the greater code
    point; and the pattern that is the empty string selects every name,
    though the matcher takes none for it. *)
Lemma keys_puts_surrogate_pairs_first :
  keys None (e_names, w_names) = (Ok [smiley; tilde], (e_names, w_names))
  /\ code_points tilde = [65374] /\ code_points smiley = [128512]
  /\ cp_le tilde smiley /\ ~ cp_le smiley tilde
  /\ keys (Some []) (e_names, w_names) = (Ok [smiley; tilde], (e_names, w_names))
  /\ Glob.matchGlob [] tilde = Some false
  /\ Glob.matchGlob [] smiley = Some false.
Proof.
  split; [vm_cast_no_check (eq_refl (Ok [smiley; tilde], (e_names, w_names)))|].
  split; [reflexivity|]. split; [reflexivity|]. split; [reflexivity|].
  split; [discriminate|].
  split; [vm_cast_no_check (eq_refl (Ok [smiley; tilde], (e_names, w_names)))|].
  split; reflexivity.
Qed.

(** ** C9 *)






(** ** C10 *)

Definition env_xdg : Env :=
  {| win32 := false; XDG_CONFIG_HOME := Some (u "/x"); APPDATA := None;
     homedir := u "/home/u"; hostname := u "host"; networkInterfaces := [];
     username := u "user"; umask := 18 |}.

Lemma location_home_is_not_looked_at_witness :
  resolveStoragePath env_xdg (Some {| path := None; location := Some home |})
  = Ok (u "/x/secrets-engine")
  /\ resolveStoragePath env_xdg None = Ok (u "/x/secrets-engine").
Proof.
  destruct (location_home_is_not_looked_at env_xdg (u "/x")) as (Hsame & _ & Hxdg).
  split; [|rewrite <- Hsame]; exact (Hxdg eq_refl eq_refl eq_refl).
Defined.

(** ** Patterns with no question mark *)

Lemma matchGlob_without_question_mark_witness :
  Glob.glob_spec pattern1 name1 /\ ~ Glob.glob_spec pattern1 (u "openai.api.key").
Proof.
  assert (Hplain : Forall (fun c => c <> 63) pattern1)
    by (vm_compute; repeat (constructor; [by intros [=]|]); constructor).
  destruct (matchGlob_without_question_mark pattern1 name1 Hplain) as [_ [Hmatch _]].
  destruct (matchGlob_without_question_mark pattern1 (u "openai.api.key") Hplain)
    as [_ [_ Hspec]].
  split; [by apply Hmatch|]. intros Habs. by apply Hspec in Habs.
Defined.


(** ** The instances above are open on their database *)

Lemma healthy_e1 : healthy e1 w1.
Proof. exact (proj1 (proj2 (proj2 (open_inv opts w0 w1 e1 open_w0)))). Qed.

Lemma healthy_e2 : healthy e2 w2.
Proof.
  split; [reflexivity|]. split; [reflexivity|].
  assert (Hfile : is_Some (db_file w2 (dirPath e2)))
    by (apply (bool_decide_eq_true_1 _); vm_cast_no_check (eq_refl true)).
  destruct Hfile as [[[m main] view] Hf]. eauto.
Qed.


Lemma bound_e4 : bound e4 w4.
Proof. exact (proj1 (proj2 (proj2 (proj2 (open_inv opts w3 w4 e4 open_w3))))). Qed.

Lemma index_names_e1 : index_names e1 w1.
Proof. by destruct (open_inv opts w0 w1 e1 open_w0) as (_ & _ & _ & _ & _ & _ & _ & Hn). Qed.



Lemma no_row_e1 : rows_of w1 (dirPath e1) !! hmac (masterKey e1) name1 = None.
Proof. vm_cast_no_check (eq_refl (@None Row)). Qed.

Definition name2 : jsstring := u "github.token".

Lemma other_hash : hmac (masterKey e2) name1 <> hmac (masterKey e2) name2.
Proof. vm_compute. discriminate. Qed.

Lemma key_length_e1 : length (masterKey e1) = CONSTANTS.KEY_LENGTH.
Proof. vm_cast_no_check (eq_refl 32%nat). Qed.

Lemma pattern1_plain : Forall (fun c => c <> 63) pattern1.
Proof. vm_compute; repeat (constructor; [by intros [=]|]); constructor. Qed.

(** ** [set] *)


(** ** [get] *)

Lemma get_reads_the_row_witness :
  snd (get name1 (e2, w2)) = (e2, w2)
  /\ snd (getOrThrow name1 (e2, w2)) = (e2, w2)
  /\ fst (getOrThrow name1 (e1, w1)) = Err (KeyNotFoundError name1).
Proof.
  destruct (get_reads_the_row e2 w2 name1 healthy_e2) as (Hget & Hthrow & _).
  destruct (get_reads_the_row e1 w1 name1 healthy_e1) as (_ & _ & _ & Hnone & _).
  split; [exact Hget|]. split; [exact Hthrow|]. exact (proj1 (Hnone no_row_e1)).
Defined.

(** ** [delete] *)


Lemma delete_of_a_name_that_is_not_stored_witness :
  delete name1 (e1, w1) = (Ok false, (e1, add_log (EvDbRun (dirPath e1)) w1))
  /\ w_fs (add_log (EvDbRun (dirPath e1)) w1) = w_fs w1.
Proof. exact (delete_of_a_name_that_is_not_stored e1 w1 name1 healthy_e1 no_row_e1). Defined.

Lemma other_names_are_left_alone_witness :
  exists e' w',
    set name2 value1 (e2, w2) = (Ok tt, (e', w'))
    /\ fst (get name1 (e', w')) = fst (get name1 (e2, w2))
    /\ fst (has name1 (e', w')) = fst (has name1 (e2, w2)).
Proof.
  destruct (set_run e2 w2 name2 value1 healthy_e2) as (w' & Hset & _).
  destruct (other_names_are_left_alone e2 w2 name2 name1 healthy_e2 other_hash)
    as [Hother _].
  eexists _, w'. split; [exact Hset|]. exact (Hother value1 _ w' Hset).
Defined.

(** ** [encrypt] and [decrypt], and the salt *)

Lemma decrypt_of_encrypt_witness :
  exists payload,
    encrypt (masterKey e1) value1 w1 = (Ok payload, spend CONSTANTS.IV_LENGTH w1)
    /\ decrypt (masterKey e1) (payload_iv payload) (payload_ciphertext payload) None
       = Ok value1.
Proof.
  destruct (decrypt_of_encrypt (masterKey e1) value1 None w1 key_length_e1)
    as (payload & Hrun & _ & _ & _ & _ & Hback).
  exists payload. split; [exact Hrun|]. apply Hback. reflexivity.
Defined.

Lemma hex_decode_of_hex_encode_witness :
  hex_decode (hex_encode [0; 255; 16]) = [0; 255; 16]
  /\ length (hex_encode [0; 255; 16]) = 6%nat
  /\ length (hex_decode (fresh_salt w0)) = CONSTANTS.SALT_LENGTH.
Proof.
  assert (Hbytes : Forall (fun b => 0 <= b < 256) [0; 255; 16])
    by (repeat (constructor; [lia|]); constructor).
  destruct (hex_decode_of_hex_encode [0; 255; 16] w0 Hbytes) as (Hback & Hlen & _ & _ & Hsalt).
  split; [exact Hback|]. split; [exact Hlen | exact Hsalt].
Defined.

(** ** [verifyIntegrity] *)








(** ** The directory and the keyfile *)


(** The world after [ensureDirectory]: a directory with no file. *)
Definition w_dir : World := Eval vm_compute in snd (ensureDirectory (u "/t") w0).

Lemma w_dir_has_the_directory : is_Some (w_fs w_dir !! u "/t").
Proof. apply (bool_decide_eq_true_1 _). vm_cast_no_check (eq_refl true). Qed.

Lemma w_dir_has_no_keyfile : lookup_file (w_fs w_dir) (u "/t") CONSTANTS.KEYFILE_NAME = None.
Proof. vm_cast_no_check (eq_refl (@None File)). Qed.

Lemma ensureKeyfile_creates_once_witness :
  exists w' w'',
    ensureKeyfile (u "/t") w_dir = (Ok (entropy_bytes CONSTANTS.KEYFILE_LENGTH w_dir), w')
    /\ ensureKeyfile (u "/t") w' = (Ok (entropy_bytes CONSTANTS.KEYFILE_LENGTH w_dir), w'')
    /\ w_fs w'' = w_fs w'.
Proof.
  destruct (ensureKeyfile_creates_once (u "/t") w_dir w_dir_has_the_directory
              w_dir_has_no_keyfile)
    as (w' & mode & Hfirst & _ & _ & _ & _ & w'' & Hsecond & Hfs & _).
  exists w', w''. split; [exact Hfirst|]. split; [exact Hsecond | exact Hfs].
Defined.

(** ** [destroy] *)


(** ** [filterKeys] and [keys] *)

Lemma filterKeys_selects_by_the_pattern_witness :
  exists selected,
    Glob.filterKeys [name1; name2] pattern1 = Some selected
    /\ selected `sublist_of` [name1; name2].
Proof.
  destruct (filterKeys_selects_by_the_pattern [name1; name2] pattern1) as [_ Hsel].
  destruct (Hsel pattern1_plain) as (selected & Hrun & Hsub & _).
  exists selected. split; [exact Hrun | exact Hsub].
Defined.

Lemma keys_lists_the_names_that_match_witness :
  exists names,
    keys (Some pattern1) (e2, w2) = (Ok names, (e2, w2))
    /\ StronglySorted u16_le names.
Proof.
  assert (Hpattern : pattern1 <> []) by discriminate.
  destruct (keys_lists_the_names_that_match e2 w2 pattern1 eq_refl Hpattern pattern1_plain)
    as (names & Hrun & Hsorted & _).
  exists names. split; [exact Hrun | exact Hsorted].
Defined.

(** ** [close], and [open] again *)



Lemma open_gives_a_working_instance_witness :
  resolveStoragePath (w_env w0) opts = Ok (dirPath e1)
  /\ w_env w1 = w_env w0
  /\ healthy e1 w1 /\ bound e1 w1
  /\ length (masterKey e1) = CONSTANTS.KEY_LENGTH
  /\ (exists m view, db_file w1 (dirPath e1) = Some (m, view, view))
  /\ index_matches_rows e1 w1
  /\ index_names e1 w1.
Proof. exact (open_gives_a_working_instance opts w0 w1 e1 open_w0). Defined.

Lemma index_names_are_kept_witness : index_names e2 w2 /\ index_names e_del w_del.
Proof.
  destruct (index_names_are_kept e1 w1 key_length_e1 index_names_e1) as [Hset _].
  pose proof (Hset name1 value1 (Ok tt) e2 w2 eq_refl set_e1) as Hnames.
  split; [exact Hnames|].
  destruct (index_names_are_kept e2 w2 key_length_e2 Hnames) as [_ Hdelete].
  exact (Hdelete name1 (Ok true) e_del w_del delete_e2).
Defined.

Lemma keyfile_is_never_rewritten_witness :
  exists dm f,
    guarded (u "/t") env0 dm f w4
    /\ guarded (u "/t") env0 dm f (snd (snd (set name1 value1 (e4, w4))))
    /\ guarded (u "/t") env0 dm f (snd (snd (delete name1 (e4, w4))))
    /\ guarded (u "/t") env0 dm f (snd (snd (close (e4, w4)))).
Proof.
  destruct bound_e4 as (_ & dm & f & Hg & _).
  exists dm, f. split; [exact Hg|].
  exact (keyfile_is_never_rewritten e4 w4 name1 value1 (u "/t") env0 dm f Hg).
Defined.
End Examples.
